(** * Avro schema synthesis of the [avroschema] protoc plugin

    A shallow embedding of [plugin/avroschema/avroschema.go] and the
    properties of its schema synthesis: the type mapper, the field
    classifier, the [seen] cache, record assembly and rendering.

    Go pointers are addresses into an explicit object store, slices are a
    backing array plus a length, and the plugin's methods run in a state
    and abort monad over the plugin value. *)

From Stdlib Require Import ZArith Ascii String.
From stdpp Require Import base option list gmap strings.

Local Open Scope string_scope.
Local Open Scope list_scope.
Local Open Scope nat_scope.

(** ** Go library functions used by the plugin *)

Module GoLib.

(** [strings.Join]. *)
Fixpoint Join (elems : list string) (sep : string) : string :=
  match elems with
  | [] => ""
  | [e] => e
  | e :: rest => e +:+ sep +:+ Join rest sep
  end.

(** [strings.Split] for a one-byte separator: the pieces between the
    separators, a single empty piece for the empty string. *)
Fixpoint Split (s : string) (sep : ascii) : list string :=
  match s with
  | EmptyString => [""]
  | String c rest =>
      if Ascii.eqb c sep then "" :: Split rest sep
      else match Split rest sep with
           | w :: ws => String c w :: ws
           | [] => [String c ""]
           end
  end.

Definition isASCIILower (c : ascii) : bool :=
  (97 <=? nat_of_ascii c) && (nat_of_ascii c <=? 122).

Definition isASCIIDigit (c : ascii) : bool :=
  (48 <=? nat_of_ascii c) && (nat_of_ascii c <=? 57).

(** [c ^= ' '] on a byte. *)
Definition xor_space (c : ascii) : ascii :=
  let 'Ascii b0 b1 b2 b3 b4 b5 b6 b7 := c in
  Ascii b0 b1 b2 b3 b4 (negb b5) b6 b7.

(** The word loop of [generator.CamelCase]; [inword] holds while the
    inner loop copies the lower-case rest of a word. *)
Fixpoint camelWords (inword : bool) (s : string) : string :=
  match s with
  | EmptyString => EmptyString
  | String c rest =>
      if inword && isASCIILower c then String c (camelWords true rest)
      else if Ascii.eqb c "_" &&
              match rest with
              | String d _ => isASCIILower d
              | EmptyString => false
              end
      then camelWords false rest
      else if isASCIIDigit c then String c (camelWords false rest)
      else String (if isASCIILower c then xor_space c else c)
                  (camelWords true rest)
  end.

(** [generator.CamelCase] of the protobuf generator package. *)
Definition CamelCase (s : string) : string :=
  match s with
  | EmptyString => EmptyString
  | String c rest =>
      if Ascii.eqb c "_" then String "X" (camelWords false rest)
      else camelWords false s
  end.

(** The double quote byte. *)
Definition dquote : ascii := ascii_of_nat 34.

Definition hexDigit (n : nat) : ascii :=
  match n with
  | 0 => "0" | 1 => "1" | 2 => "2" | 3 => "3" | 4 => "4" | 5 => "5"
  | 6 => "6" | 7 => "7" | 8 => "8" | 9 => "9" | 10 => "a" | 11 => "b"
  | 12 => "c" | 13 => "d" | 14 => "e" | _ => "f"
  end%char.

(** A string of ASCII bytes: the strings on which [Quote] below is
    [strconv.Quote]. *)
Fixpoint isASCII (s : string) : bool :=
  match s with
  | EmptyString => true
  | String c rest => (nat_of_ascii c <? 128) && isASCII rest
  end.

(** One byte of [strconv.Quote] on a string of ASCII bytes: the quote and
    the backslash are escaped, control bytes become their short or [\x]
    escapes, printable ASCII is kept.  From 0x80 on [strconv.Quote]
    decodes UTF-8 and escapes what is not a printable rune; that is not
    modelled, and the byte is kept here: the statements about [Quote] are
    about ASCII strings. *)
Definition quoteByte (c : ascii) : string :=
  let n := nat_of_ascii c in
  if Ascii.eqb c dquote then String "\" (String dquote "")
  else if Ascii.eqb c "\" then String "\" (String "\" "")
  else if n =? 7 then String "\" "a"
  else if n =? 8 then String "\" "b"
  else if n =? 12 then String "\" "f"
  else if n =? 10 then String "\" "n"
  else if n =? 13 then String "\" "r"
  else if n =? 9 then String "\" "t"
  else if n =? 11 then String "\" "v"
  else if (n <? 32) || (n =? 127)
  then String "\" (String "x" (String (hexDigit (n / 16))
                                  (String (hexDigit (n mod 16)) "")))
  else String c "".

Fixpoint quoteBody (s : string) : string :=
  match s with
  | EmptyString => EmptyString
  | String c rest => quoteByte c +:+ quoteBody rest
  end.

(** [strconv.Quote] on a string of ASCII bytes. *)
Definition Quote (s : string) : string :=
  String dquote (quoteBody s +:+ String dquote "").

(** Growth of a full slice by [append]: the capacities the Go runtime
    picks for short slices (one, then doubling). *)
Definition growslice (cap : nat) : nat :=
  match cap with
  | 0 => 1
  | _ => 2 * cap
  end.

End GoLib.

(** ** Descriptors handed over by the generator framework *)

(** [descriptor.FieldDescriptorProto_Type], an [int32] enumeration. *)
Definition FieldDescriptorProto_Type := Z.

Definition TYPE_DOUBLE : FieldDescriptorProto_Type := 1%Z.
Definition TYPE_FLOAT : FieldDescriptorProto_Type := 2%Z.
Definition TYPE_INT64 : FieldDescriptorProto_Type := 3%Z.
Definition TYPE_UINT64 : FieldDescriptorProto_Type := 4%Z.
Definition TYPE_INT32 : FieldDescriptorProto_Type := 5%Z.
Definition TYPE_FIXED64 : FieldDescriptorProto_Type := 6%Z.
Definition TYPE_FIXED32 : FieldDescriptorProto_Type := 7%Z.
Definition TYPE_BOOL : FieldDescriptorProto_Type := 8%Z.
Definition TYPE_STRING : FieldDescriptorProto_Type := 9%Z.
Definition TYPE_GROUP : FieldDescriptorProto_Type := 10%Z.
Definition TYPE_MESSAGE : FieldDescriptorProto_Type := 11%Z.
Definition TYPE_BYTES : FieldDescriptorProto_Type := 12%Z.
Definition TYPE_UINT32 : FieldDescriptorProto_Type := 13%Z.
Definition TYPE_ENUM : FieldDescriptorProto_Type := 14%Z.
Definition TYPE_SFIXED32 : FieldDescriptorProto_Type := 15%Z.
Definition TYPE_SFIXED64 : FieldDescriptorProto_Type := 16%Z.
Definition TYPE_SINT32 : FieldDescriptorProto_Type := 17%Z.
Definition TYPE_SINT64 : FieldDescriptorProto_Type := 18%Z.

(** A field descriptor: what [GetName], [IsRepeated], [*field.Type] and
    [GetTypeName] give.  The generator sets name and type of every field,
    so the nil cases of these pointers are not modelled. *)
Record FieldDescriptorProto := {
  fd_Name : string;
  fd_IsRepeated : bool;
  fd_Type : FieldDescriptorProto_Type;
  fd_TypeName : string;
}.

(** A message descriptor: [GetName], [TypeName], [Field] and the result
    of [gogoproto.HasAvroSchema] on it. *)
Record Descriptor := {
  msg_Name : string;
  msg_TypeName : list string;
  msg_Field : list FieldDescriptorProto;
  msg_HasAvroSchema : bool;
}.

(** A file descriptor: [generator.FileName] and [Messages]. *)
Record FileDescriptor := {
  file_FileName : string;
  file_Messages : list Descriptor;
}.

(** A value of an enum declaration: [GetName] and [GetNumber]. *)
Record EnumValueDescriptorProto := {
  ev_Name : string;
  ev_Number : Z;
}.

(** What the generator's [ObjectNamed] can hand back: a message
    descriptor, or an enum descriptor with its values ([GetValue]). *)
Inductive Object :=
| MessageObject
| EnumObject (values : list EnumValueDescriptorProto).

(** ** The plugin's data *)

(** A slice header; the capacity is the length of the backing array. *)
Record slice := Slice { slice_array : nat; slice_len : nat }.

(** The [avroField] interface: nil or a pointer to one of the five
    structs; the struct's constructor is the dynamic type. *)
Definition avroField := option nat.

Inductive object :=
| envelope (name namespace typ : string) (fields : slice)
| simpleField (name typ : string)
| complexField (fieldName typeName : string) (fields : slice)
| arrayField (name typ : string)
| enumField (name typeName : string) (symbols : list string).

(** The plugin value with the memory it points into: [objects] holds the
    structs by address, [arrays] the backing arrays of the slices;
    [g_objects] and [g_output] are the embedded generator's type table and
    output. *)
Record avroschema := {
  g_objects : gmap string Object;
  g_output : list string;
  fileName : string;
  seen : gmap string avroField;
  objects : list object;
  arrays : list (list avroField);
}.

Definition set_output (f : list string → list string) (p : avroschema) :=
  {| g_objects := g_objects p; g_output := f (g_output p);
     fileName := fileName p; seen := seen p;
     objects := objects p; arrays := arrays p |}.

Definition set_fileName (n : string) (p : avroschema) :=
  {| g_objects := g_objects p; g_output := g_output p;
     fileName := n; seen := seen p;
     objects := objects p; arrays := arrays p |}.

Definition set_seen (f : gmap string avroField → gmap string avroField)
    (p : avroschema) :=
  {| g_objects := g_objects p; g_output := g_output p;
     fileName := fileName p; seen := f (seen p);
     objects := objects p; arrays := arrays p |}.

Definition set_objects (f : list object → list object) (p : avroschema) :=
  {| g_objects := g_objects p; g_output := g_output p;
     fileName := fileName p; seen := seen p;
     objects := f (objects p); arrays := arrays p |}.

Definition set_arrays (f : list (list avroField) → list (list avroField))
    (p : avroschema) :=
  {| g_objects := g_objects p; g_output := g_output p;
     fileName := fileName p; seen := seen p;
     objects := objects p; arrays := f (arrays p) |}.

(** ** String literals in the rendered text *)

(** Where a scan of the text stands: outside a string literal, inside
    one, or inside one right after a backslash. *)
Inductive lex := Outside | Inside | Escaped.

Definition lex_step (st : lex) (c : ascii) : lex :=
  match st with
  | Outside => if Ascii.eqb c GoLib.dquote then Inside else Outside
  | Inside =>
      if Ascii.eqb c GoLib.dquote then Outside
      else if Ascii.eqb c "\" then Escaped else Inside
  | Escaped => Inside
  end.

Fixpoint lex_run (st : lex) (s : string) : lex :=
  match s with
  | EmptyString => st
  | String c rest => lex_run (lex_step st c) rest
  end.

(** Every string literal the text opens is closed again: what a
    well-formed schema text needs first of all. *)
Definition strings_closed (s : string) : bool :=
  match lex_run Outside s with
  | Outside => true
  | _ => false
  end.

(** A string with no double quote and no backslash in it. *)
Fixpoint plain (s : string) : bool :=
  match s with
  | EmptyString => true
  | String c rest =>
      negb (Ascii.eqb c GoLib.dquote) && negb (Ascii.eqb c "\") && plain rest
  end.

(** A struct whose names, type names and namespace are plain; the symbols
    of an enumField may be any strings. *)
Definition plain_object (o : object) : bool :=
  match o with
  | envelope name namespace _ _ => plain name && plain namespace
  | simpleField name typ => plain name && plain typ
  | complexField fieldName typeName _ => plain fieldName && plain typeName
  | arrayField name typ => plain name && plain typ
  | enumField name typeName _ => plain name && plain typeName
  end.

(** A struct whose enum symbols, if it has any, are strings of ASCII
    bytes. *)
Definition ascii_symbols (o : object) : bool :=
  match o with
  | enumField _ _ symbols => forallb GoLib.isASCII symbols
  | _ => true
  end.

(** ** Running a method *)

(** How a call ends other than by returning: a Go panic, the generator's
    [Fail] (which exits), a rendering that ran out of fuel, or a read of
    memory that was never allocated. *)
Inductive abort :=
| Panic (msg : string)
| Exit (msg : string)
| OutOfFuel
| Stuck.

Inductive res (A : Type) :=
| Ok (a : A)
| Abort (e : abort).
Arguments Ok {A} a.
Arguments Abort {A} e.

Definition M (A : Type) : Type := avroschema → res (A * avroschema).

Definition ret {A} (a : A) : M A := λ p, Ok (a, p).

Definition bind {A B} (m : M A) (k : A → M B) : M B :=
  λ p, match m p with
       | Ok (a, p') => k a p'
       | Abort e => Abort e
       end.

Definition throw {A} (e : abort) : M A := λ _, Abort e.
Definition get : M avroschema := λ p, Ok (p, p).
Definition modify (f : avroschema → avroschema) : M unit :=
  λ p, Ok (tt, f p).

Declare Scope go_scope.
Delimit Scope go_scope with go.
Notation "x <- m ;; k" := (bind m (λ x, k))
  (at level 100, m at next level, right associativity) : go_scope.
Notation "m ;; k" := (bind m (λ _, k))
  (at level 100, right associativity) : go_scope.

Definition nil_dereference : string :=
  "invalid memory address or nil pointer dereference".
Definition interface_conversion : string := "interface conversion".
Definition index_out_of_range : string := "index out of range".
Definition errTypeNotFound : string := "type not found".
Definition unexpected_cached : string :=
  "Rats! Cache contains type I didn't expect".

(** [new]: a struct at a fresh address. *)
Definition alloc (o : object) : M nat :=
  λ p, Ok (length (objects p), set_objects (λ os, os ++ [o]) p).

(** [make([]avroField, 0)]: an empty slice on a backing array of its own. *)
Definition make_slice : M slice :=
  λ p, Ok (Slice (length (arrays p)) 0, set_arrays (λ bs, bs ++ [[]]) p).

(** The elements of a slice: the first [slice_len] cells of its array. *)
Definition slice_elems (p : avroschema) (s : slice) : option (list avroField) :=
  match arrays p !! slice_array s with
  | Some cells =>
      if decide (slice_len s ≤ length cells) then Some (take (slice_len s) cells)
      else None
  | None => None
  end.

(** The name the generator's [GetFieldName] picks for a field with no
    custom name that is not embedded, not in a oneof and does not clash
    with a method name: the camel-cased field name. *)
Definition GetFieldName_plain (message : Descriptor)
    (field : FieldDescriptorProto) : string :=
  GoLib.CamelCase (fd_Name field).

(** ** Inputs for the examples *)

Module Examples.

Definition scalar_field (name : string) (t : FieldDescriptorProto_Type)
    : FieldDescriptorProto :=
  {| fd_Name := name; fd_IsRepeated := false; fd_Type := t; fd_TypeName := "" |}.

Definition repeated_field (name : string) (t : FieldDescriptorProto_Type)
    (typeName : string) : FieldDescriptorProto :=
  {| fd_Name := name; fd_IsRepeated := true; fd_Type := t;
     fd_TypeName := typeName |}.

Definition message_field (name typeName : string) : FieldDescriptorProto :=
  {| fd_Name := name; fd_IsRepeated := false; fd_Type := TYPE_MESSAGE;
     fd_TypeName := typeName |}.

Definition enum_field (name typeName : string) : FieldDescriptorProto :=
  {| fd_Name := name; fd_IsRepeated := false; fd_Type := TYPE_ENUM;
     fd_TypeName := typeName |}.

Definition message (name : string) (path : list string)
    (fields : list FieldDescriptorProto) : Descriptor :=
  {| msg_Name := name; msg_TypeName := path; msg_Field := fields;
     msg_HasAvroSchema := true |}.

(** [message Tree { int64 value; Tree left; repeated string tags;
    Tree right; }] *)
Definition Tree : Descriptor :=
  message "Tree" ["Tree"]
    [scalar_field "value" TYPE_INT64; message_field "left" ".pkg.Tree";
     repeated_field "tags" TYPE_STRING ""; message_field "right" ".pkg.Tree"].

(** [message Outer { message Inner { int64 id; Inner self; } }], the
    descriptor of the nested message. *)
Definition Inner : Descriptor :=
  message "Inner" ["Outer"; "Inner"]
    [scalar_field "id" TYPE_INT64; message_field "self" ".pkg.Outer.Inner"].

(** Two siblings with a field of the same third type [C]. *)
Definition A : Descriptor :=
  message "A" ["A"] [message_field "third" ".pkg.C"].
Definition B : Descriptor :=
  message "B" ["B"] [message_field "third" ".pkg.C"].
Definition C : Descriptor :=
  message "C" ["C"] [scalar_field "id" TYPE_INT64].
Definition siblings : FileDescriptor :=
  {| file_FileName := "Pkg"; file_Messages := [A; B; C] |}.

(** A message with one group field. *)
Definition G : Descriptor :=
  message "G" ["G"] [scalar_field "id" TYPE_INT64; scalar_field "grp" TYPE_GROUP].
Definition groups : FileDescriptor :=
  {| file_FileName := "Pkg"; file_Messages := [G] |}.

(** [message M { D m; M self; }]: a field named [m] before the
    self-reference. *)
Definition Shadowed : Descriptor :=
  message "M" ["M"] [message_field "m" ".pkg.D"; message_field "self" ".pkg.M"].

(** [message M { M m; M self; }]: a field with the message's name, of
    the message's own type, before the self-reference. *)
Definition Echo : Descriptor :=
  message "M" ["M"] [message_field "m" ".pkg.M"; message_field "self" ".pkg.M"].

(** A message with a field [m] of a type not seen before, and a message
    [M]. *)
Definition Holder : Descriptor :=
  message "Holder" ["Holder"] [message_field "m" ".pkg.D"].
Definition M_empty : Descriptor := message "M" ["M"] [].

(** A message with a repeated field of message type, and the generator's
    table with that type in it. *)
Definition Basket : Descriptor :=
  message "Basket" ["Basket"] [repeated_field "items" TYPE_MESSAGE ".pkg.Item"].
Definition items : gmap string Object := {[ ".pkg.Item" := MessageObject ]}.

(** [enum Status { A = 0; B = 1; C = 2; }] and a field of that type. *)
Definition Status : list EnumValueDescriptorProto :=
  [{| ev_Name := "A"; ev_Number := 0 |}; {| ev_Name := "B"; ev_Number := 1 |};
   {| ev_Name := "C"; ev_Number := 2 |}].
Definition status : FieldDescriptorProto := enum_field "status" ".pkg.Status".
Definition types : gmap string Object := {[ ".pkg.Status" := EnumObject Status ]}.

(** A name with a double quote in it: [A], the quote, [b]; what
    [generator.FileName] gives for a source file named so. *)
Definition quoted_name : string := String "A" (String GoLib.dquote "b").

End Examples.

(** ** The plugin *)

Section Plugin.

(** Functions of the generator framework and the Go runtime the plugin
    calls: [generator.CamelCase], the name the generator's [GetFieldName]
    picks for a field once its call of [GoType] has returned,
    [strconv.Quote], and the capacity [append] picks for a full slice of
    the given capacity. *)
Variable CamelCase : string → string.
Variable fieldName : Descriptor → FieldDescriptorProto → string.
Variable Quote : string → string.
Variable growslice : nat → nat.

Local Open Scope go_scope.

(** [generator.CamelCaseSlice]. *)
Definition CamelCaseSlice (elem : list string) : string :=
  CamelCase (GoLib.Join elem "_").

(** [splits[len(splits)-1]]. *)
Definition last_of (splits : list string) : M string :=
  match splits !! (length splits - 1) with
  | Some s => ret s
  | None => throw (Panic index_out_of_range)
  end.

(** The generator's [Fail]: log the joined message and exit. *)
Definition Fail {A} (msgs : list string) : M A :=
  throw (Exit (GoLib.Join msgs " ")).

(** The generator's [ObjectNamed]. *)
Definition ObjectNamed (typeName : string) : M Object :=
  p <- get;;
  match g_objects p !! typeName with
  | Some o => ret o
  | None => Fail ["can't find object with type"; typeName]
  end.

(** The generator's [P]: one more line of output (the indentation kept
    by [In] and [Out] is layout only and left out). *)
Definition P (strs : list string) : M unit :=
  modify (set_output (λ out, out ++ [String.concat "" strs])).

(** *** Rendering *)

(** A name between quotes, the ["%s"] of the templates. *)
Definition inQuotes (s : string) : string :=
  String GoLib.dquote (s +:+ String GoLib.dquote "").

Definition envelope_template (name namespace fields : string) : string :=
  "{" +:+ inQuotes "name" +:+ ": " +:+ inQuotes name +:+ ", " +:+
  inQuotes "type" +:+ ": " +:+ inQuotes "record" +:+ ", " +:+
  inQuotes "namespace" +:+ ": " +:+ inQuotes namespace +:+ ", " +:+
  inQuotes "fields" +:+ ": [ " +:+ fields +:+ " ]}".

Definition simpleField_schema (name typ : string) : string :=
  "{" +:+ inQuotes "name" +:+ ": " +:+ inQuotes name +:+ ", " +:+
  inQuotes "type" +:+ ": " +:+ inQuotes typ +:+ "}".

Definition complexField_template (fieldName typeName fields : string) : string :=
  "{" +:+ inQuotes "name" +:+ ": " +:+ inQuotes fieldName +:+ ", " +:+
  inQuotes "type" +:+ ": { " +:+ inQuotes "name" +:+ ": " +:+
  inQuotes typeName +:+ ", " +:+ inQuotes "type" +:+ ": " +:+
  inQuotes "record" +:+ ", " +:+ inQuotes "fields" +:+ ": [ " +:+
  fields +:+ " ] }}".

Definition arrayField_schema (name typ : string) : string :=
  "{" +:+ inQuotes "name" +:+ ": " +:+ inQuotes name +:+ ", " +:+
  inQuotes "type" +:+ ": {" +:+ inQuotes "type" +:+ ": " +:+
  inQuotes "array" +:+ ", " +:+ inQuotes "items" +:+ ": " +:+
  inQuotes typ +:+ "}}".

Definition enumField_schema (name typeName : string) (symbols : list string)
    : string :=
  "{" +:+ inQuotes "name" +:+ ": " +:+ inQuotes name +:+ ", " +:+
  inQuotes "type" +:+ ": {" +:+ inQuotes "type" +:+ ": " +:+
  inQuotes "enum" +:+ ", " +:+ inQuotes "name" +:+ ": " +:+
  inQuotes typeName +:+ ", " +:+ inQuotes "symbols" +:+ ": [ " +:+
  GoLib.Join (map Quote symbols) ", " +:+ " ]}}".

(** The loop [for _, field := range fields { ... field.schema() }]. *)
Fixpoint schema_each (render : avroField → res string) (fields : list avroField)
    : res (list string) :=
  match fields with
  | [] => Ok []
  | f :: rest =>
      match render f with
      | Ok s => match schema_each render rest with
                | Ok ss => Ok (s :: ss)
                | Abort e => Abort e
                end
      | Abort e => Abort e
      end
  end.

(** [schema()] through the interface: dispatch on the struct the pointer
    leads to; a call on the nil interface panics.  The recursion follows
    pointers, so it is bounded by [fuel], one unit per pointer followed. *)
Fixpoint schema (fuel : nat) (p : avroschema) (f : avroField) : res string :=
  match f with
  | None => Abort (Panic nil_dereference)
  | Some a =>
      match fuel with
      | 0 => Abort OutOfFuel
      | S fuel =>
          match objects p !! a with
          | None => Abort Stuck
          | Some (envelope name namespace _ fields) =>
              match slice_elems p fields with
              | None => Abort Stuck
              | Some fs =>
                  match schema_each (schema fuel p) fs with
                  | Ok ss => Ok (envelope_template name namespace
                                   (GoLib.Join ss ", "))
                  | Abort e => Abort e
                  end
              end
          | Some (simpleField name typ) => Ok (simpleField_schema name typ)
          | Some (complexField fieldName typeName fields) =>
              match slice_elems p fields with
              | None => Abort Stuck
              | Some fs =>
                  match schema_each (schema fuel p) fs with
                  | Ok ss => Ok (complexField_template fieldName typeName
                                   (GoLib.Join ss ", "))
                  | Abort e => Abort e
                  end
              end
          | Some (arrayField name typ) => Ok (arrayField_schema name typ)
          | Some (enumField name typeName symbols) =>
              Ok (enumField_schema name typeName symbols)
          end
      end
  end.

(** *** The type mapper *)

Definition getAvroTypeForProtobufType (t : FieldDescriptorProto_Type) : string :=
  if (t =? TYPE_DOUBLE)%Z then "double"
  else if (t =? TYPE_FLOAT)%Z then "float"
  else if (t =? TYPE_INT64)%Z then "long"
  else if (t =? TYPE_UINT64)%Z then "long"
  else if (t =? TYPE_INT32)%Z then "int"
  else if (t =? TYPE_UINT32)%Z then "int"
  else if (t =? TYPE_FIXED64)%Z then "long"
  else if (t =? TYPE_FIXED32)%Z then "int"
  else if (t =? TYPE_BOOL)%Z then "boolean"
  else if (t =? TYPE_STRING)%Z then "string"
  else if (t =? TYPE_SFIXED32)%Z then "int"
  else if (t =? TYPE_SFIXED64)%Z then "long"
  else if (t =? TYPE_SINT32)%Z then "int"
  else if (t =? TYPE_SINT64)%Z then "long"
  else if (t =? TYPE_BYTES)%Z then "bytes"
  else "nil".

(** *** Slices *)

(** [append(s, x)]: in place while the backing array has room, else into
    a new, larger array that starts with a copy of the elements. *)
Definition append (s : slice) (x : avroField) : M slice :=
  p <- get;;
  match arrays p !! slice_array s with
  | None => throw Stuck
  | Some cells =>
      if decide (slice_len s < length cells) then
        modify (set_arrays (λ bs, <[slice_array s := <[slice_len s := x]> cells]> bs));;
        ret (Slice (slice_array s) (S (slice_len s)))
      else
        let cap := Nat.max (S (slice_len s)) (growslice (length cells)) in
        let cells' := take (slice_len s) cells ++ [x] ++
                      replicate (cap - S (slice_len s)) None in
        modify (set_arrays (λ bs, bs ++ [cells']));;
        ret (Slice (length (arrays p)) (S (slice_len s)))
  end.

(** *** Field classification *)

(** The fifteen scalar cases of the switch in [processField]. *)
Definition scalar_types : list FieldDescriptorProto_Type :=
  [TYPE_DOUBLE; TYPE_FLOAT; TYPE_INT64; TYPE_UINT64; TYPE_INT32;
   TYPE_UINT32; TYPE_FIXED64; TYPE_FIXED32; TYPE_BOOL; TYPE_STRING;
   TYPE_SFIXED32; TYPE_SFIXED64; TYPE_SINT32; TYPE_SINT64; TYPE_BYTES].

Definition is_scalar (t : FieldDescriptorProto_Type) : bool :=
  existsb (Z.eqb t) scalar_types.

(** The [error] result: nil or the error's message. *)
Definition error := option string.

(** The generator's [GoType], as far as a caller that drops its results
    depends on it: the switch over the field's type has a case for each of
    the eighteen tags of the enumeration; the cases of a group, a message
    and an enum resolve the type name with [ObjectNamed], and the default
    case fails.  (The gogoproto options it looks at afterwards are not
    set on the fields modelled here.) *)
Definition GoType (message : Descriptor) (field : FieldDescriptorProto)
    : M unit :=
  if is_scalar (fd_Type field) then ret tt
  else if (fd_Type field =? TYPE_GROUP)%Z || (fd_Type field =? TYPE_MESSAGE)%Z
          || (fd_Type field =? TYPE_ENUM)%Z
  then ObjectNamed (fd_TypeName field);; ret tt
  else Fail ["unknown type for"; fd_Name field].

(** The generator's [GetFieldName]: it calls [GoType] and then picks the
    name. *)
Definition GetFieldName (message : Descriptor) (field : FieldDescriptorProto)
    : M string :=
  GoType message field;;
  ret (fieldName message field).

Definition getSimpleAvroField (message : Descriptor) (field : FieldDescriptorProto)
    : M (nat * error) :=
  name <- GetFieldName message field;;
  f <- alloc (simpleField name (getAvroTypeForProtobufType (fd_Type field)));;
  ret (f, None).

Definition getArrayField (message : Descriptor) (field : FieldDescriptorProto)
    : M (nat * error) :=
  name <- GetFieldName message field;;
  f <- alloc (arrayField name (getAvroTypeForProtobufType (fd_Type field)));;
  ret (f, None).

Definition getComplexField (message : Descriptor) (field : FieldDescriptorProto)
    : M (nat * error) :=
  typeName <- last_of (GoLib.Split (CamelCase (fd_TypeName field)) ".");;
  p <- get;;
  match seen p !! typeName with
  | Some cached =>
      match cached with
      | None => throw (Panic unexpected_cached)
      | Some a =>
          match objects p !! a with
          | None => throw Stuck
          | Some (envelope _ _ _ fields) =>
              f <- alloc (complexField (CamelCase (fd_Name field)) typeName fields);;
              ret (f, None)
          | Some (complexField _ _ _) => ret (a, None)
          | Some _ => throw (Panic unexpected_cached)
          end
      end
  | None =>
      fields <- make_slice;;
      f <- alloc (complexField (CamelCase (fd_Name field)) typeName fields);;
      modify (set_seen (<[CamelCase (fd_Name field) := Some f]>));;
      ret (f, None)
  end.

Definition getEnumField (message : Descriptor) (field : FieldDescriptorProto)
    : M (nat * error) :=
  o <- ObjectNamed (fd_TypeName field);;
  match o with
  | MessageObject => throw (Panic interface_conversion)
  | EnumObject values =>
      let symbols :=
        fold_left (λ symbols v, symbols ++ [ev_Name v]) values [] in
      typeName <- last_of (GoLib.Split (fd_TypeName field) ".");;
      f <- alloc (enumField (fd_Name field) typeName symbols);;
      ret (f, None)
  end.

(** A pointer result handed on as an [avroField]. *)
Definition as_avroField (m : M (nat * error)) : M (avroField * error) :=
  r <- m;; ret (Some r.1, r.2).

Definition processField (message : Descriptor) (field : FieldDescriptorProto)
    : M (avroField * error) :=
  if fd_IsRepeated field then as_avroField (getArrayField message field)
  else if is_scalar (fd_Type field)
  then as_avroField (getSimpleAvroField message field)
  else if (fd_Type field =? TYPE_MESSAGE)%Z
  then as_avroField (getComplexField message field)
  else if (fd_Type field =? TYPE_ENUM)%Z
  then as_avroField (getEnumField message field)
  else if (fd_Type field =? TYPE_GROUP)%Z
  then ret (None, None)
  else
    Fail (A := unit) ["unknown type for "; fd_Name field];;
    ret (None, Some errTypeNotFound).

(** *** Record assembly *)

(** [e.fields = append(e.fields, fs)] on the envelope at address [e]. *)
Definition append_field (e : nat) (fs : avroField) : M unit :=
  p <- get;;
  match objects p !! e with
  | Some (envelope name namespace typ fields) =>
      fields' <- append fields fs;;
      modify (set_objects (<[e := envelope name namespace typ fields']>))
  | _ => throw Stuck
  end.

(** The body of the loop in [processMessage]: classify the field, panic
    on an error, append the node to the envelope at [e]. *)
Definition assemble_field (message : Descriptor) (e : nat)
    (field : FieldDescriptorProto) : M unit :=
  r <- processField message field;;
  match r.2 with
  | Some err => throw (Panic ("Rats! " +:+ err))
  | None => append_field e r.1
  end.

(** The loop over [message.Field] in [processMessage]. *)
Fixpoint processFields (message : Descriptor) (e : nat)
    (fields : list FieldDescriptorProto) : M unit :=
  match fields with
  | [] => ret tt
  | field :: rest =>
      assemble_field message e field;;
      processFields message e rest
  end.

Definition processMessage (message : Descriptor) : M nat :=
  p <- get;;
  fields <- make_slice;;
  e <- alloc (envelope (CamelCaseSlice (msg_TypeName message)) (fileName p)
                "record" fields);;
  modify (set_seen (<[CamelCaseSlice (msg_TypeName message) := Some e]>));;
  processFields message e (msg_Field message);;
  ret e.

(** *** The driver *)

(** [createMessageStub]; the fuel given to [schema] is enough for every
    envelope the plugin builds ([schema_envelope_rendered] below). *)
Definition createMessageStub (message : Descriptor) : M unit :=
  let ccTypeName := msg_Name message in
  e <- processMessage message;;
  P ["func AvroSchemaFor"; ccTypeName; "() string {"];;
  p <- get;;
  match schema (S (length (objects p))) p (Some e) with
  | Abort a => throw a
  | Ok text =>
      P ["return " +:+ Quote text];;
      P ["}"];;
      P [""]
  end.

(** The loop over [file.Messages()] in [Generate]. *)
Fixpoint generateMessages (messages : list Descriptor) : M unit :=
  match messages with
  | [] => ret tt
  | message :: rest =>
      (if msg_HasAvroSchema message then createMessageStub message else ret tt);;
      generateMessages rest
  end.

Definition Generate (file : FileDescriptor) : M unit :=
  modify (set_fileName (file_FileName file));;
  generateMessages (file_Messages file).

(** [newAvroSchema] followed by [Init]: the generator's type table, an
    empty [seen] map, nothing allocated yet. *)
Definition Init (g : gmap string Object) : avroschema :=
  {| g_objects := g; g_output := []; fileName := "";
     seen := ∅; objects := []; arrays := [] |}.

(** [Generate] on the files of a run, one after the other. *)
Fixpoint GenerateAll (files : list FileDescriptor) : M unit :=
  match files with
  | [] => ret tt
  | file :: rest => Generate file;; GenerateAll rest
  end.

(** ** Well-formed plugin states *)

(** The slice a struct carries, if any. *)
Definition slice_of (o : object) : option slice :=
  match o with
  | envelope _ _ _ s | complexField _ _ s => Some s
  | _ => None
  end.

(** The two shapes [getComplexField] accepts from the cache. *)
Definition is_record (o : object) : bool :=
  match o with
  | envelope _ _ _ _ | complexField _ _ _ => true
  | _ => false
  end.

Definition is_envelope (o : object) : bool :=
  match o with
  | envelope _ _ _ _ => true
  | _ => false
  end.

(** Every cached value is a pointer to an envelope or a complexField. *)
Definition cache_ok (p : avroschema) : Prop :=
  ∀ k v, seen p !! k = Some v →
    ∃ a o, v = Some a ∧ objects p !! a = Some o ∧ is_record o = true.

(** A slice lies within an allocated backing array. *)
Definition valid_slice (p : avroschema) (s : slice) : Prop :=
  ∃ cells, arrays p !! slice_array s = Some cells ∧ slice_len s ≤ length cells.

Definition slices_ok (p : avroschema) : Prop :=
  ∀ a o s, objects p !! a = Some o → slice_of o = Some s → valid_slice p s.

Definition wf (p : avroschema) : Prop := cache_ok p ∧ slices_ok p.

(** A field [GoType] has a Go type for in state [p]: its tag is one of
    the fifteen scalar tags, or it is the tag of a group, a message or an
    enum and the generator knows the type name. *)
Definition GoType_ok (p : avroschema) (f : FieldDescriptorProto) : Prop :=
  is_scalar (fd_Type f) = true ∨
  ((fd_Type f = TYPE_GROUP ∨ fd_Type f = TYPE_MESSAGE ∨ fd_Type f = TYPE_ENUM) ∧
   is_Some (g_objects p !! fd_TypeName f)).

(** A field [processField] classifies without failing in state [p]: a
    repeated field [GoType] has a type for; a scalar field; a message or a
    group field; an enum field whose type name the generator resolves to
    an enum. *)
Definition field_ok (p : avroschema) (f : FieldDescriptorProto) : Prop :=
  if fd_IsRepeated f then GoType_ok p f
  else
    is_scalar (fd_Type f) = true ∨
    fd_Type f = TYPE_MESSAGE ∨ fd_Type f = TYPE_GROUP ∨
    (fd_Type f = TYPE_ENUM ∧
     ∃ values, g_objects p !! fd_TypeName f = Some (EnumObject values)).

(** A non-repeated field of message type: the fields [getComplexField]
    resolves. *)
Definition is_message_field (f : FieldDescriptorProto) : bool :=
  negb (fd_IsRepeated f) && (fd_Type f =? TYPE_MESSAGE)%Z.

(** The key [getComplexField] looks a field's type up under. *)
Definition short_type_name (f : FieldDescriptorProto) : option string :=
  let splits := GoLib.Split (CamelCase (fd_TypeName f)) "." in
  splits !! (length splits - 1).

(** A field that misses a cache with the keys [D]: a non-repeated field of
    message type whose short type name is not among the keys. *)
Definition misses (D : gset string) (f : FieldDescriptorProto) : bool :=
  is_message_field f &&
  match short_type_name f with
  | Some t => bool_decide (t ∉ D)
  | None => false
  end.

(** The keys of the cache after the field [f] was classified, and after
    the fields [fields] were, one after the other: a miss binds the
    camel-cased name of the field, nothing else changes the keys. *)
Definition keys_step (D : gset string) (f : FieldDescriptorProto) : gset string :=
  if misses D f then D ∪ {[CamelCase (fd_Name f)]} else D.

Definition keys_after (D : gset string) (fields : list FieldDescriptorProto)
    : gset string :=
  foldl keys_step D fields.

(** The binding of the key [k] is still there after [fields] were
    classified, one after the other, from a cache with the keys [D]: none
    of them misses the cache and has [k] as its camel-cased name. *)
Fixpoint keeps (k : string) (D : gset string) (fields : list FieldDescriptorProto)
    : bool :=
  match fields with
  | [] => true
  | f :: rest =>
      negb (misses D f && bool_decide (CamelCase (fd_Name f) = k)) &&
      keeps k (keys_step D f) rest
  end.

(** ** The type mapper *)

(** C3: the type mapper sends int64, uint64, fixed64, sfixed64 and sint64
    to long, int32, uint32, fixed32, sfixed32 and sint32 to int, double to
    double, float to float, bool to boolean, string to string and bytes
    to bytes. *)
Theorem C3_type_mapper_table :
  getAvroTypeForProtobufType TYPE_INT64 = "long" ∧
  getAvroTypeForProtobufType TYPE_UINT64 = "long" ∧
  getAvroTypeForProtobufType TYPE_FIXED64 = "long" ∧
  getAvroTypeForProtobufType TYPE_SFIXED64 = "long" ∧
  getAvroTypeForProtobufType TYPE_SINT64 = "long" ∧
  getAvroTypeForProtobufType TYPE_INT32 = "int" ∧
  getAvroTypeForProtobufType TYPE_UINT32 = "int" ∧
  getAvroTypeForProtobufType TYPE_FIXED32 = "int" ∧
  getAvroTypeForProtobufType TYPE_SFIXED32 = "int" ∧
  getAvroTypeForProtobufType TYPE_SINT32 = "int" ∧
  getAvroTypeForProtobufType TYPE_DOUBLE = "double" ∧
  getAvroTypeForProtobufType TYPE_FLOAT = "float" ∧
  getAvroTypeForProtobufType TYPE_BOOL = "boolean" ∧
  getAvroTypeForProtobufType TYPE_STRING = "string" ∧
  getAvroTypeForProtobufType TYPE_BYTES = "bytes".
Proof. repeat split; reflexivity. Qed.

(** Outside the fifteen scalar tags the mapper takes its default branch. *)
Lemma getAvroType_default t :
  is_scalar t = false → getAvroTypeForProtobufType t = "nil".
Proof.
  unfold is_scalar, scalar_types; cbn [existsb]; intros H.
  repeat (apply orb_false_elim in H as [? H]).
  unfold getAvroTypeForProtobufType.
  repeat match goal with E : (t =? _)%Z = false |- _ => rewrite E; clear E end.
  reflexivity.
Qed.

(** ** Reasoning about a call *)

(** The outcome of [m] in state [p]: a result satisfying [Q], or an abort
    satisfying [E]. *)
Definition post {A} (m : M A) (p : avroschema)
    (Q : A → avroschema → Prop) (E : abort → Prop) : Prop :=
  match m p with
  | Ok (a, p') => Q a p'
  | Abort e => E e
  end.

Lemma post_bind {A B} (m : M A) (k : A → M B) p Q E :
  post m p (λ a p', post (k a) p' Q E) E → post (bind m k) p Q E.
Proof.
  unfold post, bind. destruct (m p) as [[a p']|e]; auto.
Qed.

Lemma post_mono {A} (m : M A) p (Q Q' : A → avroschema → Prop) (E E' : abort → Prop) :
  post m p Q E → (∀ a p', Q a p' → Q' a p') → (∀ e, E e → E' e) →
  post m p Q' E'.
Proof.
  unfold post. destruct (m p) as [[a p']|e]; auto.
Qed.

Lemma post_ok {A} (m : M A) p a p' (Q : A → avroschema → Prop) E :
  m p = Ok (a, p') → Q a p' → post m p Q E.
Proof. unfold post. intros ->. auto. Qed.

Lemma post_conj {A} (m : M A) p (Q1 Q2 : A → avroschema → Prop)
    (E1 E2 : abort → Prop) :
  post m p Q1 E1 → post m p Q2 E2 →
  post m p (λ a p', Q1 a p' ∧ Q2 a p') (λ ab, E1 ab ∧ E2 ab).
Proof. unfold post. destruct (m p) as [[a p']|ab]; auto. Qed.

Lemma post_total {A} (m : M A) p (Q : A → avroschema → Prop) :
  post m p Q (λ _, False) → ∃ a p', m p = Ok (a, p') ∧ Q a p'.
Proof.
  unfold post. destruct (m p) as [[a p']|e]; [eauto | tauto].
Qed.

(** ** Memory *)

Lemma slice_elems_Some p s l :
  slice_elems p s = Some l ↔
  ∃ cells, arrays p !! slice_array s = Some cells ∧
           slice_len s ≤ length cells ∧ l = take (slice_len s) cells.
Proof.
  unfold slice_elems. split.
  - destruct (arrays p !! slice_array s) as [cells|]; [|done].
    case_decide; [|done]. intros [= <-]. eauto.
  - intros (cells & -> & Hle & ->). by rewrite decide_True.
Qed.

Lemma slice_elems_length p s l :
  slice_elems p s = Some l → length l = slice_len s.
Proof.
  intros (cells & _ & Hle & ->)%slice_elems_Some.
  rewrite length_take. lia.
Qed.

Lemma valid_slice_elems p s : valid_slice p s ↔ is_Some (slice_elems p s).
Proof.
  split.
  - intros (cells & Hc & Hle). exists (take (slice_len s) cells).
    apply slice_elems_Some. eauto.
  - intros [l (cells & Hc & Hle & _)%slice_elems_Some]. exists cells. eauto.
Qed.

(** A slice [t] that later appends to the envelope at [e] leave alone:
    it is allocated and, on the array of the envelope's slice, no longer
    than that slice. *)
Definition stable (p : avroschema) (e : nat) (t : slice) : Prop :=
  is_Some (slice_elems p t) ∧
  ∀ n ns ty s, objects p !! e = Some (envelope n ns ty s) →
    slice_array t = slice_array s → slice_len t ≤ slice_len s.

(** [append] adds the element at the end and leaves every stable slice
    as it was. *)
Lemma append_spec s x p l :
  slice_elems p s = Some l →
  ∃ s' p',
    append s x p = Ok (s', p') ∧
    slice_elems p' s' = Some (l ++ [x]) ∧
    slice_len s' = S (slice_len s) ∧
    objects p' = objects p ∧ seen p' = seen p ∧
    g_objects p' = g_objects p ∧ fileName p' = fileName p ∧
    g_output p' = g_output p ∧
    length (arrays p) ≤ length (arrays p') ∧
    (∀ i cells, arrays p !! i = Some cells →
       ∃ cells', arrays p' !! i = Some cells' ∧ length cells' = length cells) ∧
    (∀ t, is_Some (slice_elems p t) →
       (slice_array t = slice_array s → slice_len t ≤ slice_len s) →
       slice_elems p' t = slice_elems p t) ∧
    (slice_array s' = slice_array s ∨ slice_array s' = length (arrays p)).
Proof.
  intros (cells & Hc & Hle & ->)%slice_elems_Some.
  unfold append, bind, get, modify, ret; cbn. rewrite Hc.
  case_decide as Hlt; cbn.
  - eexists _, _. split; [reflexivity|]. cbn.
    assert (Hi : slice_array s < length (arrays p))
      by (eapply lookup_lt_Some; eauto).
    repeat split; auto.
    + apply slice_elems_Some. cbn.
      exists (<[slice_len s := x]> cells). split.
      { by rewrite list_lookup_insert_eq. }
      rewrite length_insert. split; [lia|].
      rewrite (take_S_r _ _ x), take_insert_ge by
        (rewrite ?list_lookup_insert_eq; auto; lia).
      done.
    + rewrite length_insert. lia.
    + intros i cs Hi'. destruct (decide (i = slice_array s)) as [->|Hne].
      * rewrite list_lookup_insert_eq by done.
        eexists; split; [done|]. rewrite length_insert. congruence.
      * rewrite list_lookup_insert_ne by done. eauto.
    + intros t [lt (ct & Hct & Hlet & ->)%slice_elems_Some] Hbelow.
      unfold slice_elems; cbn.
      destruct (decide (slice_array t = slice_array s)) as [Heq|Hne].
      * rewrite Heq in *. rewrite list_lookup_insert_eq by done.
        assert (ct = cells) as -> by congruence. rewrite Hc.
        rewrite length_insert. specialize (Hbelow eq_refl).
        rewrite !decide_True by lia. by rewrite take_insert_ge by lia.
      * by rewrite list_lookup_insert_ne.
  - eexists _, _. split; [reflexivity|]. cbn.
    assert (Hlen : slice_len s = length cells) by lia.
    repeat split; auto.
    + apply slice_elems_Some. cbn. eexists. split.
      { rewrite lookup_app_r by done. by rewrite Nat.sub_diag. }
      rewrite length_app, length_take. cbn. split; [lia|].
      set (R := replicate _ _).
      replace (take (slice_len s) cells ++ x :: R)
        with ((take (slice_len s) cells ++ [x]) ++ R)
        by (by rewrite <- (assoc_L (++))).
      rewrite take_app_length'; [done|].
      rewrite length_app, length_take. cbn. lia.
    + rewrite length_app. lia.
    + intros i cs Hi'. exists cs. split; [|done].
      rewrite lookup_app_l; [done|]. by eapply lookup_lt_Some.
    + intros t [lt (ct & Hct & Hlet & ->)%slice_elems_Some] _.
      unfold slice_elems; cbn.
      rewrite lookup_app_l; [done|]. by eapply lookup_lt_Some.
Qed.


Lemma valid_slice_mono p p' t :
  (∀ i cells, arrays p !! i = Some cells →
     ∃ cells', arrays p' !! i = Some cells' ∧ length cells' = length cells) →
  valid_slice p t → valid_slice p' t.
Proof.
  intros Hlen (cells & Hc & Hle).
  destruct (Hlen _ _ Hc) as (cells' & Hc' & Hl). exists cells'.
  split; [done | lia].
Qed.

Lemma stable_valid p e t : stable p e t → slice_array t < length (arrays p).
Proof.
  intros [[l (cells & Hc & _)%slice_elems_Some] _].
  by eapply lookup_lt_Some.
Qed.

(** [e.fields = append(e.fields, fs)] extends the envelope's elements by
    [fs], keeps the well-formedness of the state and every stable slice. *)
Lemma append_field_spec e x p n ns ty s l :
  objects p !! e = Some (envelope n ns ty s) →
  slice_elems p s = Some l →
  ∃ s' p',
    append_field e x p = Ok (tt, p') ∧
    objects p' = <[e := envelope n ns ty s']> (objects p) ∧
    slice_elems p' s' = Some (l ++ [x]) ∧
    seen p' = seen p ∧ g_objects p' = g_objects p ∧
    fileName p' = fileName p ∧ g_output p' = g_output p ∧
    (wf p → wf p') ∧
    (∀ t, stable p e t → slice_elems p' t = slice_elems p t ∧ stable p' e t) ∧
    (arrays p !! slice_array s' = None ∨ slice_array s' = slice_array s) ∧
    slice_len s' = S (slice_len s) ∧
    (∀ t, is_Some (slice_elems p t) →
       (slice_array t = slice_array s → slice_len t ≤ slice_len s) →
       slice_elems p' t = slice_elems p t).
Proof.
  intros He Hl.
  destruct (append_spec s x p l Hl)
    as (s' & p1 & Hap & Hl' & Hlen' & Hobj & Hseen & Hg & Hfile & Hout &
        Harr & Hcells & Hkeep & Hwhere).
  assert (Hlt : e < length (objects p)) by (by eapply lookup_lt_Some).
  exists s', (set_objects (<[e := envelope n ns ty s']>) p1).
  split.
  { unfold append_field, bind, get; cbv beta iota. rewrite He; cbv beta iota.
    by rewrite Hap. }
  assert (Hse : ∀ t, slice_elems (set_objects (<[e := envelope n ns ty s']>) p1) t
                     = slice_elems p1 t) by done.
  assert (Hso : objects (set_objects (<[e := envelope n ns ty s']>) p1)
                = <[e := envelope n ns ty s']> (objects p))
    by (cbn; by rewrite Hobj).
  split_and!; try done.
  - intros [Hcache Hslices]. split.
    + intros k v Hk. cbn in Hk. rewrite Hseen in Hk.
      destruct (Hcache _ _ Hk) as (a & o & -> & Ha & Hrec).
      destruct (decide (a = e)) as [->|Hne].
      * eexists e, _. split; [done|]. cbn.
        rewrite Hobj, list_lookup_insert_eq by done. done.
      * exists a, o. rewrite Hso, list_lookup_insert_ne by done. done.
    + intros a o t Ha Ht. rewrite Hso in Ha.
      apply valid_slice_elems. rewrite Hse. apply valid_slice_elems.
      destruct (decide (a = e)) as [->|Hne].
      * rewrite list_lookup_insert_eq in Ha by done.
        injection Ha as <-. cbn in Ht. injection Ht as <-.
        apply valid_slice_elems. eauto.
      * rewrite list_lookup_insert_ne in Ha by done.
        eapply (valid_slice_mono p); [exact Hcells|]. eauto.
  - intros t Ht. pose proof Ht as [Hsome Hb]. rewrite !Hse.
    assert (Heq : slice_elems p1 t = slice_elems p t).
    { apply Hkeep; [done|]. intros Ha. eapply Hb; eauto. }
    split; [done|]. split.
    + by rewrite Hse, Heq.
    + rewrite Hso. intros n0 ns0 ty0 s0 He0 Harr0.
      rewrite list_lookup_insert_eq in He0 by done.
      injection He0 as <- <- <- <-.
      destruct Hwhere as [Hw|Hw].
      * specialize (Hb _ _ _ _ He). lia.
      * apply stable_valid in Ht. lia.
  - destruct Hwhere as [Hw|Hw]; [by right|left].
    rewrite Hw. by apply lookup_ge_None.
Qed.

Lemma Split_nonempty s sep : GoLib.Split s sep ≠ [].
Proof.
  induction s as [|c s IH]; cbn; [done|].
  destruct (Ascii.eqb c sep); [done|].
  by destruct (GoLib.Split s sep).
Qed.

(** Indexing the last piece of a split never goes out of range. *)
Lemma last_of_Split s sep p :
  ∃ x, last_of (GoLib.Split s sep) p = Ok (x, p) ∧
       GoLib.Split s sep !! (length (GoLib.Split s sep) - 1) = Some x.
Proof.
  pose proof (Split_nonempty s sep) as Hne.
  unfold last_of.
  destruct (GoLib.Split s sep !! (length (GoLib.Split s sep) - 1))
    as [x|] eqn:Hx; [by exists x|].
  apply lookup_ge_None in Hx.
  destruct (GoLib.Split s sep); [done | cbn in Hx; lia].
Qed.


(** ** Field classification *)

(** What [processField] may do to the state: allocate structs that are
    not envelopes and backing arrays; what was allocated stays as it is. *)
Definition grows (p p' : avroschema) : Prop :=
  g_objects p' = g_objects p ∧ fileName p' = fileName p ∧
  g_output p' = g_output p ∧
  (∃ new, objects p' = objects p ++ new ∧
          Forall (λ o, is_envelope o = false) new) ∧
  (∃ new, arrays p' = arrays p ++ new).

(** The result [r] and state [p'] of classifying field [f] in state [p]. *)
Definition classified (p : avroschema) (f : FieldDescriptorProto)
    (r : avroField * error) (p' : avroschema) : Prop :=
  r.2 = None ∧ wf p' ∧ grows p p' ∧
  (seen p' = seen p ∨
   ∃ a, is_message_field f = true ∧
        seen p' = <[CamelCase (fd_Name f) := Some a]> (seen p)) ∧
  (is_message_field f = true →
   ∃ a fn tn t, r.1 = Some a ∧ objects p' !! a = Some (complexField fn tn t)) ∧
  (is_message_field f = true →
   ∀ k e n ns ty s,
     short_type_name f = Some k → seen p !! k = Some (Some e) →
     objects p !! e = Some (envelope n ns ty s) →
     r.1 = Some (length (objects p)) ∧
     objects p' = objects p ++ [complexField (CamelCase (fd_Name f)) k s] ∧
     seen p' = seen p ∧ arrays p' = arrays p) ∧
  (fd_IsRepeated f = false → fd_Type f = TYPE_GROUP → r.1 = None ∧ p' = p).

Lemma wf_extend p p' :
  wf p →
  (∀ a o, objects p !! a = Some o → objects p' !! a = Some o) →
  (∀ i c, arrays p !! i = Some c → arrays p' !! i = Some c) →
  (∀ k v, seen p' !! k = Some v →
     seen p !! k = Some v ∨
     ∃ a o, v = Some a ∧ objects p' !! a = Some o ∧ is_record o = true) →
  (∀ a o s, objects p' !! a = Some o → slice_of o = Some s →
     objects p !! a = Some o ∨ valid_slice p' s) →
  wf p'.
Proof.
  intros [Hcache Hslices] Hobj Harr Hseen Hnew. split.
  - intros k v Hk. destruct (Hseen _ _ Hk) as [Hold|Hn]; [|done].
    destruct (Hcache _ _ Hold) as (a & o & -> & Ha & Hr). eauto 6.
  - intros a o s Ha Hs. destruct (Hnew _ _ _ Ha Hs) as [Hold|Hv]; [|done].
    destruct (Hslices _ _ _ Hold Hs) as (c & Hc & Hle). exists c. eauto.
Qed.

Lemma is_message_field_true f :
  is_message_field f = true ↔
  fd_IsRepeated f = false ∧ fd_Type f = TYPE_MESSAGE.
Proof.
  unfold is_message_field. rewrite andb_true_iff, negb_true_iff, Z.eqb_eq.
  done.
Qed.

Lemma lookup_snoc_new {A} (l : list A) (x : A) : (l ++ [x]) !! length l = Some x.
Proof. by rewrite lookup_app_r, Nat.sub_diag. Qed.

Lemma lookup_snoc_old {A} (l : list A) (x y : A) a :
  l !! a = Some y → (l ++ [x]) !! a = Some y.
Proof. intros H. rewrite lookup_app_l; [done|]. by eapply lookup_lt_Some. Qed.

Lemma lookup_snoc_inv {A} (l : list A) (x y : A) a :
  (l ++ [x]) !! a = Some y → l !! a = Some y ∨ (a = length l ∧ y = x).
Proof.
  intros H. destruct (decide (a < length l)).
  - rewrite lookup_app_l in H by done. auto.
  - rewrite lookup_app_r in H by lia.
    destruct (a - length l) as [|k] eqn:Hk; cbn in H; [|done].
    injection H as <-. right. split; [lia | done].
Qed.

(** Allocating a struct without a slice of its own keeps the state
    well-formed. *)
Lemma wf_alloc_plain p o :
  wf p → slice_of o = None → wf (set_objects (λ os, os ++ [o]) p).
Proof.
  intros Hwf Ho. apply (wf_extend p); auto; cbn.
  - intros a o' Ha. by apply lookup_snoc_old.
  - intros a o' s Ha Hs. apply lookup_snoc_inv in Ha as [Ha|[-> ->]]; [auto|].
    congruence.
Qed.

Arguments getAvroTypeForProtobufType : simpl never.
Arguments GoLib.Split : simpl never.
Arguments GoLib.Join : simpl never.

Lemma grows_alloc p o :
  is_envelope o = false → grows p (set_objects (λ os, os ++ [o]) p).
Proof.
  intros Ho. repeat split; cbn; [exists [o] | exists []].
  - split; [done|]. by constructor.
  - by rewrite app_nil_r.
Qed.

Lemma grows_refl p : grows p p.
Proof.
  repeat split; exists []; rewrite app_nil_r; [split|]; done.
Qed.

Lemma panic_not_unexpected_1 : Panic interface_conversion ≠ Panic unexpected_cached.
Proof. discriminate. Qed.

(** How [GoType], and with it [GetFieldName], ends the run on a field it
    has no Go type for: in [ObjectNamed] when the tag is that of a group,
    a message or an enum, and in its default case otherwise. *)
Definition GoType_abort (f : FieldDescriptorProto) : abort :=
  if (fd_Type f =? TYPE_GROUP)%Z || (fd_Type f =? TYPE_MESSAGE)%Z
     || (fd_Type f =? TYPE_ENUM)%Z
  then Exit (GoLib.Join ["can't find object with type"; fd_TypeName f] " ")
  else Exit (GoLib.Join ["unknown type for"; fd_Name f] " ").

Lemma named_type_tag t :
  (t =? TYPE_GROUP)%Z || (t =? TYPE_MESSAGE)%Z || (t =? TYPE_ENUM)%Z = true ↔
  t = TYPE_GROUP ∨ t = TYPE_MESSAGE ∨ t = TYPE_ENUM.
Proof. rewrite !orb_true_iff, !Z.eqb_eq. tauto. Qed.

Lemma named_type_not_scalar t :
  t = TYPE_GROUP ∨ t = TYPE_MESSAGE ∨ t = TYPE_ENUM → is_scalar t = false.
Proof. by intros [-> | [-> | ->]]. Qed.

(** [GetFieldName] returns the name, and leaves the state as it is, on
    the fields [GoType] has a type for; on the others it ends the run. *)
Lemma GetFieldName_cases m f p :
  (GoType_ok p f ∧ GetFieldName m f p = Ok (fieldName m f, p)) ∨
  (¬ GoType_ok p f ∧ GetFieldName m f p = Abort (GoType_abort f)).
Proof.
  unfold GetFieldName, GoType, GoType_abort, GoType_ok, bind.
  destruct (is_scalar (fd_Type f)) eqn:Hsc; [left; by split; [left|]|].
  destruct ((fd_Type f =? TYPE_GROUP)%Z || (fd_Type f =? TYPE_MESSAGE)%Z
            || (fd_Type f =? TYPE_ENUM)%Z) eqn:Hnamed.
  - apply named_type_tag in Hnamed. unfold ObjectNamed, bind, get, Fail, throw.
    destruct (g_objects p !! fd_TypeName f) as [o|] eqn:Ho.
    + left. split; [right; eauto|done].
    + right. split; [|done]. intros [?|[_ [? ?]]]; congruence.
  - right. split; [|done]. intros [?|[Ht _]]; [congruence|].
    apply named_type_tag in Ht. congruence.
Qed.

Lemma GetFieldName_ok m f p :
  GoType_ok p f → GetFieldName m f p = Ok (fieldName m f, p).
Proof. by destruct (GetFieldName_cases m f p) as [[_ ?]|[? _]]. Qed.

Lemma GoType_abort_go f :
  GoType_abort f ≠ Stuck ∧ GoType_abort f ≠ Panic unexpected_cached.
Proof. unfold GoType_abort. by destruct (_ || _). Qed.

(** [processField] on a well-formed state: it returns a node, no error
    and a well-formed state, or aborts on a field that is not acceptable;
    it never reads unallocated memory and never finds an unexpected shape
    in the cache. *)
Lemma processField_spec m f p :
  wf p →
  post (processField m f) p (classified p f)
    (λ ab, ab ≠ Stuck ∧ ab ≠ Panic unexpected_cached ∧ ¬ field_ok p f).
Proof.
  intros Hwf. unfold processField.
  destruct (fd_IsRepeated f) eqn:Hrep.
  { unfold post, as_avroField, getArrayField, bind at 1 2.
    destruct (GetFieldName_cases m f p) as [[_ ->]|[Hno ->]].
    2:{ destruct (GoType_abort_go f). unfold field_ok. by rewrite Hrep. }
    unfold bind, alloc, ret; cbn.
    split_and!; try done.
    - by apply wf_alloc_plain.
    - by apply grows_alloc.
    - by left.
    - intros [? _]%is_message_field_true. congruence.
    - intros [? _]%is_message_field_true. congruence.
    - intros. congruence. }
  destruct (is_scalar (fd_Type f)) eqn:Hsc.
  { unfold post, as_avroField, getSimpleAvroField, bind at 1 2.
    rewrite (GetFieldName_ok m f p) by (by left).
    unfold bind, alloc, ret; cbn.
    split_and!; try done.
    - by apply wf_alloc_plain.
    - by apply grows_alloc.
    - by left.
    - intros [_ Ht]%is_message_field_true. by rewrite Ht in Hsc.
    - intros [_ Ht]%is_message_field_true. by rewrite Ht in Hsc.
    - intros _ Ht. by rewrite Ht in Hsc. }
  destruct (fd_Type f =? TYPE_MESSAGE)%Z eqn:Hmsg.
  { apply Z.eqb_eq in Hmsg.
    destruct (last_of_Split (CamelCase (fd_TypeName f)) "." p)
      as (tn & Hlast & Htn).
    unfold post, as_avroField, getComplexField, bind, get; cbv beta iota.
    rewrite Hlast; cbv beta iota.
    destruct (seen p !! tn) as [cached|] eqn:Hseen.
    - destruct Hwf as [Hcache Hslices].
      destruct (Hcache _ _ Hseen) as (a & o & -> & Ha & Hrec).
      rewrite Ha. destruct o as [n ns ty s| |fn tn' s| |]; try done.
      + (* the cached envelope is wrapped *)
        unfold alloc, ret; cbn.
        assert (Hv : valid_slice p s) by (eapply Hslices; eauto).
        split_and!; try done.
        * apply (wf_extend p); auto; cbn; [done| |].
          -- intros a' o' Ha'. by apply lookup_snoc_old.
          -- intros a' o' s' Ha' Hs'.
             apply lookup_snoc_inv in Ha' as [Ha'|[-> ->]]; [auto|].
             cbn in Hs'. injection Hs' as <-. right. exact Hv.
        * by apply grows_alloc.
        * by left.
        * intros _. eexists _, _, _, _. split; [done|]. apply lookup_snoc_new.
        * intros _ k e n' ns' ty' s' Hk Hke He.
          unfold short_type_name in Hk. assert (k = tn) as -> by congruence.
          assert (e = a) as -> by congruence.
          assert (s' = s) as -> by congruence. done.
        * intros _ Ht. by rewrite Ht in Hmsg.
      + (* the cached complexField is handed back *)
        unfold ret; cbn. split_and!; try done.
        * apply grows_refl.
        * by left.
        * intros _. eauto 6.
        * intros _ k e n' ns' ty' s' Hk Hke He.
          unfold short_type_name in Hk. assert (k = tn) as -> by congruence.
          assert (e = a) as -> by congruence. congruence.
        * intros _ Ht. by rewrite Ht in Hmsg.
    - (* a miss: a new complexField goes into the cache *)
      unfold make_slice, alloc, modify, ret; cbn.
      split_and!; try done.
      + apply (wf_extend p); auto; cbn.
        * intros a' o' Ha'. by apply lookup_snoc_old.
        * intros i c Hi. by apply lookup_snoc_old.
        * intros k v Hk. apply lookup_insert_Some in Hk as [[<- <-]|[_ Hk]].
          -- right.
             eexists _, _. split; [done|]. split; [apply lookup_snoc_new|done].
          -- auto.
        * intros a' o' s' Ha' Hs'.
          apply lookup_snoc_inv in Ha' as [Ha'|[-> ->]]; [auto|].
          cbn in Hs'. injection Hs' as <-. right.
          exists []. cbn. split; [apply lookup_snoc_new | lia].
      + repeat split; cbn; eexists; split; try done. by constructor.
      + right. eexists. split; [|done].
        apply is_message_field_true. done.
      + intros _. eexists _, _, _, _. split; [done|]. apply lookup_snoc_new.
      + intros _ k e n' ns' ty' s' Hk Hke He.
        unfold short_type_name in Hk. assert (k = tn) as -> by congruence.
        congruence.
      + intros _ Ht. by rewrite Ht in Hmsg. }
  destruct (fd_Type f =? TYPE_ENUM)%Z eqn:Henum.
  { apply Z.eqb_eq in Henum.
    assert (Hnok : (¬ ∃ values, g_objects p !! fd_TypeName f = Some (EnumObject values))
                   → ¬ field_ok p f).
    { intros Hno. unfold field_ok. rewrite Hrep.
      intros [?|[?|[?|[_ ?]]]]; try congruence.
      all: by rewrite Henum in *. }
    unfold post, as_avroField, getEnumField, ObjectNamed, bind, get;
      cbv beta iota.
    destruct (g_objects p !! fd_TypeName f) as [[|values]|] eqn:Hobj;
      cbv beta iota.
    - unfold ret, throw. split_and!; [done|apply panic_not_unexpected_1|].
      apply Hnok. by intros [? ?].
    - destruct (last_of_Split (fd_TypeName f) "." p) as (tn & Hlast & Htn).
      unfold ret; cbv beta iota. rewrite Hlast; cbv beta iota.
      unfold alloc; cbn. split_and!; try done.
      + by apply wf_alloc_plain.
      + by apply grows_alloc.
      + by left.
      + intros [_ Ht]%is_message_field_true. by rewrite Ht in Hmsg.
      + intros [_ Ht]%is_message_field_true. by rewrite Ht in Hmsg.
      + intros _ Ht. by rewrite Ht in Henum.
    - unfold Fail, throw. split_and!; [done|done|].
      apply Hnok. by intros [? ?]. }
  destruct (fd_Type f =? TYPE_GROUP)%Z eqn:Hgroup.
  { unfold post, ret. split_and!; try done.
    - apply grows_refl.
    - by left.
    - intros [_ Ht]%is_message_field_true. by rewrite Ht in Hmsg.
    - intros [_ Ht]%is_message_field_true. by rewrite Ht in Hmsg. }
  unfold post, Fail, bind, throw. split_and!; [done|done|].
  unfold field_ok. rewrite Hrep.
  intros [?|[Ht|[Ht|[Ht _]]]]; try congruence.
  all: by rewrite Ht in *.
Qed.


(** ** Record assembly *)

(** The loop rule: an invariant over the fields done so far that every
    pass of the loop body keeps holds for all fields at the end. *)
Lemma processFields_rule m e (Inv : list FieldDescriptorProto → avroschema → Prop)
    (E : abort → Prop) fields :
  (∀ done f rest p, fields = done ++ f :: rest → Inv done p →
     post (assemble_field m e f) p (λ _ p', Inv (done ++ [f]) p') E) →
  ∀ p, Inv [] p → post (processFields m e fields) p (λ _ p', Inv fields p') E.
Proof.
  intros Hstep.
  enough (Hgen : ∀ rest done p, fields = done ++ rest → Inv done p →
            post (processFields m e rest) p (λ _ p', Inv fields p') E).
  { intros p Hp. by apply (Hgen fields []). }
  induction rest as [|f rest IH]; intros done p Hfields Hinv.
  - rewrite app_nil_r in Hfields. subst done. exact Hinv.
  - cbn [processFields]. apply post_bind.
    eapply post_mono; [by eapply Hstep| |done].
    intros u p' Hinv'. cbv beta. apply (IH (done ++ [f])); [|done].
    by rewrite <- (assoc_L (++)).
Qed.

Lemma stable_own p e n ns ty s l :
  objects p !! e = Some (envelope n ns ty s) → slice_elems p s = Some l →
  stable p e s.
Proof.
  intros He Hl. split; [eauto|].
  intros n' ns' ty' s' He' _. assert (s' = s) as -> by congruence. done.
Qed.

Lemma grows_lookup p p' a o :
  grows p p' → objects p !! a = Some o → objects p' !! a = Some o.
Proof.
  intros (_ & _ & _ & (new & -> & _) & _) Ha.
  rewrite lookup_app_l; [done|]. by eapply lookup_lt_Some.
Qed.

Lemma grows_slice_elems p p' t :
  grows p p' → is_Some (slice_elems p t) → slice_elems p' t = slice_elems p t.
Proof.
  intros (_ & _ & _ & _ & (new & Hnew)) [l (c & Hc & _)%slice_elems_Some].
  unfold slice_elems. rewrite Hnew, lookup_app_l; [done|].
  by eapply lookup_lt_Some.
Qed.

Lemma grows_stable p p' e t :
  grows p p' → e < length (objects p) → stable p e t → stable p' e t.
Proof.
  intros Hg He [Hsome Hb]. split.
  - by rewrite (grows_slice_elems p p').
  - intros n ns ty s He'. apply (Hb n ns ty).
    destruct Hg as (_ & _ & _ & (new & Hnew & _) & _).
    by rewrite Hnew, lookup_app_l in He'.
Qed.

Lemma grows_new_not_envelope p p' a o :
  grows p p' → objects p' !! a = Some o → is_envelope o = true →
  objects p !! a = Some o.
Proof.
  intros (_ & _ & _ & (new & Hnew & Hall) & _) Ha Ho.
  rewrite Hnew in Ha. destruct (decide (a < length (objects p))).
  - by rewrite lookup_app_l in Ha.
  - rewrite lookup_app_r in Ha by lia.
    rewrite Forall_lookup in Hall. apply Hall in Ha. congruence.
Qed.

(** One pass of the loop body in a well-formed state where the envelope
    at [e] holds the elements [l]. *)
Definition assembled_one (p : avroschema) (e : nat) (f : FieldDescriptorProto)
    (n ns ty : string) (s : slice) (l : list avroField)
    (p' : avroschema) : Prop :=
  ∃ x s',
    wf p' ∧ objects p' !! e = Some (envelope n ns ty s') ∧
    slice_elems p' s' = Some (l ++ [x]) ∧
    g_objects p' = g_objects p ∧ fileName p' = fileName p ∧
    g_output p' = g_output p ∧
    (seen p' = seen p ∨
     ∃ a, is_message_field f = true ∧
          seen p' = <[CamelCase (fd_Name f) := Some a]> (seen p)) ∧
    (∀ t, stable p e t → slice_elems p' t = slice_elems p t ∧ stable p' e t) ∧
    (∀ a o, objects p !! a = Some o → a ≠ e → objects p' !! a = Some o) ∧
    (∀ a o, objects p' !! a = Some o → a ≠ e → is_envelope o = true →
       objects p !! a = Some o) ∧
    (is_message_field f = true →
     ∃ a fn tn t, x = Some a ∧ a ≠ e ∧
                  objects p' !! a = Some (complexField fn tn t)) ∧
    (is_message_field f = true →
     ∀ k, short_type_name f = Some k → seen p !! k = Some (Some e) →
     ∃ a, x = Some a ∧ a ≠ e ∧
          objects p' !! a = Some (complexField (CamelCase (fd_Name f)) k s)) ∧
    (fd_IsRepeated f = false → fd_Type f = TYPE_GROUP → x = None).

Lemma assemble_field_spec m e f p n ns ty s l :
  wf p → objects p !! e = Some (envelope n ns ty s) →
  slice_elems p s = Some l →
  post (assemble_field m e f) p (λ _ p', assembled_one p e f n ns ty s l p')
    (λ ab, ab ≠ Stuck ∧ ab ≠ Panic unexpected_cached ∧ ¬ field_ok p f).
Proof.
  intros Hwf He Hl. unfold assemble_field. apply post_bind.
  eapply post_mono; [by apply processField_spec| |done].
  intros [x err] p1 (Herr & Hwf1 & Hg & Hseen & Hmsg & Hsnap & Hgroup).
  cbn in Herr. subst err. cbn [fst snd] in *.
  assert (He1 : objects p1 !! e = Some (envelope n ns ty s))
    by (by eapply grows_lookup).
  assert (Hlt : e < length (objects p)) by (by eapply lookup_lt_Some).
  assert (Hl1 : slice_elems p1 s = Some l)
    by (rewrite (grows_slice_elems p p1); eauto).
  destruct (append_field_spec e x p1 n ns ty s l He1 Hl1)
    as (s' & p2 & Hap & Hobj2 & Hl2 & Hseen2 & Hg2 & Hf2 & Ho2 & Hwf2 & Hst2 & _).
  eapply post_ok; [exact Hap|].
  assert (Hkeep : ∀ a o, objects p1 !! a = Some o → a ≠ e →
                         objects p2 !! a = Some o).
  { intros a o Ha Hne. by rewrite Hobj2, list_lookup_insert_ne. }
  pose proof Hg as (Hg1 & Hf1 & Ho1 & _ & _).
  exists x, s'. split_and!; auto.
  - rewrite Hobj2. apply list_lookup_insert_eq. by eapply lookup_lt_Some.
  - congruence.
  - congruence.
  - congruence.
  - rewrite Hseen2. exact Hseen.
  - intros t Ht.
    assert (Ht1 : stable p1 e t) by (by eapply grows_stable).
    destruct (Hst2 t Ht1) as [Heq Ht2]. split; [|done].
    rewrite Heq. apply grows_slice_elems; [done|]. by destruct Ht.
  - intros a o Ha Hne. apply Hkeep; [|done]. by eapply grows_lookup.
  - intros a o Ha Hne Henv. rewrite Hobj2, list_lookup_insert_ne in Ha by done.
    by eapply grows_new_not_envelope.
  - intros Hf. destruct (Hmsg Hf) as (a & fn & tn & t & -> & Ha).
    assert (a ≠ e) by congruence. eauto 10.
  - intros Hf k Hk Hke.
    destruct (Hsnap Hf k e n ns ty s Hk Hke He) as (-> & Hobj1 & _ & _).
    exists (length (objects p)). split; [done|]. split; [lia|].
    apply Hkeep; [|lia]. rewrite Hobj1. apply lookup_snoc_new.
  - intros Hr Ht. by destruct (Hgroup Hr Ht).
Qed.


(** What the node [x] appended for field [f] is, in a state [p] where the
    envelope at [e] was registered under [key] in a cache with the keys
    [D]; [before] are the fields classified before [f] and [elems_before]
    the nodes appended for them. *)
Definition field_node (p : avroschema) (e : nat) (key : string)
    (D : gset string)
    (before : list FieldDescriptorProto) (f : FieldDescriptorProto)
    (x : avroField) (elems_before : list avroField) : Prop :=
  (is_message_field f = true →
   ∃ a fn tn t, x = Some a ∧ a ≠ e ∧
                objects p !! a = Some (complexField fn tn t)) ∧
  (is_message_field f = true → short_type_name f = Some key →
   keeps key D before = true →
   ∃ a t, x = Some a ∧ a ≠ e ∧
          objects p !! a = Some (complexField (CamelCase (fd_Name f)) key t) ∧
          stable p e t ∧ slice_elems p t = Some elems_before) ∧
  (fd_IsRepeated f = false → fd_Type f = TYPE_GROUP → x = None).

(** The state [p] of the loop in [processMessage] after the fields [done],
    started in [p0] with the envelope at [e] registered under [key]. *)
Definition assembling (p0 : avroschema) (e : nat) (key n ns ty : string)
    (done : list FieldDescriptorProto) (p : avroschema) : Prop :=
  wf p ∧ g_objects p = g_objects p0 ∧ fileName p = fileName p0 ∧
  g_output p = g_output p0 ∧
  (∀ a o, objects p0 !! a = Some o → a ≠ e → objects p !! a = Some o) ∧
  (∀ a o, objects p !! a = Some o → a ≠ e → is_envelope o = true →
     objects p0 !! a = Some o) ∧
  (dom (seen p) = keys_after (dom (seen p0)) done ∧
   (keeps key (dom (seen p0)) done = true → seen p !! key = Some (Some e))) ∧
  ∃ s l,
    objects p !! e = Some (envelope n ns ty s) ∧
    slice_elems p s = Some l ∧ length l = length done ∧
    ∀ i f x, done !! i = Some f → l !! i = Some x →
      field_node p e key (dom (seen p0)) (take i done) f x (take i l).

Lemma keys_after_snoc D fields f :
  keys_after D (fields ++ [f]) = keys_step (keys_after D fields) f.
Proof. unfold keys_after. by rewrite foldl_app. Qed.

Lemma keeps_snoc k D fields f :
  keeps k (D) (fields ++ [f]) =
  keeps k D fields &&
  negb (misses (keys_after D fields) f && bool_decide (CamelCase (fd_Name f) = k)).
Proof.
  revert D. induction fields as [|f' fields IH]; intros D; cbn.
  - by rewrite andb_true_r.
  - by rewrite IH, andb_assoc.
Qed.

(** The names of earlier fields that differ from [k] keep it bound,
    whatever the fields hit or miss. *)
Lemma names_keep k D fields :
  (∀ f, f ∈ fields → is_message_field f = true → CamelCase (fd_Name f) ≠ k) →
  keeps k D fields = true.
Proof.
  revert D. induction fields as [|f fields IH]; intros D Hnames; [done|].
  cbn. rewrite IH by (intros f' Hf'; apply Hnames; by right).
  rewrite andb_true_r. apply negb_true_iff, not_true_is_false.
  intros [[Hf _]%andb_true_iff Hk%bool_decide_eq_true]%andb_true_iff.
  by apply (Hnames f); [left|..].
Qed.

(** What [processField] does to the cache: on a miss it binds the
    camel-cased name of the field to the node it returns; otherwise it
    leaves the cache as it is. *)
Lemma processField_seen m f p :
  post (processField m f) p
    (λ r p', if misses (dom (seen p)) f
             then seen p' = <[CamelCase (fd_Name f) := r.1]> (seen p)
             else seen p' = seen p)
    (λ _, True).
Proof.
  unfold post, processField, misses, is_message_field.
  destruct (fd_IsRepeated f); cbn [negb andb].
  { unfold as_avroField, getArrayField, bind at 1 2.
    by destruct (GetFieldName_cases m f p) as [[_ ->]|[_ ->]]. }
  destruct (fd_Type f =? TYPE_MESSAGE)%Z eqn:Hmsg.
  { apply Z.eqb_eq in Hmsg. rewrite Hmsg. cbn [is_scalar existsb].
    change (is_scalar TYPE_MESSAGE) with false. cbv iota.
    destruct (last_of_Split (CamelCase (fd_TypeName f)) "." p)
      as (tn & Hlast & Htn).
    unfold short_type_name. rewrite Htn.
    unfold as_avroField, getComplexField, bind, get; cbv beta iota.
    rewrite Hlast; cbv beta iota.
    destruct (seen p !! tn) as [cached|] eqn:Hseen.
    - rewrite bool_decide_eq_false_2
        by (intros Hno; apply Hno, elem_of_dom; eauto).
      destruct cached as [a|]; [|done].
      destruct (objects p !! a) as [[| | | |]|]; done.
    - rewrite bool_decide_eq_true_2 by (by apply not_elem_of_dom).
      done. }
  destruct (is_scalar (fd_Type f)).
  { unfold as_avroField, getSimpleAvroField, bind at 1 2.
    by destruct (GetFieldName_cases m f p) as [[_ ->]|[_ ->]]. }
  destruct (fd_Type f =? TYPE_ENUM)%Z.
  { unfold as_avroField, getEnumField, ObjectNamed, bind, get; cbv beta iota.
    destruct (g_objects p !! fd_TypeName f) as [[|values]|]; try done.
    destruct (last_of_Split (fd_TypeName f) "." p) as (tn & Hlast & _).
    unfold ret at 1; cbv beta iota. by rewrite Hlast. }
  destruct (fd_Type f =? TYPE_GROUP)%Z; done.
Qed.

Lemma append_field_seen e x p :
  post (append_field e x) p (λ _ p', seen p' = seen p) (λ _, True).
Proof.
  unfold post, append_field, bind at 1, get.
  destruct (objects p !! e) as [[n ns ty s| | | |]|]; try done.
  unfold bind, append, get, bind, modify, ret.
  destruct (arrays p !! slice_array s) as [cells|]; [|done].
  by destruct (decide _).
Qed.

Lemma assemble_field_seen m e f p :
  post (assemble_field m e f) p
    (λ _ p', if misses (dom (seen p)) f
             then ∃ x, seen p' = <[CamelCase (fd_Name f) := x]> (seen p)
             else seen p' = seen p)
    (λ _, True).
Proof.
  unfold assemble_field. apply post_bind.
  eapply post_mono; [apply processField_seen| |done].
  intros [x [err|]] p1 Hstep; [done|]. cbn [fst snd] in *.
  eapply post_mono; [apply append_field_seen| |done].
  intros u p2 ->. destruct (misses _ f); [eauto|done].
Qed.

Lemma field_ok_g p p' f :
  g_objects p' = g_objects p → field_ok p f → field_ok p' f.
Proof. unfold field_ok, GoType_ok. intros ->. done. Qed.

Lemma field_node_keep p p' e key D before f x elems :
  (∀ a o, objects p !! a = Some o → a ≠ e → objects p' !! a = Some o) →
  (∀ t, stable p e t → slice_elems p' t = slice_elems p t ∧ stable p' e t) →
  field_node p e key D before f x elems →
  field_node p' e key D before f x elems.
Proof.
  intros Hobj Hst (H1 & H2 & H3). split_and!; [| |done].
  - intros Hf. destruct (H1 Hf) as (a & fn & tn & t & -> & Hne & Ha).
    eauto 10.
  - intros Hf Hk Hb. destruct (H2 Hf Hk Hb) as (a & t & -> & Hne & Ha & Ht & Hl).
    destruct (Hst t Ht) as [Heq Ht']. exists a, t.
    split_and!; auto. congruence.
Qed.

Lemma processFields_spec m e key n ns ty fields p0 :
  assembling p0 e key n ns ty [] p0 →
  post (processFields m e fields) p0
    (λ _ p', assembling p0 e key n ns ty fields p')
    (λ ab, ab ≠ Stuck ∧ ab ≠ Panic unexpected_cached ∧
           ¬ Forall (field_ok p0) fields).
Proof.
  apply processFields_rule.
  intros done f rest p Hfields
    (Hwf & Hg & Hfile & Hout & Hold & Henv & [Hdom Hseen] & s & l & He & Hl &
     Hlen & Hnodes).
  eapply post_mono;
    [apply post_conj; [by eapply assemble_field_spec
                      |apply (assemble_field_seen m e f p)]| |].
  2:{ intros ab ((? & ? & Hnok) & _). split_and!; [done..|].
      intros Hall. apply Hnok. apply (field_ok_g p0); [done|].
      rewrite Forall_forall in Hall. apply Hall. rewrite Hfields.
      rewrite elem_of_app, elem_of_cons. auto. }
  intros _ p' ((x & s' & Hwf' & He' & Hl' & Hg' & Hfile' & Hout' & _ &
                Hst & Hkeep & Hnoenv & Hmsg & Hsnap & Hgroup) & Hstep).
  rewrite Hdom in Hstep.
  split_and!; [done|congruence..| | | | |].
  - intros a o Ha Hne. apply Hkeep; auto.
  - intros a o Ha Hne Ho. apply Henv; auto.
  - rewrite keys_after_snoc. unfold keys_step.
    destruct (misses _ f); [|congruence].
    destruct Hstep as [y ->]. rewrite dom_insert_L, Hdom.
    by rewrite (comm_L (∪)).
  - rewrite keeps_snoc. intros [Hnames Hf]%andb_true_iff.
    specialize (Hseen Hnames). apply negb_true_iff in Hf.
    destruct (misses _ f); [|congruence].
    destruct Hstep as [y ->]. cbn in Hf.
    apply bool_decide_eq_false in Hf. by rewrite lookup_insert_ne.
  - exists s', (l ++ [x]). split_and!; [done|done| |].
    { rewrite !length_app. cbn. lia. }
    intros i f0 x0 Hi Hxi.
    destruct (decide (i < length done)) as [Hlt|Hge].
    + rewrite lookup_app_l in Hi by done.
      rewrite lookup_app_l in Hxi by lia.
      rewrite take_app_le by lia. rewrite take_app_le by lia.
      eapply field_node_keep; eauto.
    + assert (i = length done) as ->.
      { apply lookup_lt_Some in Hi. rewrite length_app in Hi. cbn in Hi. lia. }
      rewrite lookup_snoc_new in Hi. injection Hi as <-.
      rewrite <- Hlen in Hxi. rewrite lookup_snoc_new in Hxi.
      injection Hxi as <-.
      rewrite take_app_length. rewrite <- Hlen, take_app_length.
      split_and!; [done| |done].
      intros Hf Hk Hnames.
      destruct (Hsnap Hf key Hk (Hseen Hnames)) as (a & -> & Hne & Ha).
      exists a, s. split_and!; [done..| |].
      * apply Hst. by eapply stable_own.
      * destruct (Hst s) as [-> _]; [by eapply stable_own | done].
Qed.

(** The state in which [processMessage] starts its loop: the empty
    envelope is allocated and registered under the message's name. *)
Definition registered (m : Descriptor) (p : avroschema) : avroschema :=
  set_seen (<[CamelCaseSlice (msg_TypeName m) := Some (length (objects p))]>)
    (set_objects
       (λ os, os ++ [envelope (CamelCaseSlice (msg_TypeName m)) (fileName p)
                       "record" (Slice (length (arrays p)) 0)])
       (set_arrays (λ bs, bs ++ [[]]) p)).

Lemma processMessage_unfold m p :
  processMessage m p =
  match processFields m (length (objects p)) (msg_Field m) (registered m p) with
  | Ok (_, p') => Ok (length (objects p), p')
  | Abort ab => Abort ab
  end.
Proof.
  unfold processMessage, bind, get, make_slice, alloc, modify, ret; cbn.
  fold (registered m p).
  by destruct (processFields _ _ _ _) as [[[] p']|ab].
Qed.

Lemma registered_assembling m p :
  wf p →
  assembling (registered m p) (length (objects p))
    (CamelCaseSlice (msg_TypeName m))
    (CamelCaseSlice (msg_TypeName m)) (fileName p) "record" [] (registered m p).
Proof.
  intros Hwf. split_and!; try done.
  - apply (wf_extend p); auto; cbn.
    + intros a o Ha. by apply lookup_snoc_old.
    + intros i c Hi. by apply lookup_snoc_old.
    + intros k v Hk. apply lookup_insert_Some in Hk as [[<- <-]|[_ Hk]]; [|auto].
      right. eexists _, _. split; [done|]. split; [apply lookup_snoc_new|done].
    + intros a o s Ha Hs.
      apply lookup_snoc_inv in Ha as [Ha|[-> ->]]; [auto|].
      cbn in Hs. injection Hs as <-. right.
      exists []. cbn. split; [apply lookup_snoc_new | lia].
  - intros _. cbn. apply lookup_insert_eq.
  - exists (Slice (length (arrays p)) 0), []. split_and!; try done.
    + cbn. apply lookup_snoc_new.
    + apply slice_elems_Some. exists []. cbn.
      split; [apply lookup_snoc_new | done].
Qed.

(** [processMessage] on a well-formed state: it returns the address of the
    new envelope in a state as [assembling] describes it, or aborts on a
    field that is not acceptable. *)
Lemma processMessage_spec m p :
  wf p →
  post (processMessage m) p
    (λ e p', e = length (objects p) ∧
             assembling (registered m p) e (CamelCaseSlice (msg_TypeName m))
               (CamelCaseSlice (msg_TypeName m)) (fileName p) "record"
               (msg_Field m) p')
    (λ ab, ab ≠ Stuck ∧ ab ≠ Panic unexpected_cached ∧
           ¬ Forall (field_ok p) (msg_Field m)).
Proof.
  intros Hwf. unfold post. rewrite processMessage_unfold.
  pose proof (processFields_spec m (length (objects p)) _ _ _ _ (msg_Field m) _
                (registered_assembling m p Hwf)) as Hloop.
  unfold post in Hloop.
  destruct (processFields _ _ _ _) as [[[] p']|ab]; [done|].
  destruct Hloop as (? & ? & Hnok). split_and!; [done..|].
  intros Hall. apply Hnok. eapply Forall_impl; [exact Hall|].
  intros f. by apply field_ok_g.
Qed.


Lemma processMessage_total m p :
  wf p → Forall (field_ok p) (msg_Field m) →
  ∃ p', processMessage m p = Ok (length (objects p), p') ∧
        processFields m (length (objects p)) (msg_Field m) (registered m p)
          = Ok (tt, p') ∧
        assembling (registered m p) (length (objects p))
          (CamelCaseSlice (msg_TypeName m))
          (CamelCaseSlice (msg_TypeName m)) (fileName p) "record"
          (msg_Field m) p'.
Proof.
  intros Hwf Hall. pose proof (processMessage_spec m p Hwf) as Hpost.
  unfold post in Hpost. rewrite processMessage_unfold in *.
  destruct (processFields _ _ _ _) as [[[] p']|ab].
  - destruct Hpost as [_ Hasm]. eauto.
  - by destruct Hpost as (_ & _ & []).
Qed.




Lemma dom_registered m p :
  dom (seen (registered m p))
  = {[CamelCaseSlice (msg_TypeName m)]} ∪ dom (seen p).
Proof. cbn. by rewrite dom_insert_L. Qed.


(** C9 as amended: when the lookup of a field's type finds the record
    under assembly, the nested record made for the field at position [i]
    holds exactly the nodes of the positions before [i], also after the
    nodes of the later fields were appended to the envelope.  The lookup
    finds it when the key the type is looked up under is the name the
    message's envelope is registered under, and that name is still bound
    to the envelope: no earlier field of the message has missed the cache
    and has that name as its camel-cased field name. *)
Theorem C9_nested_reference_is_a_prefix m p e p' i f :
  wf p → processMessage m p = Ok (e, p') →
  msg_Field m !! i = Some f → is_message_field f = true →
  short_type_name f = Some (CamelCaseSlice (msg_TypeName m)) →
  keeps (CamelCaseSlice (msg_TypeName m))
    ({[CamelCaseSlice (msg_TypeName m)]} ∪ dom (seen p))
    (take i (msg_Field m)) = true →
  ∃ n ns ty s l a t,
    objects p' !! e = Some (envelope n ns ty s) ∧
    slice_elems p' s = Some l ∧ length l = length (msg_Field m) ∧
    l !! i = Some (Some a) ∧
    objects p' !! a =
      Some (complexField (CamelCase (fd_Name f))
              (CamelCaseSlice (msg_TypeName m)) t) ∧
    slice_elems p' t = Some (take i l).
Proof.
  intros Hwf Hrun Hi Hf Hkey Hkeeps.
  pose proof (processMessage_spec m p Hwf) as Hspec.
  unfold post in Hspec. rewrite Hrun in Hspec.
  destruct Hspec
    as (-> & _ & _ & _ & _ & _ & _ & _ & s & l & He & Hl & Hlen & Hnodes).
  rewrite dom_registered in Hnodes.
  destruct (lookup_lt_is_Some_2 l i) as [x Hx].
  { rewrite Hlen. by eapply lookup_lt_Some. }
  destruct (Hnodes i f x Hi Hx) as (_ & Hsnap & _).
  destruct (Hsnap Hf Hkey Hkeeps) as (a & t & -> & _ & Ha & _ & Ht).
  eexists _, _, _, s, l, a, t. done.
Qed.


(** ** The driver *)

Lemma wf_set_output h p : wf p → wf (set_output h p).
Proof. done. Qed.

Lemma wf_set_fileName n p : wf p → wf (set_fileName n p).
Proof. done. Qed.

Lemma wf_Init g : wf (Init g).
Proof.
  split.
  - intros k v Hk. cbn in Hk. by rewrite lookup_empty in Hk.
  - intros a o s Ha. by cbn in Ha.
Qed.

Lemma panic_not_unexpected_2 : Panic nil_dereference ≠ Panic unexpected_cached.
Proof. discriminate. Qed.

Lemma schema_each_abort render fs ab :
  (∀ f ab', render f = Abort ab' → ab' ≠ Panic unexpected_cached) →
  schema_each render fs = Abort ab → ab ≠ Panic unexpected_cached.
Proof.
  intros Hr. induction fs as [|f fs IH]; cbn; [done|].
  destruct (render f) as [s|ab'] eqn:Hf.
  - destruct (schema_each render fs); [done|]. intros [= <-]. by apply IH.
  - intros [= <-]. by eapply Hr.
Qed.

(** Rendering never fails on the shape of a cache entry: it does not
    read the cache. *)
Lemma schema_abort fuel p f ab :
  schema fuel p f = Abort ab → ab ≠ Panic unexpected_cached.
Proof.
  revert f ab. induction fuel as [|fuel IH]; intros f ab; cbn;
    (destruct f as [a|]; [|intros [= <-]; apply panic_not_unexpected_2]);
    [by intros [= <-]|].
  destruct (objects p !! a) as [[n ns ty s| |fn tn s| |]|]; try done.
  - destruct (slice_elems p s) as [fs|]; [|by intros [= <-]].
    destruct (schema_each _ fs) eqn:Hfs; [done|]. intros [= <-].
    eapply schema_each_abort; [|exact Hfs]. apply IH.
  - destruct (slice_elems p s) as [fs|]; [|by intros [= <-]].
    destruct (schema_each _ fs) eqn:Hfs; [done|]. intros [= <-].
    eapply schema_each_abort; [|exact Hfs]. apply IH.
  - by intros [= <-].
Qed.

Lemma createMessageStub_spec m p :
  wf p →
  post (createMessageStub m) p (λ _ p', wf p')
    (λ ab, ab ≠ Panic unexpected_cached).
Proof.
  intros Hwf. unfold createMessageStub. apply post_bind.
  eapply post_mono; [by apply processMessage_spec| |by intros ab (_ & ? & _)].
  intros e p1 [_ (Hwf1 & _)]. unfold post, bind, P, modify, get; cbv beta iota.
  destruct (schema _ _ _) as [text|ab] eqn:Hs; cbv beta iota.
  - by repeat apply wf_set_output.
  - unfold throw. by eapply schema_abort.
Qed.

Lemma generateMessages_spec messages p :
  wf p →
  post (generateMessages messages) p (λ _ p', wf p')
    (λ ab, ab ≠ Panic unexpected_cached).
Proof.
  revert p. induction messages as [|m messages IH]; intros p Hwf; [done|].
  cbn [generateMessages]. apply post_bind.
  destruct (msg_HasAvroSchema m).
  - eapply post_mono; [by apply createMessageStub_spec| |done].
    intros u p'. apply IH.
  - apply IH, Hwf.
Qed.

Lemma GenerateAll_spec files p :
  wf p →
  post (GenerateAll files) p (λ _ p', wf p')
    (λ ab, ab ≠ Panic unexpected_cached).
Proof.
  revert p. induction files as [|file files IH]; intros p Hwf; [done|].
  cbn [GenerateAll]. apply post_bind. unfold Generate. apply post_bind.
  unfold post at 1, modify.
  eapply post_mono; [apply generateMessages_spec, wf_set_fileName, Hwf| |done].
  intros u p'. apply IH.
Qed.

(** C10: in every run of the plugin, whatever files it is given, the
    cache only ever holds pointers to envelopes and complexFields, and the
    panic of [getComplexField] on another cached shape never happens. *)
Theorem C10_cache_holds_records_only g files :
  match GenerateAll files (Init g) with
  | Ok (_, p') => cache_ok p'
  | Abort ab => ab ≠ Panic unexpected_cached
  end.
Proof.
  pose proof (GenerateAll_spec files (Init g) (wf_Init g)) as H.
  unfold post in H. destruct (GenerateAll files (Init g)) as [[_ p']|ab].
  - by destruct H.
  - done.
Qed.

(** ** The type mapper on other tags *)

(** C4 as amended: for a tag outside the recognized set the mapper
    returns the string nil and no failure.  It is called with such a tag
    for a repeated field of a message, an enum or a group type the
    generator knows: that field is classified as an array of nil, without
    an error, and synthesis goes on.  A field whose tag is none of the
    eighteen of the enumeration ends the run before the mapper is called:
    a repeated one in the generator's [GoType], another one in the default
    case of [processField]. *)
Theorem C4_unrecognized_tag_maps_to_nil t :
  is_scalar t = false →
  getAvroTypeForProtobufType t = "nil" ∧
  (∀ m f p, fd_Type f = t → fd_IsRepeated f = true →
     t = TYPE_GROUP ∨ t = TYPE_MESSAGE ∨ t = TYPE_ENUM →
     is_Some (g_objects p !! fd_TypeName f) →
     processField m f p =
     Ok ((Some (length (objects p)), None),
         set_objects (λ os, os ++ [arrayField (fieldName m f) "nil"]) p)) ∧
  (∀ m f p, fd_Type f = t →
     t ≠ TYPE_GROUP → t ≠ TYPE_MESSAGE → t ≠ TYPE_ENUM →
     processField m f p =
     Abort (Exit (GoLib.Join
                    [if fd_IsRepeated f then "unknown type for"
                     else "unknown type for "; fd_Name f] " "))).
Proof.
  clear Quote growslice.
  intros Ht. split; [by apply getAvroType_default|]. split.
  - intros m f p Hf Hrep Hnamed Hres. unfold processField. rewrite Hrep.
    unfold as_avroField, getArrayField, bind at 1 2.
    rewrite (GetFieldName_ok m f p) by (right; by rewrite Hf).
    unfold bind, alloc, ret; cbn.
    by rewrite Hf, getAvroType_default.
  - intros m f p Hf Hg Hm He. unfold processField.
    assert (Hnamed : (fd_Type f =? TYPE_GROUP)%Z || (fd_Type f =? TYPE_MESSAGE)%Z
                     || (fd_Type f =? TYPE_ENUM)%Z = false).
    { apply not_true_is_false. rewrite named_type_tag, Hf. tauto. }
    apply orb_false_elim in Hnamed as [Hgm He'].
    apply orb_false_elim in Hgm as [Hg' Hm''].
    destruct (fd_IsRepeated f).
    + unfold as_avroField, getArrayField, bind at 1 2.
      destruct (GetFieldName_cases m f p) as [[Hok _]|[_ ->]].
      * destruct Hok as [?|[Hn _]]; [congruence|].
        rewrite Hf in Hn. tauto.
      * unfold GoType_abort. by rewrite Hg', Hm'', He'.
    + rewrite Hf, Ht. rewrite Hf in Hg', Hm'', He'. by rewrite Hm'', He', Hg'.
Qed.

(** ** Writing to the cache *)

(** C6 as amended: both places that write to the cache replace an entry
    that is already there without any failure.  [processMessage] binds the
    message's name to the new envelope, and a miss in [getComplexField]
    binds the camel-cased field name to the new complexField, whatever
    these names were bound to. *)
Theorem C6_insert_replaces_silently p old :
  (∀ m, seen p !! CamelCaseSlice (msg_TypeName m) = Some old →
        msg_Field m = [] →
        ∃ p', processMessage m p = Ok (length (objects p), p') ∧
              objects p !! length (objects p) = None ∧
              seen p' = <[CamelCaseSlice (msg_TypeName m)
                          := Some (length (objects p))]> (seen p)) ∧
  (∀ m f tn, seen p !! CamelCase (fd_Name f) = Some old →
             short_type_name f = Some tn → seen p !! tn = None →
        ∃ p', getComplexField m f p = Ok ((length (objects p), None), p') ∧
              objects p !! length (objects p) = None ∧
              seen p' = <[CamelCase (fd_Name f)
                          := Some (length (objects p))]> (seen p)).
Proof.
  split.
  - intros m _ Hfields. rewrite processMessage_unfold, Hfields. cbn.
    eexists. split_and!; [done| |done]. by apply lookup_ge_None.
  - intros m f tn _ Htn Hmiss.
    destruct (last_of_Split (CamelCase (fd_TypeName f)) "." p)
      as (tn' & Hlast & Htn').
    unfold short_type_name in Htn. assert (tn' = tn) as -> by congruence.
    unfold getComplexField, bind, get; cbv beta iota.
    rewrite Hlast; cbv beta iota.
    destruct (seen p !! tn) as [cached|] eqn:Hseen; [congruence|].
    unfold make_slice, alloc, modify, ret; cbn.
    eexists. split_and!; [done| |done]. by apply lookup_ge_None.
Qed.

(** ** Enum fields *)

Lemma collect_names (values : list EnumValueDescriptorProto) acc :
  fold_left (λ symbols v, symbols ++ [ev_Name v]) values acc
  = acc ++ map ev_Name values.
Proof.
  revert acc. induction values as [|v values IH]; intros acc; cbn.
  - by rewrite app_nil_r.
  - by rewrite IH, <- (assoc_L (++)).
Qed.

(** C7: for a non-repeated enum field whose enum declaration resolves,
    the node made is an enumField with the field's name, the last piece of
    the type name, and as symbols the names of the declared values, each
    once per declared value and in declaration order; its rendering lists
    the quoted symbols in that order. *)
Theorem C7_enum_symbols_in_declaration_order m f p values :
  fd_IsRepeated f = false → fd_Type f = TYPE_ENUM →
  g_objects p !! fd_TypeName f = Some (EnumObject values) →
  ∃ tn p',
    GoLib.Split (fd_TypeName f) "." !!
      (length (GoLib.Split (fd_TypeName f) ".") - 1) = Some tn ∧
    processField m f p = Ok ((Some (length (objects p)), None), p') ∧
    objects p' !! length (objects p)
      = Some (enumField (fd_Name f) tn (map ev_Name values)) ∧
    ∀ fuel, schema (S fuel) p' (Some (length (objects p)))
            = Ok (enumField_schema (fd_Name f) tn (map ev_Name values)).
Proof.
  intros Hrep Ht Hobj.
  destruct (last_of_Split (fd_TypeName f) "." p) as (tn & Hlast & Htn).
  exists tn. eexists. split; [exact Htn|].
  unfold processField. rewrite Hrep, Ht. cbn.
  unfold as_avroField, getEnumField, ObjectNamed, bind, get; cbv beta iota.
  rewrite Hobj; cbv beta iota. unfold ret at 1; cbv beta iota.
  rewrite Hlast; cbv beta iota. unfold alloc, ret; cbn.
  rewrite collect_names. cbn.
  split_and!; [done|apply lookup_snoc_new|].
  intros fuel. cbn. by rewrite lookup_snoc_new.
Qed.


(** ** The model never leaves what Go does *)

(** An abort that is a behaviour of the Go program: a panic or an exit. *)
Definition go_abort (ab : abort) : Prop :=
  match ab with
  | Panic _ | Exit _ => True
  | OutOfFuel | Stuck => False
  end.

(** A cell of a slice: nil, or a pointer below [bound] to a struct that
    is not an envelope. *)
Definition node_ok (p : avroschema) (bound : nat) (x : avroField) : Prop :=
  match x with
  | None => True
  | Some b => b < bound ∧ ∃ o, objects p !! b = Some o ∧ is_envelope o = false
  end.

(** The elements of a complexField were allocated before it; those of an
    envelope are just allocated. *)
Definition child_bound (p : avroschema) (a : nat) (o : object) : nat :=
  if is_envelope o then length (objects p) else a.

Definition children_ok (p : avroschema) : Prop :=
  ∀ a o s l, objects p !! a = Some o → slice_of o = Some s →
    slice_elems p s = Some l → Forall (node_ok p (child_bound p a o)) l.

(** On the backing array of an envelope's slice no struct holds a longer
    slice, and no other envelope holds one at all. *)
Definition arrays_owned (p : avroschema) : Prop :=
  ∀ a o t e n ns ty s,
    objects p !! a = Some o → slice_of o = Some t →
    objects p !! e = Some (envelope n ns ty s) →
    slice_array t = slice_array s →
    slice_len t ≤ slice_len s ∧ (is_envelope o = true → a = e).

Definition heap_ok (p : avroschema) : Prop :=
  wf p ∧ children_ok p ∧ arrays_owned p.

(** The ways [processField] returns: no node; a cached complexField; a
    new struct without a slice; a new complexField on the slice of a cached
    envelope; a new complexField on a new empty slice, put into the cache. *)
Inductive shape (p : avroschema) : avroField → avroschema → Prop :=
| shape_none : shape p None p
| shape_cached a fn tn s :
    objects p !! a = Some (complexField fn tn s) → shape p (Some a) p
| shape_plain o :
    slice_of o = None →
    shape p (Some (length (objects p))) (set_objects (λ os, os ++ [o]) p)
| shape_wrap e n ns ty s fn tn :
    objects p !! e = Some (envelope n ns ty s) →
    shape p (Some (length (objects p)))
      (set_objects (λ os, os ++ [complexField fn tn s]) p)
| shape_fresh fn tn k :
    shape p (Some (length (objects p)))
      (set_seen (<[k := Some (length (objects p))]>)
         (set_objects
            (λ os, os ++ [complexField fn tn (Slice (length (arrays p)) 0)])
            (set_arrays (λ bs, bs ++ [[]]) p))).

Lemma processField_shape m f p :
  wf p →
  match processField m f p with
  | Ok (r, p') => r.2 = None ∧ shape p r.1 p'
  | Abort ab => go_abort ab
  end.
Proof.
  intros Hwf. unfold processField.
  destruct (fd_IsRepeated f).
  { unfold as_avroField, getArrayField, bind at 1 2.
    destruct (GetFieldName_cases m f p) as [[_ ->]|[_ ->]].
    - cbn. split; [done|]. by apply shape_plain.
    - unfold GoType_abort. by destruct (_ || _). }
  destruct (is_scalar (fd_Type f)) eqn:Hsc.
  { unfold as_avroField, getSimpleAvroField, bind at 1 2.
    rewrite (GetFieldName_ok m f p) by (by left).
    cbn. split; [done|]. by apply shape_plain. }
  destruct (fd_Type f =? TYPE_MESSAGE)%Z.
  { destruct (last_of_Split (CamelCase (fd_TypeName f)) "." p)
      as (tn & Hlast & _).
    unfold as_avroField, getComplexField, bind, get; cbv beta iota.
    rewrite Hlast; cbv beta iota.
    destruct (seen p !! tn) as [cached|] eqn:Hseen.
    - destruct Hwf as [Hcache _].
      destruct (Hcache _ _ Hseen) as (a & o & -> & Ha & Hrec).
      rewrite Ha. destruct o as [n ns ty s| |fn tn' s| |]; try done.
      + cbn. split; [done|]. by eapply shape_wrap.
      + cbn. split; [done|]. by eapply shape_cached.
    - cbn. split; [done|]. apply shape_fresh. }
  destruct (fd_Type f =? TYPE_ENUM)%Z.
  { unfold as_avroField, getEnumField, ObjectNamed, bind, get; cbv beta iota.
    destruct (g_objects p !! fd_TypeName f) as [[|values]|]; cbv beta iota;
      [done| |done].
    destruct (last_of_Split (fd_TypeName f) "." p) as (tn & Hlast & _).
    unfold ret at 1; cbv beta iota. rewrite Hlast. cbn.
    split; [done|]. by apply shape_plain. }
  destruct (fd_Type f =? TYPE_GROUP)%Z.
  { cbn. split; [done|]. apply shape_none. }
  done.
Qed.

Lemma node_ok_mono p p' bound bound' x :
  (∀ a o, objects p !! a = Some o → is_envelope o = false →
          objects p' !! a = Some o) →
  bound ≤ bound' → node_ok p bound x → node_ok p' bound' x.
Proof.
  intros Hobj Hle. destruct x as [b|]; [|done].
  intros (Hb & o & Ho & He). split; [lia|]. eauto.
Qed.

Lemma slice_of_None_not_envelope o : slice_of o = None → is_envelope o = false.
Proof. by destruct o. Qed.

(** Each way [processField] returns keeps the structure of the memory,
    and the node returned is a proper cell. *)
Lemma shape_heap_ok p x p' :
  heap_ok p → shape p x p' →
  children_ok p' ∧ arrays_owned p' ∧ node_ok p' (length (objects p')) x ∧
  (∀ a o, objects p !! a = Some o → objects p' !! a = Some o).
Proof.
  intros ([Hcache Hslices] & Hch & Hown) Hshape.
  assert (Hgrow : ∀ o', ∀ a o, objects p !! a = Some o →
                    (objects p ++ [o']) !! a = Some o).
  { intros o' a o Ha. by apply lookup_snoc_old. }
  destruct Hshape as [|a fn tn s Ha|o Ho|e n ns ty s fn tn He|fn tn k].
  - done.
  - split_and!; [done..| |done].
    split; [by eapply lookup_lt_Some|]. eauto.
  - pose proof (slice_of_None_not_envelope o Ho) as Hne.
    split_and!; cbn.
    + intros a o' s l Ha Hs Hl.
      apply lookup_snoc_inv in Ha as [Ha|[-> ->]]; [|congruence].
      eapply Forall_impl; [by eapply (Hch a o' s l)|].
      intros x. apply node_ok_mono; [cbn; eauto|].
      unfold child_bound. cbn. rewrite length_app. destruct (is_envelope o'); lia.
    + intros a o' t e n ns ty s Ha Ht He Harr.
      apply lookup_snoc_inv in Ha as [Ha|[-> ->]]; [|congruence].
      apply lookup_snoc_inv in He as [He|[-> Heq]];
        [|by rewrite <- Heq in Hne].
      eauto.
    + rewrite length_app. cbn. split; [lia|].
      exists o. split; [apply lookup_snoc_new | done].
    + eauto.
  - split_and!; cbn.
    + intros a o' s' l Ha Hs Hl.
      apply lookup_snoc_inv in Ha as [Ha|[-> ->]].
      * eapply Forall_impl; [by eapply (Hch a o' s' l)|].
        intros x. apply node_ok_mono; [cbn; eauto|].
        unfold child_bound. cbn. rewrite length_app.
        destruct (is_envelope o'); lia.
      * cbn in Hs. injection Hs as <-.
        eapply Forall_impl; [by eapply (Hch e _ s l He)|].
        intros x. apply node_ok_mono; [cbn; eauto|]. done.
    + intros a o' t e' n' ns' ty' s' Ha Ht He' Harr.
      apply lookup_snoc_inv in He' as [He'|[-> [=]]].
      apply lookup_snoc_inv in Ha as [Ha|[-> ->]]; [eauto|].
      cbn in Ht. injection Ht as <-. split; [|done].
      by destruct (Hown e _ s e' n' ns' ty' s' He eq_refl He' Harr).
    + rewrite length_app. cbn. split; [lia|].
      eexists. split; [apply lookup_snoc_new | done].
    + eauto.
  - assert (Hold : ∀ s l, valid_slice p s →
              slice_elems
                (set_seen (<[k := Some (length (objects p))]>)
                   (set_objects
                      (λ os, os ++ [complexField fn tn (Slice (length (arrays p)) 0)])
                      (set_arrays (λ bs, bs ++ [[]]) p))) s = Some l →
              slice_elems p s = Some l).
    { intros s l (c & Hc & Hle) Hl. unfold slice_elems in *. cbn in Hl.
      rewrite lookup_app_l in Hl; [done|]. by eapply lookup_lt_Some. }
    split_and!; cbn.
    + intros a o' s' l Ha Hs Hl.
      apply lookup_snoc_inv in Ha as [Ha|[-> ->]].
      * apply Hold in Hl; [|by eapply Hslices].
        eapply Forall_impl; [by eapply (Hch a o' s' l)|].
        intros x. apply node_ok_mono; [cbn; eauto|].
        unfold child_bound. cbn. rewrite length_app.
        destruct (is_envelope o'); lia.
      * cbn in Hs. injection Hs as <-.
        apply slice_elems_Some in Hl as (c & _ & _ & ->). cbn.
        rewrite take_0. constructor.
    + intros a o' t e' n' ns' ty' s' Ha Ht He' Harr.
      apply lookup_snoc_inv in He' as [He'|[-> [=]]].
      apply lookup_snoc_inv in Ha as [Ha|[-> ->]]; [eauto|].
      cbn in Ht. injection Ht as <-. cbn in Harr.
      destruct (Hslices e' _ s' He' eq_refl) as (c & Hc & _).
      apply lookup_lt_Some in Hc. lia.
    + rewrite length_app. cbn. split; [lia|].
      eexists. split; [apply lookup_snoc_new | done].
    + eauto.
Qed.


(** Appending a proper cell to the envelope at [e] keeps the structure
    of the memory. *)
Lemma append_field_heap_ok e x p n ns ty s :
  heap_ok p → objects p !! e = Some (envelope n ns ty s) →
  node_ok p (length (objects p)) x →
  ∃ s' p', append_field e x p = Ok (tt, p') ∧ heap_ok p' ∧
           objects p' !! e = Some (envelope n ns ty s').
Proof.
  intros (Hwf & Hch & Hown) He Hx.
  pose proof Hwf as [_ Hslices].
  destruct (proj1 (valid_slice_elems p s) (Hslices e _ s He eq_refl)) as [l Hl].
  destruct (append_field_spec e x p n ns ty s l He Hl)
    as (s' & p' & Hap & Hobj & Hl' & _ & _ & _ & _ & Hwf' & _ & Hplace & Hlen & Hkeep).
  assert (Hlt : e < length (objects p)) by (by eapply lookup_lt_Some).
  assert (He' : objects p' !! e = Some (envelope n ns ty s'))
    by (rewrite Hobj; by apply list_lookup_insert_eq).
  assert (Hother : ∀ a o, a ≠ e → objects p' !! a = Some o →
                          objects p !! a = Some o).
  { intros a o Hne Ha. by rewrite Hobj, list_lookup_insert_ne in Ha. }
  assert (Hnodes : ∀ a o, objects p !! a = Some o → is_envelope o = false →
                          objects p' !! a = Some o).
  { intros a o Ha Ho. rewrite Hobj, list_lookup_insert_ne; [done|].
    intros ->. rewrite He in Ha. by injection Ha as <-. }
  assert (Hsame : ∀ a o t, a ≠ e → objects p !! a = Some o →
                    slice_of o = Some t → slice_elems p' t = slice_elems p t).
  { intros a o t Hne Ha Ht. apply Hkeep.
    - apply valid_slice_elems. eauto.
    - intros Harr. by destruct (Hown a o t e n ns ty s Ha Ht He Harr). }
  assert (Hlength : length (objects p') = length (objects p))
    by (by rewrite Hobj, length_insert).
  exists s', p'. unfold heap_ok. split_and!; [done|by apply Hwf'| | |done].
  - intros a o t lt Ha Ht Hlt'.
    destruct (decide (a = e)) as [->|Hne].
    + rewrite He' in Ha. injection Ha as <-. cbn in Ht. injection Ht as <-.
      rewrite Hl' in Hlt'. injection Hlt' as <-.
      unfold child_bound. cbn. rewrite Hlength.
      apply Forall_app. split.
      * eapply Forall_impl; [by eapply (Hch e _ s l He)|].
        intros y. by apply node_ok_mono.
      * constructor; [|constructor].
        by apply (node_ok_mono p p' (length (objects p)) _ x Hnodes).
    + pose proof (Hother a o Hne Ha) as Ha0.
      rewrite (Hsame a o t Hne Ha0 Ht) in Hlt'.
      eapply Forall_impl; [by eapply (Hch a o t lt)|].
      intros y. apply node_ok_mono; [done|].
      unfold child_bound. rewrite Hlength. done.
  - intros a o t e' n' ns' ty' s'' Ha Ht He'' Harr.
    destruct (decide (a = e)) as [->|Hne];
      destruct (decide (e' = e)) as [->|Hne'].
    + rewrite He' in Ha, He''. injection Ha as <-. injection He'' as <- <- <- <-.
      cbn in Ht. injection Ht as <-. done.
    + rewrite He' in Ha. injection Ha as <-. cbn in Ht. injection Ht as <-.
      pose proof (Hother e' _ Hne' He'') as He0.
      destruct (Hslices e' _ s'' He0 eq_refl) as (c & Hc & _).
      destruct Hplace as [Hnone|Heq]; [congruence|].
      rewrite Heq in Harr.
      destruct (Hown e _ s e' n' ns' ty' s'' He eq_refl He0 Harr) as [_ Habs].
      by specialize (Habs eq_refl).
    + rewrite He' in He''. injection He'' as <- <- <- <-.
      pose proof (Hother a o Hne Ha) as Ha0.
      destruct (Hslices a o t Ha0 Ht) as (c & Hc & _).
      destruct Hplace as [Hnone|Heq]; [congruence|].
      rewrite Heq in Harr.
      destruct (Hown a o t e n ns ty s Ha0 Ht He Harr) as [Hle Henv].
      split; [lia | done].
    + pose proof (Hother a o Hne Ha) as Ha0.
      pose proof (Hother e' _ Hne' He'') as He0. eauto.
Qed.

Lemma heap_ok_registered m p : heap_ok p → heap_ok (registered m p).
Proof.
  intros (Hwf & Hch & Hown). pose proof Hwf as [_ Hslices].
  pose proof (registered_assembling m p Hwf) as (Hwf' & _).
  assert (Hold : ∀ s l, valid_slice p s →
            slice_elems (registered m p) s = Some l → slice_elems p s = Some l).
  { intros s l (c & Hc & Hle) Hl. unfold slice_elems in *. cbn in Hl.
    rewrite lookup_app_l in Hl; [done|]. by eapply lookup_lt_Some. }
  unfold heap_ok. split_and!; [done| |].
  - intros a o s l Ha Hs Hl. cbn in Ha.
    apply lookup_snoc_inv in Ha as [Ha|[-> ->]].
    + apply Hold in Hl; [|by eapply Hslices].
      eapply Forall_impl; [by eapply (Hch a o s l)|].
      intros x. apply node_ok_mono.
      * intros b o' Hb _. cbn. by apply lookup_snoc_old.
      * unfold child_bound. cbn. rewrite length_app.
        destruct (is_envelope o); lia.
    + cbn in Hs. injection Hs as <-.
      apply slice_elems_Some in Hl as (c & _ & _ & ->). cbn.
      rewrite take_0. constructor.
  - intros a o t e n ns ty s Ha Ht He Harr. cbn in Ha, He.
    apply lookup_snoc_inv in Ha as [Ha|[-> ->]];
      apply lookup_snoc_inv in He as [He|[-> Heq]].
    + eauto.
    + injection Heq as -> -> -> ->. cbn in Harr.
      destruct (Hslices a o t Ha Ht) as (c & Hc & _).
      apply lookup_lt_Some in Hc. lia.
    + cbn in Ht. injection Ht as <-. cbn in Harr.
      destruct (Hslices e _ s He eq_refl) as (c & Hc & _).
      apply lookup_lt_Some in Hc. lia.
    + injection Heq as -> -> -> ->. cbn in Ht. injection Ht as <-. done.
Qed.

Lemma assemble_field_heap_ok m e f p n ns ty s :
  heap_ok p → objects p !! e = Some (envelope n ns ty s) →
  post (assemble_field m e f) p
    (λ _ p', heap_ok p' ∧ ∃ s', objects p' !! e = Some (envelope n ns ty s'))
    go_abort.
Proof.
  intros Hok He. pose proof Hok as (Hwf & _).
  pose proof (processField_shape m f p Hwf) as Hshape.
  pose proof (processField_spec m f p Hwf) as Hspec.
  unfold assemble_field, post, bind in *.
  destruct (processField m f p) as [[[x err] p1]|ab]; [|done].
  destruct Hshape as [Herr Hshape]. cbn in Herr. subst err. cbn [fst snd] in *.
  destruct Hspec as (_ & Hwf1 & _).
  destruct (shape_heap_ok p x p1 Hok Hshape) as (Hch1 & Hown1 & Hx & Hkeep).
  destruct (append_field_heap_ok e x p1 n ns ty s) as (s' & p2 & -> & Hok2 & He2);
    eauto. done.
Qed.

Lemma processFields_heap_ok m e fields p n ns ty s :
  heap_ok p → objects p !! e = Some (envelope n ns ty s) →
  post (processFields m e fields) p
    (λ _ p', heap_ok p' ∧ ∃ s', objects p' !! e = Some (envelope n ns ty s'))
    go_abort.
Proof.
  intros Hok He.
  apply (processFields_rule m e
           (λ _ p', heap_ok p' ∧ ∃ s', objects p' !! e = Some (envelope n ns ty s'))).
  - intros done f rest p0 _ [Hok0 [s0 He0]]. by eapply assemble_field_heap_ok.
  - eauto.
Qed.

(** A rendering that ends as in Go: with a text, or with the panic of a
    call on the nil interface. *)
Definition rendered {A} (r : res A) : Prop :=
  match r with
  | Ok _ => True
  | Abort ab => ab = Panic nil_dereference
  end.

Lemma schema_each_rendered render fs :
  Forall (λ f, rendered (render f)) fs → rendered (schema_each render fs).
Proof.
  induction 1 as [|f fs Hf Hfs IH]; cbn; [done|].
  destruct (render f) as [s|ab]; [|done].
  by destruct (schema_each render fs).
Qed.

(** With a unit of fuel for each address up to its own, a struct that is
    not an envelope renders or panics on a nil element. *)
Lemma schema_node_rendered p fuel :
  heap_ok p → ∀ x, node_ok p fuel x → rendered (schema fuel p x).
Proof.
  intros ([_ Hslices] & Hch & _).
  induction fuel as [|fuel IH]; intros [b|]; try done.
  { intros [Hb _]. lia. }
  intros (Hb & o & Ho & Hne). cbn. rewrite Ho.
  destruct o as [| |fn tn s| |]; try done.
  destruct (proj1 (valid_slice_elems p s) (Hslices b _ s Ho eq_refl)) as [l Hl].
  rewrite Hl.
  assert (Hr : rendered (schema_each (schema fuel p) l)).
  { apply schema_each_rendered.
    eapply Forall_impl; [by eapply (Hch b _ s l Ho)|].
    intros y Hy. apply IH. eapply node_ok_mono; [| |exact Hy]; [eauto|].
    unfold child_bound. cbn. lia. }
  by destruct (schema_each _ l).
Qed.

(** The fuel [createMessageStub] hands to [schema] is enough for an
    envelope. *)
Lemma schema_envelope_rendered p e n ns ty s :
  heap_ok p → objects p !! e = Some (envelope n ns ty s) →
  rendered (schema (S (length (objects p))) p (Some e)).
Proof.
  intros Hok He. pose proof Hok as ([_ Hslices] & Hch & _). cbn. rewrite He.
  destruct (proj1 (valid_slice_elems p s) (Hslices e _ s He eq_refl)) as [l Hl].
  rewrite Hl.
  assert (Hr : rendered (schema_each (schema (length (objects p)) p) l)).
  { apply schema_each_rendered.
    eapply Forall_impl; [by eapply (Hch e _ s l He)|].
    intros y Hy. by apply schema_node_rendered. }
  by destruct (schema_each _ l).
Qed.

Lemma createMessageStub_heap_ok m p :
  heap_ok p → post (createMessageStub m) p (λ _ p', heap_ok p') go_abort.
Proof.
  intros Hok. unfold createMessageStub, post, bind.
  rewrite processMessage_unfold.
  pose proof (processFields_heap_ok m (length (objects p)) (msg_Field m)
                (registered m p) _ _ _ _ (heap_ok_registered m p Hok)
                (lookup_snoc_new _ _)) as Hloop.
  unfold post in Hloop.
  destruct (processFields _ _ _ _) as [[[] p1]|ab]; [|done].
  destruct Hloop as [Hok1 [s' He1]].
  unfold P, modify, get; cbv beta iota.
  pose proof (schema_envelope_rendered
                (set_output (λ out, out ++ [String.concat ""
                   ["func AvroSchemaFor"; msg_Name m; "() string {"]]) p1)
                (length (objects p)) _ _ _ s' Hok1 He1) as Hr.
  destruct (schema _ _ _) as [text|ab]; cbv beta iota.
  - done.
  - cbn in Hr. subst ab. done.
Qed.

Lemma generateMessages_heap_ok messages p :
  heap_ok p → post (generateMessages messages) p (λ _ p', heap_ok p') go_abort.
Proof.
  revert p. induction messages as [|m messages IH]; intros p Hok; [done|].
  cbn [generateMessages]. apply post_bind.
  destruct (msg_HasAvroSchema m).
  - eapply post_mono; [by apply createMessageStub_heap_ok| |done].
    intros u p'. apply IH.
  - apply IH, Hok.
Qed.

Lemma heap_ok_Init g : heap_ok (Init g).
Proof.
  unfold heap_ok. split_and!; [apply wf_Init| |].
  - intros a o s l Ha. by cbn in Ha.
  - intros a o t e n ns ty s Ha. by cbn in Ha.
Qed.

(** Every way a run of the plugin can end in the model is a behaviour
    of the Go program: rendering never runs out of the fuel it is given
    and nothing reads memory that was not allocated. *)
Lemma GenerateAll_go_abort g files :
  post (GenerateAll files) (Init g) (λ _ p', heap_ok p') go_abort.
Proof.
  generalize (heap_ok_Init g). generalize (Init g).
  induction files as [|file files IH]; intros p Hok; [done|].
  cbn [GenerateAll]. apply post_bind. unfold Generate. apply post_bind.
  unfold post at 1, modify.
  eapply post_mono; [by apply generateMessages_heap_ok| |done].
  intros u p'. apply IH.
Qed.


(** ** Hits in the cache *)

(** A cached complexField is handed back as it is: the very node, and
    the state does not change. *)
Lemma getComplexField_cached_node m f p tn a fn tn' s :
  short_type_name f = Some tn → seen p !! tn = Some (Some a) →
  objects p !! a = Some (complexField fn tn' s) →
  getComplexField m f p = Ok ((a, None), p).
Proof.
  intros Htn Hseen Ha.
  destruct (last_of_Split (CamelCase (fd_TypeName f)) "." p)
    as (tn0 & Hlast & Htn0).
  unfold short_type_name in Htn. assert (tn0 = tn) as -> by congruence.
  unfold getComplexField, bind, get; cbv beta iota.
  rewrite Hlast; cbv beta iota.
  destruct (seen p !! tn) as [cached|]; [|done].
  injection Hseen as ->. by rewrite Ha.
Qed.

(** A cached envelope is wrapped: one new complexField on the envelope's
    slice; nothing else is allocated, the cache stays as it is, and the
    referenced message's fields are not visited. *)
Lemma getComplexField_cached_envelope m f p tn e n ns ty s :
  short_type_name f = Some tn → seen p !! tn = Some (Some e) →
  objects p !! e = Some (envelope n ns ty s) →
  getComplexField m f p =
  Ok ((length (objects p), None),
      set_objects (λ os, os ++ [complexField (CamelCase (fd_Name f)) tn s]) p).
Proof.
  intros Htn Hseen He.
  destruct (last_of_Split (CamelCase (fd_TypeName f)) "." p)
    as (tn0 & Hlast & Htn0).
  unfold short_type_name in Htn. assert (tn0 = tn) as -> by congruence.
  unfold getComplexField, bind, get; cbv beta iota.
  rewrite Hlast; cbv beta iota.
  destruct (seen p !! tn) as [cached|]; [|done].
  injection Hseen as ->. by rewrite He.
Qed.


(** ** Scalar fields and failing fields *)

(** The type names of the Avro primitives the mapper knows. *)
Definition avro_primitives : list string :=
  ["double"; "float"; "long"; "int"; "boolean"; "string"; "bytes"].

(** The scalar cases of the switch in [processField] are exactly the tags
    the mapper has a case for: a tag goes to [getSimpleAvroField] if and
    only if the mapper gives one of the primitive type names for it (and
    not its default). *)
Theorem scalar_cases_agree_with_mapper t :
  is_scalar t = true ↔ getAvroTypeForProtobufType t ∈ avro_primitives.
Proof.
  split.
  - unfold is_scalar, scalar_types; cbn [existsb]. rewrite !orb_true_iff.
    intros H.
    repeat (destruct H as [H|H];
            [apply Z.eqb_eq in H; subst t;
             vm_compute (getAvroTypeForProtobufType _);
             unfold avro_primitives; rewrite !elem_of_cons; auto 10 |]).
    done.
  - destruct (is_scalar t) eqn:Ht; [done|].
    rewrite (getAvroType_default t Ht). unfold avro_primitives.
    rewrite !elem_of_cons, elem_of_nil. intros H.
    repeat (destruct H as [H|H]; [discriminate H|]). done.
Qed.

(** How [processField] aborts on a field that is not acceptable: a
    repeated field ends the run in [GoType]; an enum field that resolves
    to a message makes the type assertion panic, one that does not resolve
    makes [ObjectNamed] exit, and another field of an unknown type makes
    [Fail] exit. *)
Definition field_abort (p : avroschema) (f : FieldDescriptorProto) : abort :=
  if fd_IsRepeated f then GoType_abort f
  else if (fd_Type f =? TYPE_ENUM)%Z then
    match g_objects p !! fd_TypeName f with
    | Some MessageObject => Panic interface_conversion
    | _ => Exit (GoLib.Join ["can't find object with type"; fd_TypeName f] " ")
    end
  else Exit (GoLib.Join ["unknown type for "; fd_Name f] " ").

Lemma field_abort_g p p' f :
  g_objects p' = g_objects p → field_abort p' f = field_abort p f.
Proof. unfold field_abort. by intros ->. Qed.

(** On a well-formed state [processField] returns, with a nil error,
    exactly for the acceptable fields; for every other field it aborts as
    [field_abort] says and never hands an error back to its caller. *)
Lemma processField_cases m f p :
  wf p →
  (field_ok p f → ∃ x p', processField m f p = Ok ((x, None), p')) ∧
  (¬ field_ok p f → processField m f p = Abort (field_abort p f)).
Proof.
  intros Hwf. split.
  - intros Hok. pose proof (processField_spec m f p Hwf) as H.
    unfold post in H. destruct (processField m f p) as [[[x err] p']|ab].
    + destruct H as (Herr & _). cbn in Herr. subst err. eauto.
    + by destruct H as (_ & _ & []).
  - intros Hbad. unfold processField, field_abort, field_ok in *.
    destruct (fd_IsRepeated f).
    { unfold as_avroField, getArrayField, bind at 1 2.
      by destruct (GetFieldName_cases m f p) as [[? _]|[_ ->]]. }
    destruct (is_scalar (fd_Type f)); [by destruct Hbad; left|].
    destruct (fd_Type f =? TYPE_MESSAGE)%Z eqn:Hm.
    { apply Z.eqb_eq in Hm. destruct Hbad. auto. }
    destruct (fd_Type f =? TYPE_ENUM)%Z eqn:He.
    { apply Z.eqb_eq in He.
      unfold as_avroField, getEnumField, ObjectNamed, bind, get; cbv beta iota.
      destruct (g_objects p !! fd_TypeName f) as [[|values]|]; try done.
      destruct Hbad. right; right; right. eauto. }
    destruct (fd_Type f =? TYPE_GROUP)%Z eqn:Hg.
    { apply Z.eqb_eq in Hg. destruct Hbad. auto. }
    done.
Qed.

Lemma processFields_app m e fields1 fields2 p :
  processFields m e (fields1 ++ fields2) p =
  match processFields m e fields1 p with
  | Ok (_, p1) => processFields m e fields2 p1
  | Abort ab => Abort ab
  end.
Proof.
  revert p. induction fields1 as [|f fields1 IH]; intros p; [done|].
  cbn [app processFields]. unfold bind.
  destruct (assemble_field m e f p) as [[[] p1]|ab]; [apply IH | done].
Qed.

(** [processMessage] gives up at the first field that is not acceptable:
    the fields before it are classified, and the abort of that field ends
    the call; no record comes back, and the panic on an error value is never
    the way it ends. *)
Theorem processMessage_aborts_at_first_bad_field m p before f after :
  wf p → msg_Field m = before ++ f :: after →
  Forall (field_ok p) before → ¬ field_ok p f →
  processMessage m p = Abort (field_abort p f).
Proof.
  intros Hwf Hfields Hbefore Hbad.
  rewrite processMessage_unfold, Hfields, processFields_app.
  pose proof (processFields_spec m (length (objects p)) _ _ _ _ before _
                (registered_assembling m p Hwf)) as Hloop.
  unfold post in Hloop.
  destruct (processFields _ _ before _) as [[[] p1]|ab].
  - destruct Hloop as (Hwf1 & Hg & _).
    assert (Hg' : g_objects p1 = g_objects p) by (by rewrite Hg).
    cbn [processFields]. unfold bind, assemble_field, bind.
    destruct (processField_cases m f p1 Hwf1) as [_ Habort].
    rewrite Habort.
    + by rewrite (field_abort_g p p1).
    + intros Hok. apply Hbad. by apply (field_ok_g p1).
  - destruct Hloop as (_ & _ & Hnot). destruct Hnot.
    eapply Forall_impl; [exact Hbefore|]. intros f'. by apply field_ok_g.
Qed.

(** [Generate] looks at the messages with the avro option only: a
    message without it is not assembled, not registered in the cache and
    adds nothing to the output. *)
Theorem generateMessages_skips_unmarked messages p :
  generateMessages messages p =
  generateMessages (filter (λ m, msg_HasAvroSchema m = true) messages) p.
Proof.
  revert p. induction messages as [|m messages IH]; intros p; [done|].
  rewrite filter_cons. cbn [generateMessages].
  destruct (msg_HasAvroSchema m) eqn:Hm.
  - rewrite decide_True by done. cbn [generateMessages]. rewrite Hm.
    unfold bind. destruct (createMessageStub m p) as [[[] p1]|ab]; [apply IH|done].
  - rewrite decide_False by done. unfold bind, ret. apply IH.
Qed.


(** ** What a call leaves as it was *)

(** The loop of [processMessage] writes to the cache under the
    camel-cased names of its non-repeated message-typed fields only, never
    removes a key, and leaves every slice alone that is stable when it
    starts. *)
Lemma processFields_frame m e n ns ty fields p0 s0 :
  wf p0 → objects p0 !! e = Some (envelope n ns ty s0) →
  post (processFields m e fields) p0
    (λ _ p',
       wf p' ∧ (∃ s', objects p' !! e = Some (envelope n ns ty s')) ∧
       dom (seen p0) ⊆ dom (seen p') ∧
       (∀ k, (∀ f, f ∈ fields → is_message_field f = true →
                   CamelCase (fd_Name f) ≠ k) →
             seen p' !! k = seen p0 !! k) ∧
       (∀ a o, objects p0 !! a = Some o → a ≠ e → objects p' !! a = Some o) ∧
       (∀ t, stable p0 e t → slice_elems p' t = slice_elems p0 t ∧ stable p' e t))
    (λ _, True).
Proof.
  intros Hwf He.
  apply (processFields_rule m e
    (λ done p',
       wf p' ∧ (∃ s', objects p' !! e = Some (envelope n ns ty s')) ∧
       dom (seen p0) ⊆ dom (seen p') ∧
       (∀ k, (∀ f, f ∈ done → is_message_field f = true →
                   CamelCase (fd_Name f) ≠ k) →
             seen p' !! k = seen p0 !! k) ∧
       (∀ a o, objects p0 !! a = Some o → a ≠ e → objects p' !! a = Some o) ∧
       (∀ t, stable p0 e t → slice_elems p' t = slice_elems p0 t ∧ stable p' e t))).
  - intros done f rest p _ (Hwf1 & [s1 He1] & Hdom & Hseen & Hobj & Hst).
    pose proof Hwf1 as [_ Hslices].
    destruct (proj1 (valid_slice_elems p s1) (Hslices e _ s1 He1 eq_refl))
      as [l Hl].
    eapply post_mono; [by eapply assemble_field_spec| |done].
    intros u p' (x & s' & Hwf' & He' & _ & _ & _ & _ & Hseen' & Hst' & Hkeep & _).
    split_and!; [done|eauto| | | |].
    + destruct Hseen' as [->|(a & _ & ->)]; [done|].
      etrans; [exact Hdom|]. apply dom_insert_subseteq.
    + intros k Hk.
      assert (Hk0 : seen p !! k = seen p0 !! k).
      { apply Hseen. intros f' Hf'. apply Hk. rewrite elem_of_app. auto. }
      destruct Hseen' as [->|(a & Hf & ->)]; [done|].
      rewrite lookup_insert_ne; [done|]. apply Hk; [|done].
      rewrite elem_of_app, list_elem_of_singleton. auto.
    + intros a o Ha Hne. apply Hkeep; auto.
    + intros t Ht. destruct (Hst t Ht) as [Heq Ht1].
      destruct (Hst' t Ht1) as [Heq' Ht2]. split; [congruence|done].
  - split_and!; try done; eauto.
Qed.

(** A slice that is allocated when [processMessage] starts is stable for
    the new envelope, whose backing array is new. *)
Lemma stable_registered m p t :
  is_Some (slice_elems p t) →
  stable (registered m p) (length (objects p)) t ∧
  slice_elems (registered m p) t = slice_elems p t.
Proof.
  intros [l (c & Hc & Hle & ->)%slice_elems_Some].
  assert (Hlt : slice_array t < length (arrays p)) by (by eapply lookup_lt_Some).
  assert (Heq : slice_elems (registered m p) t = slice_elems p t).
  { unfold slice_elems. cbn. by rewrite lookup_app_l. }
  split; [|done]. split.
  - rewrite Heq. apply valid_slice_elems. exists c. eauto.
  - cbn. intros n ns ty s. rewrite lookup_snoc_new. intros [= <- <- <- <-].
    cbn. lia.
Qed.

(** The cache after [processMessage]: the message's name is bound to the
    new envelope and every other key is bound as before, up to the keys
    that are the camel-cased name of one of the message's non-repeated
    message-typed fields; no key is removed. *)
Theorem processMessage_cache m p e p' :
  wf p → processMessage m p = Ok (e, p') →
  dom (seen p) ⊆ dom (seen p') ∧
  ∀ k, (∀ f, f ∈ msg_Field m → is_message_field f = true →
             CamelCase (fd_Name f) ≠ k) →
       seen p' !! k = <[CamelCaseSlice (msg_TypeName m) := Some e]> (seen p) !! k.
Proof.
  intros Hwf Hrun. rewrite processMessage_unfold in Hrun.
  pose proof (registered_assembling m p Hwf) as (Hwf0 & _).
  pose proof (processFields_frame m (length (objects p)) _ _ _ (msg_Field m)
                (registered m p) _ Hwf0 (lookup_snoc_new _ _)) as Hloop.
  unfold post in Hloop.
  destruct (processFields _ _ _ _) as [[[] p1]|ab]; [|done].
  injection Hrun as <- <-.
  destruct Hloop as (_ & _ & Hdom & Hseen & _). split.
  - etrans; [|exact Hdom]. cbn. apply dom_insert_subseteq.
  - intros k Hk. by rewrite (Hseen k Hk).
Qed.

(** [processMessage] changes no struct that was there before and no
    element of their slices: records and nodes are final once made. *)
Lemma processMessage_frame m p e p' :
  wf p → processMessage m p = Ok (e, p') →
  e = length (objects p) ∧
  (∀ a o, objects p !! a = Some o → objects p' !! a = Some o) ∧
  (∀ a o s, objects p !! a = Some o → slice_of o = Some s →
            slice_elems p' s = slice_elems p s).
Proof.
  intros Hwf Hrun. rewrite processMessage_unfold in Hrun.
  pose proof (registered_assembling m p Hwf) as (Hwf0 & _).
  pose proof (processFields_frame m (length (objects p)) _ _ _ (msg_Field m)
                (registered m p) _ Hwf0 (lookup_snoc_new _ _)) as Hloop.
  unfold post in Hloop.
  destruct (processFields _ _ _ _) as [[[] p1]|ab]; [|done].
  injection Hrun as <- <-.
  destruct Hloop as (_ & _ & _ & _ & Hobj & Hst). split_and!; [done| |].
  - intros a o Ha. apply Hobj.
    + cbn. by apply lookup_snoc_old.
    + apply lookup_lt_Some in Ha. lia.
  - intros a o s Ha Hs. destruct Hwf as [_ Hslices].
    destruct (stable_registered m p s) as [Hstable Heq].
    { apply valid_slice_elems. eauto. }
    destruct (Hst s Hstable) as [-> _]. done.
Qed.


Lemma schema_each_ext render render' fs :
  Forall (λ x, render x = render' x) fs →
  schema_each render fs = schema_each render' fs.
Proof.
  induction 1 as [|x fs Hx _ IH]; cbn; [done|]. by rewrite Hx, IH.
Qed.

(** Rendering reads the struct behind a pointer, the elements of its
    slice and what these lead to; where two states agree on the structs
    and slice elements of the first, they render its nodes alike. *)
Lemma schema_frame p p' :
  heap_ok p →
  (∀ a o, objects p !! a = Some o → objects p' !! a = Some o) →
  (∀ a o s, objects p !! a = Some o → slice_of o = Some s →
            slice_elems p' s = slice_elems p s) →
  ∀ fuel x, (∀ a, x = Some a → a < length (objects p)) →
            schema fuel p' x = schema fuel p x.
Proof.
  intros ([_ Hslices] & Hch & _) Hobj Helems.
  induction fuel as [|fuel IH]; intros [a|] Hx; try done.
  destruct (lookup_lt_is_Some_2 (objects p) a) as [o Ho]; [by apply Hx|].
  assert (Hkids : ∀ s l, slice_of o = Some s → slice_elems p s = Some l →
            schema_each (schema fuel p') l = schema_each (schema fuel p) l).
  { intros s l Hs Hl. apply schema_each_ext.
    eapply Forall_impl; [by eapply (Hch a o s l)|].
    intros [b|] Hb; [|by destruct fuel]. apply IH. intros ? [= <-].
    destruct Hb as [Hb _]. unfold child_bound in Hb.
    apply lookup_lt_Some in Ho. destruct (is_envelope o); lia. }
  cbn. rewrite (Hobj a o Ho), Ho.
  destruct o as [n ns ty s| |fn tn s| |]; try done.
  - rewrite (Helems a _ s Ho eq_refl).
    destruct (slice_elems p s) as [l|] eqn:Hl; [|done].
    by rewrite (Hkids s l).
  - rewrite (Helems a _ s Ho eq_refl).
    destruct (slice_elems p s) as [l|] eqn:Hl; [|done].
    by rewrite (Hkids s l).
Qed.

(** What a record or node renders to does not depend on the messages
    assembled after it: [processMessage] leaves the rendering of every
    struct that was there before as it was. *)
Theorem processMessage_keeps_renderings m p e p' fuel a :
  heap_ok p → processMessage m p = Ok (e, p') → a < length (objects p) →
  schema fuel p' (Some a) = schema fuel p (Some a).
Proof.
  intros Hok Hrun Ha. pose proof Hok as (Hwf & _).
  destruct (processMessage_frame m p e p' Hwf Hrun) as (_ & Hobj & Hel).
  apply schema_frame; try done. by intros ? [= <-].
Qed.


(** ** Records of scalar and repeated fields *)

(** A field that is repeated or of a scalar type: [processField] sends it
    to [getArrayField] or [getSimpleAvroField]. *)
Definition is_flat (f : FieldDescriptorProto) : bool :=
  fd_IsRepeated f || is_scalar (fd_Type f).

(** The node made for a flat field, and its rendering. *)
Definition flat_node (m : Descriptor) (f : FieldDescriptorProto) : object :=
  if fd_IsRepeated f
  then arrayField (fieldName m f) (getAvroTypeForProtobufType (fd_Type f))
  else simpleField (fieldName m f) (getAvroTypeForProtobufType (fd_Type f)).

Definition flat_schema (m : Descriptor) (f : FieldDescriptorProto) : string :=
  if fd_IsRepeated f
  then arrayField_schema (fieldName m f)
         (getAvroTypeForProtobufType (fd_Type f))
  else simpleField_schema (fieldName m f)
         (getAvroTypeForProtobufType (fd_Type f)).

Lemma processField_flat m f p :
  is_flat f = true → field_ok p f →
  processField m f p =
  Ok ((Some (length (objects p)), None),
      set_objects (λ os, os ++ [flat_node m f]) p).
Proof.
  unfold is_flat, processField, flat_node, field_ok.
  destruct (fd_IsRepeated f).
  - intros _ Hok. unfold as_avroField, getArrayField, bind at 1 2.
    by rewrite (GetFieldName_ok m f p Hok).
  - cbn. intros Hsc _. rewrite Hsc.
    unfold as_avroField, getSimpleAvroField, bind at 1 2.
    by rewrite (GetFieldName_ok m f p) by (by left).
Qed.

Lemma insert_middle {A} (pre : list A) x y rest :
  <[length pre := x]> (pre ++ y :: rest) = pre ++ x :: rest.
Proof. rewrite insert_app_r_alt by done. by rewrite Nat.sub_diag. Qed.

Lemma lookup_middle {A} (pre : list A) y rest :
  (pre ++ y :: rest) !! length pre = Some y.
Proof. rewrite lookup_app_r by done. by rewrite Nat.sub_diag. Qed.

(** The loop of [processMessage] over flat fields: one new node per field
    behind the envelope, in order, and one pointer to each appended to the
    envelope; the cache and the output stay as they are. *)
Lemma processFields_flat m fields :
  forallb is_flat fields = true →
  ∀ p pre n ns ty s l nodes,
    Forall (field_ok p) fields →
    objects p = pre ++ envelope n ns ty s :: nodes →
    slice_elems p s = Some l →
    ∃ s' p',
      processFields m (length pre) fields p = Ok (tt, p') ∧
      objects p' = pre ++ envelope n ns ty s' ::
                   (nodes ++ map (flat_node m) fields) ∧
      slice_elems p' s' =
        Some (l ++ map Some (seq (length pre + S (length nodes)) (length fields))) ∧
      seen p' = seen p ∧ g_objects p' = g_objects p ∧
      fileName p' = fileName p ∧ g_output p' = g_output p.
Proof.
  induction fields as [|f fields IH];
    intros Hflat p pre n ns ty s l nodes Hok Hobj Hl.
  - exists s, p. cbn. rewrite !app_nil_r. done.
  - cbn in Hflat. apply andb_true_iff in Hflat as [Hf Hflat].
    apply Forall_cons in Hok as [Hokf Hok].
    pose (p1 := set_objects (λ os, os ++ [flat_node m f]) p).
    assert (He1 : objects p1 !! length pre = Some (envelope n ns ty s)).
    { cbn. rewrite Hobj, <- (assoc_L (++)). apply lookup_middle. }
    destruct (append_field_spec (length pre) (Some (length (objects p))) p1
                n ns ty s l He1 Hl)
      as (s1 & p2 & Hap & Hobj2 & Hl2 & Hseen2 & Hg2 & Hfile2 & Hout2 & _).
    assert (Hobj2' : objects p2 =
              pre ++ envelope n ns ty s1 :: (nodes ++ [flat_node m f])).
    { rewrite Hobj2. cbn. rewrite Hobj, <- (assoc_L (++)). cbn.
      apply insert_middle. }
    assert (Hok2 : Forall (field_ok p2) fields).
    { eapply Forall_impl; [exact Hok|]. intros f'. by apply field_ok_g. }
    destruct (IH Hflat p2 pre n ns ty s1 _ _ Hok2 Hobj2' Hl2)
      as (s' & p' & Hrun & Hobj' & Hl' & Hseen' & Hg' & Hfile' & Hout').
    exists s', p'. split_and!.
    + cbn [processFields]. unfold bind, assemble_field, bind.
      rewrite (processField_flat m f p Hf Hokf). cbn [fst snd]. fold p1.
      by rewrite Hap.
    + rewrite Hobj'. cbn. by rewrite <- (assoc_L (++)).
    + rewrite Hl'. rewrite <- (assoc_L (++)). cbn.
      assert (length (objects p) = length pre + S (length nodes)) as ->
        by (rewrite Hobj, length_app; cbn; lia).
      assert (length pre + S (length (nodes ++ [flat_node m f]))
              = S (length pre + S (length nodes))) as ->
        by (rewrite length_app; cbn; lia).
      done.
    + by rewrite Hseen', Hseen2.
    + by rewrite Hg', Hg2.
    + by rewrite Hfile', Hfile2.
    + by rewrite Hout', Hout2.
Qed.

Lemma lookup_map {A B} (g : A → B) (l : list A) i :
  map g l !! i = g <$> l !! i.
Proof.
  revert i. induction l as [|x l IH]; intros [|i]; cbn; done.
Qed.

Lemma schema_each_seq render (g : FieldDescriptorProto → string) fields start :
  (∀ i f, fields !! i = Some f → render (Some (start + i)) = Ok (g f)) →
  schema_each render (map Some (seq start (length fields))) = Ok (map g fields).
Proof.
  revert start. induction fields as [|f fields IH]; intros start Hr; [done|].
  cbn. rewrite <- (Nat.add_0_r start) at 1. rewrite (Hr 0 f eq_refl).
  rewrite (IH (S start)); [done|].
  intros i f' Hi. replace (S start + i) with (start + S i) by lia.
  by apply Hr.
Qed.

(** A message whose fields are all repeated or scalar, each repeated one
    of a type [GoType] has a Go type for, is assembled in any state,
    without a look at the cache: the record has exactly one node per
    declared field, in declaration order, a simpleField or an arrayField
    with the generator's field name and the mapped type; the message's name
    is bound to it in the cache; and [createMessageStub] adds the four
    lines of the accessor, returning the quoted text of the record with
    the rendered fields in that order. *)
Theorem createMessageStub_flat m p :
  forallb is_flat (msg_Field m) = true →
  Forall (field_ok p) (msg_Field m) →
  ∃ s p',
    createMessageStub m p = Ok (tt, p') ∧
    objects p' =
      objects p ++
      envelope (CamelCaseSlice (msg_TypeName m)) (fileName p) "record" s ::
      map (flat_node m) (msg_Field m) ∧
    slice_elems p' s =
      Some (map Some (seq (S (length (objects p))) (length (msg_Field m)))) ∧
    seen p' = <[CamelCaseSlice (msg_TypeName m) := Some (length (objects p))]>
                (seen p) ∧
    g_output p' =
      g_output p ++
      [String.concat "" ["func AvroSchemaFor"; msg_Name m; "() string {"];
       "return " +:+
         Quote (envelope_template (CamelCaseSlice (msg_TypeName m)) (fileName p)
                  (GoLib.Join (map (flat_schema m) (msg_Field m)) ", "));
       "}"; ""].
Proof.
  intros Hflat Hok.
  destruct (processFields_flat m (msg_Field m) Hflat (registered m p)
              (objects p) (CamelCaseSlice (msg_TypeName m)) (fileName p) "record"
              (Slice (length (arrays p)) 0) [] [])
    as (s & p1 & Hrun & Hobj & Hl & Hseen & _ & _ & Hout).
  { eapply Forall_impl; [exact Hok|]. intros f. by apply field_ok_g. }
  { done. }
  { apply slice_elems_Some. exists []. cbn.
    split; [apply lookup_snoc_new | done]. }
  cbn [app length] in Hobj, Hl. rewrite Nat.add_1_r in Hl.
  set (text := envelope_template (CamelCaseSlice (msg_TypeName m)) (fileName p)
                 (GoLib.Join (map (flat_schema m) (msg_Field m)) ", ")).
  assert (Hschema : ∀ h fuel,
            schema (S (S fuel)) (set_output h p1) (Some (length (objects p)))
            = Ok text).
  { intros h fuel. cbn. rewrite Hobj, lookup_middle.
    change (slice_elems (set_output h p1) s) with (slice_elems p1 s).
    rewrite Hl.
    rewrite (schema_each_seq _ (flat_schema m)); [done|].
    intros i f Hi. rewrite lookup_app_r by lia.
    replace (S (length (objects p)) + i - length (objects p)) with (S i) by lia.
    change ((?x :: ?l) !! S i) with (l !! i). rewrite lookup_map, Hi. cbn.
    unfold flat_node, flat_schema. by destruct (fd_IsRepeated f). }
  exists s. eexists. split_and!.
  - unfold createMessageStub, bind. rewrite processMessage_unfold, Hrun.
    unfold P, modify, get; cbv beta iota.
    assert (Hlen : ∀ h, length (objects (set_output h p1))
                        = S (S (length (objects p) + length (msg_Field m) - 1))
                  ∨ msg_Field m = []).
    { intros h. cbn. rewrite Hobj, length_app. cbn. rewrite length_map.
      destruct (msg_Field m); [by right | left; cbn; lia]. }
    destruct (msg_Field m) as [|f0 fs] eqn:Hfields.
    + (* no fields: one unit of fuel behind the envelope is enough *)
      assert (Hs0 : ∀ h, schema (S (length (objects (set_output h p1))))
                           (set_output h p1) (Some (length (objects p)))
                         = Ok text).
      { intros h. cbn. rewrite Hobj, lookup_middle.
        change (slice_elems (set_output h p1) s) with (slice_elems p1 s).
        rewrite Hl. reflexivity. }
      rewrite Hs0. reflexivity.
    + destruct (Hlen (λ out, out ++ [String.concat ""
                  ["func AvroSchemaFor"; msg_Name m; "() string {"]]))
        as [Hlen'|]; [|done].
      rewrite Hlen'. rewrite Hschema. reflexivity.
  - done.
  - done.
  - cbn. by rewrite Hseen.
  - cbn. rewrite Hout. cbn. rewrite <- !(assoc_L (++)). done.
Qed.


(** ** References to records in the cache *)

(** The loop of [processMessage] appends one element per field to the
    elements the envelope has. *)
Lemma processFields_extends m e n ns ty fields p0 s0 l0 :
  wf p0 → objects p0 !! e = Some (envelope n ns ty s0) →
  slice_elems p0 s0 = Some l0 →
  post (processFields m e fields) p0
    (λ _ p', g_objects p' = g_objects p0 ∧
             ∃ s' l', objects p' !! e = Some (envelope n ns ty s') ∧
                      slice_elems p' s' = Some (l0 ++ l') ∧
                      length l' = length fields)
    (λ ab, ¬ Forall (field_ok p0) fields).
Proof.
  intros Hwf He Hl.
  eapply post_mono;
    [apply (processFields_rule m e
      (λ done p', wf p' ∧ g_objects p' = g_objects p0 ∧
                  ∃ s' l', objects p' !! e = Some (envelope n ns ty s') ∧
                           slice_elems p' s' = Some (l0 ++ l') ∧
                           length l' = length done)
      (λ ab, ¬ Forall (field_ok p0) fields))| |done].
  - intros done f rest p Hfields (Hwf1 & Hg & s1 & l1 & He1 & Hl1 & Hlen).
    eapply post_mono; [by eapply assemble_field_spec| |].
    + intros u p' (x & s' & Hwf' & He' & Hl' & Hg' & _).
      split_and!; [done|congruence|].
      exists s', (l1 ++ [x]). rewrite (assoc_L (++)), !length_app. cbn.
      split_and!; [done|done|lia].
    + intros ab (_ & _ & Hbad) Hall. apply Hbad. apply (field_ok_g p0); [done|].
      rewrite Forall_forall in Hall. apply Hall. rewrite Hfields.
      rewrite elem_of_app, elem_of_cons. auto.
  - split_and!; [done..|]. exists s0, []. by rewrite app_nil_r.
  - intros u p' (_ & ? & ?). done.
Qed.

(** The loop body on a field whose type is found in the cache as an
    envelope: the node is a new complexField on that envelope's slice. *)
Lemma assemble_field_hit m e f p n ns ty s l k e0 n0 ns0 ty0 s0 :
  objects p !! e = Some (envelope n ns ty s) → slice_elems p s = Some l →
  is_message_field f = true → short_type_name f = Some k →
  seen p !! k = Some (Some e0) →
  objects p !! e0 = Some (envelope n0 ns0 ty0 s0) →
  ∃ s' p',
    assemble_field m e f p = Ok (tt, p') ∧
    objects p' !! e = Some (envelope n ns ty s') ∧
    slice_elems p' s' = Some (l ++ [Some (length (objects p))]) ∧
    objects p' !! length (objects p)
      = Some (complexField (CamelCase (fd_Name f)) k s0).
Proof.
  intros He Hl [Hrep Hty]%is_message_field_true Hk Hseen He0.
  pose (p1 := set_objects
                (λ os, os ++ [complexField (CamelCase (fd_Name f)) k s0]) p).
  assert (Hfield : processField m f p
                   = Ok ((Some (length (objects p)), None), p1)).
  { unfold processField. rewrite Hrep, Hty. cbn.
    unfold as_avroField, bind.
    by rewrite (getComplexField_cached_envelope m f p k e0 n0 ns0 ty0 s0). }
  assert (He1 : objects p1 !! e = Some (envelope n ns ty s))
    by (by apply lookup_snoc_old).
  destruct (append_field_spec e (Some (length (objects p))) p1 n ns ty s l He1 Hl)
    as (s' & p2 & Hap & Hobj2 & Hl2 & _).
  assert (Hlt : e < length (objects p)) by (by eapply lookup_lt_Some).
  exists s', p2. split_and!.
  - unfold assemble_field, bind. rewrite Hfield. cbn [fst snd]. exact Hap.
  - rewrite Hobj2. apply list_lookup_insert_eq. cbn. rewrite length_app. lia.
  - done.
  - rewrite Hobj2, list_lookup_insert_ne by lia. cbn. apply lookup_snoc_new.
Qed.

(** A field whose type was assembled before: when the short name of the
    type is bound to that record's envelope, differs from the name of the
    message under assembly, and is not the camel-cased name of an earlier
    message-typed field, the node for the field is a new complexField on
    the envelope's slice; it holds all the nodes of the record, and the
    record's fields are not classified again. *)
Theorem reference_to_assembled_record m p i f k e0 n0 ns0 ty0 s0 l0 :
  wf p → Forall (field_ok p) (msg_Field m) →
  msg_Field m !! i = Some f → is_message_field f = true →
  short_type_name f = Some k →
  seen p !! k = Some (Some e0) →
  objects p !! e0 = Some (envelope n0 ns0 ty0 s0) →
  slice_elems p s0 = Some l0 →
  k ≠ CamelCaseSlice (msg_TypeName m) →
  (∀ f', f' ∈ take i (msg_Field m) → is_message_field f' = true →
         CamelCase (fd_Name f') ≠ k) →
  ∃ e p' n ns ty s l a,
    processMessage m p = Ok (e, p') ∧
    objects p' !! e = Some (envelope n ns ty s) ∧
    slice_elems p' s = Some l ∧ length l = length (msg_Field m) ∧
    l !! i = Some (Some a) ∧ length (objects p) < a ∧
    objects p' !! a = Some (complexField (CamelCase (fd_Name f)) k s0) ∧
    objects p' !! e0 = Some (envelope n0 ns0 ty0 s0) ∧
    slice_elems p' s0 = Some l0.
Proof.
  intros Hwf Hall Hi Hf Hk Hseen He0 Hl0 Hkey Hnames.
  pose proof (take_drop_middle _ _ _ Hi) as Hsplit.
  set (pre := take i (msg_Field m)) in *.
  set (post_fields := drop (S i) (msg_Field m)) in *.
  assert (Hall' : Forall (field_ok p) pre ∧ Forall (field_ok p) post_fields).
  { rewrite <- Hsplit in Hall. apply Forall_app in Hall as [? Hall].
    apply Forall_cons in Hall as [_ ?]. done. }
  destruct Hall' as [Hpre Hpost].
  set (e := length (objects p)). set (p0 := registered m p).
  pose proof (registered_assembling m p Hwf) as (Hwf0 & _).
  assert (He : objects p0 !! e = Some
            (envelope (CamelCaseSlice (msg_TypeName m)) (fileName p) "record"
               (Slice (length (arrays p)) 0))) by apply lookup_snoc_new.
  assert (Hle : slice_elems p0 (Slice (length (arrays p)) 0) = Some []).
  { apply slice_elems_Some. exists []. cbn.
    split; [apply lookup_snoc_new | done]. }
  assert (Hlt0 : e0 < e) by (by eapply lookup_lt_Some).
  destruct (stable_registered m p s0) as [Hst0 Heq0]; [eauto|].
  (* the fields before position i *)
  pose proof (post_conj _ _ _ _ _ _
                (processFields_frame m e _ _ _ pre p0 _ Hwf0 He)
                (processFields_extends m e _ _ _ pre p0 _ _ Hwf0 He Hle)) as H1.
  unfold post in H1.
  destruct (processFields m e pre p0) as [[[] p1]|ab] eqn:Hrun1.
  2:{ destruct H1 as [_ Hbad]. destruct Hbad.
      eapply Forall_impl; [exact Hpre|]. intros f'. by apply field_ok_g. }
  destruct H1 as [(Hwf1 & _ & _ & Hseen1 & Hobj1 & Hstab1)
                  (Hg1 & s1 & l1 & He1 & Hl1 & Hlen1)].
  cbn in Hl1.
  assert (Hseen1' : seen p1 !! k = Some (Some e0)).
  { etrans; [exact (Hseen1 k Hnames)|]. cbn.
    rewrite lookup_insert_ne by done. exact Hseen. }
  assert (He01 : objects p1 !! e0 = Some (envelope n0 ns0 ty0 s0)).
  { apply Hobj1; [|lia]. cbn. by apply lookup_snoc_old. }
  destruct (Hstab1 s0 Hst0) as [Hel1 Hst1].
  (* the field at position i *)
  destruct (assemble_field_hit m e f p1 _ _ _ s1 l1 k e0 n0 ns0 ty0 s0
              He1 Hl1 Hf Hk Hseen1' He01)
    as (s2 & p2 & Hrun2 & He2 & Hl2 & Ha2).
  pose proof (assemble_field_spec m e f p1 _ _ _ s1 l1 Hwf1 He1 Hl1) as H2.
  unfold post in H2. rewrite Hrun2 in H2.
  destruct H2 as (_ & _ & Hwf2 & _ & _ & Hg2 & _ & _ & _ & Hstab2 & _).
  destruct (Hstab2 s0 Hst1) as [Hel2 Hst2].
  assert (Hlen_p1 : e < length (objects p1)) by (by eapply lookup_lt_Some).
  (* the fields after position i *)
  pose proof (post_conj _ _ _ _ _ _
                (processFields_frame m e _ _ _ post_fields p2 _ Hwf2 He2)
                (processFields_extends m e _ _ _ post_fields p2 _ _ Hwf2 He2 Hl2))
    as H3.
  unfold post in H3.
  destruct (processFields m e post_fields p2) as [[[] p3]|ab] eqn:Hrun3.
  2:{ destruct H3 as [_ Hbad]. destruct Hbad.
      eapply Forall_impl; [exact Hpost|]. intros f'.
      apply field_ok_g. rewrite Hg2, Hg1. done. }
  destruct H3 as [(_ & _ & _ & _ & Hobj3 & Hstab3)
                  (_ & s3 & l3 & He3 & Hl3 & Hlen3)].
  destruct (Hstab3 s0 Hst2) as [Hel3 _].
  exists e, p3. eexists _, _, _, s3, _, (length (objects p1)).
  split_and!.
  - rewrite processMessage_unfold. fold p0 e. rewrite <- Hsplit.
    rewrite processFields_app, Hrun1. cbn [processFields]. unfold bind.
    by rewrite Hrun2, Hrun3.
  - exact He3.
  - exact Hl3.
  - assert (Hlenf : length (msg_Field m) = length pre + S (length post_fields)).
    { rewrite <- Hsplit at 1. by rewrite length_app. }
    rewrite !length_app. cbn. lia.
  - rewrite <- (assoc_L (++)). cbn.
    assert (i = length l1) as ->.
    { rewrite Hlen1. unfold pre. rewrite length_take.
      apply lookup_lt_Some in Hi. lia. }
    apply lookup_middle.
  - unfold e in Hlen_p1. lia.
  - apply Hobj3; [done|lia].
  - apply Hobj3; [|lia].
    pose proof (assemble_field_spec m e f p1 _ _ _ s1 l1 Hwf1 He1 Hl1) as H2.
    unfold post in H2. rewrite Hrun2 in H2.
    destruct H2 as (_ & _ & _ & _ & _ & _ & _ & _ & _ & _ & Hkeep & _).
    apply Hkeep; [done|lia].
  - rewrite Hel3, Hel2, Hel1. unfold p0. by rewrite Heq0.
Qed.


(** A miss: a new complexField on a new empty slice, bound to the
    camel-cased field name. *)
Lemma getComplexField_miss m f p k :
  short_type_name f = Some k → seen p !! k = None →
  getComplexField m f p =
  Ok ((length (objects p), None),
      set_seen (<[CamelCase (fd_Name f) := Some (length (objects p))]>)
        (set_objects
           (λ os, os ++ [complexField (CamelCase (fd_Name f)) k
                           (Slice (length (arrays p)) 0)])
           (set_arrays (λ bs, bs ++ [[]]) p))).
Proof.
  intros Htn Hmiss.
  destruct (last_of_Split (CamelCase (fd_TypeName f)) "." p)
    as (tn0 & Hlast & Htn0).
  unfold short_type_name in Htn. assert (tn0 = k) as -> by congruence.
  unfold getComplexField, bind, get; cbv beta iota.
  rewrite Hlast; cbv beta iota.
  destruct (seen p !! k) as [cached|]; [done|]. reflexivity.
Qed.

(** Two references to a type that is not in the cache, one after the
    other: the first makes a node and binds it to its camel-cased field
    name; the second gets that very node, with no change of the state,
    when that name is the short name of the type, and makes a node of its
    own when it is not. *)
Theorem second_reference_after_a_miss m1 f1 m2 f2 p k :
  short_type_name f1 = Some k → seen p !! k = None →
  short_type_name f2 = Some k →
  ∃ p1 a2 p2,
    getComplexField m1 f1 p = Ok ((length (objects p), None), p1) ∧
    getComplexField m2 f2 p1 = Ok ((a2, None), p2) ∧
    (CamelCase (fd_Name f1) = k → a2 = length (objects p) ∧ p2 = p1) ∧
    (CamelCase (fd_Name f1) ≠ k →
       a2 = S (length (objects p)) ∧
       objects p2 = objects p1 ++
         [complexField (CamelCase (fd_Name f2)) k
            (Slice (S (length (arrays p))) 0)]).
Proof.
  intros Hk1 Hmiss Hk2.
  rewrite (getComplexField_miss m1 f1 p k Hk1 Hmiss).
  set (p1 := set_seen _ _).
  destruct (decide (CamelCase (fd_Name f1) = k)) as [Heq|Hne].
  - exists p1, (length (objects p)), p1. split_and!; [done| |done|done].
    eapply (getComplexField_cached_node m2 f2 p1 k); [done| |].
    + unfold p1. cbn. rewrite Heq. apply lookup_insert_eq.
    + unfold p1. cbn. apply lookup_snoc_new.
  - eexists p1, _, _. split_and!; [done| |done|].
    + apply (getComplexField_miss m2 f2 p1 k Hk2).
      unfold p1. cbn. by rewrite lookup_insert_ne.
    + intros _. unfold p1. cbn. rewrite !length_app. cbn.
      rewrite !Nat.add_1_r. done.
Qed.

(** ** Group fields *)

Lemma schema_each_hits_nil render l i :
  Forall (λ x, rendered (render x)) l → l !! i = Some None →
  render None = Abort (Panic nil_dereference) →
  schema_each render l = Abort (Panic nil_dereference).
Proof.
  intros Hall. revert i. induction Hall as [|x l Hx _ IH]; intros i Hi Hnil.
  - by rewrite lookup_nil in Hi.
  - cbn. destruct i as [|i].
    + injection Hi as ->. by rewrite Hnil.
    + destruct (render x) as [s|ab]; [|by rewrite Hx].
      by rewrite (IH i Hi Hnil).
Qed.

(** An envelope with a nil element does not render. *)
Lemma schema_envelope_nil p e n ns ty s l i :
  heap_ok p → objects p !! e = Some (envelope n ns ty s) →
  slice_elems p s = Some l → l !! i = Some None →
  schema (S (length (objects p))) p (Some e) = Abort (Panic nil_dereference).
Proof.
  intros Hok He Hl Hi. pose proof Hok as (_ & Hch & _). cbn. rewrite He, Hl.
  rewrite (schema_each_hits_nil _ l i); [done| |done|].
  - eapply Forall_impl; [by eapply (Hch _ _ s l He)|].
    intros y Hy. by apply schema_node_rendered.
  - by destruct (length (objects p)).
Qed.

(** A message with a non-repeated group field among acceptable fields is
    assembled, with a nil node at the place of the group field, and cannot
    be rendered: [createMessageStub] panics with a nil dereference when it
    asks the record for its schema. *)
Theorem createMessageStub_panics_on_group_field m p i f :
  heap_ok p → Forall (field_ok p) (msg_Field m) →
  msg_Field m !! i = Some f →
  fd_IsRepeated f = false → fd_Type f = TYPE_GROUP →
  (∃ e p' n ns ty s l,
     processMessage m p = Ok (e, p') ∧
     objects p' !! e = Some (envelope n ns ty s) ∧
     slice_elems p' s = Some l ∧ l !! i = Some None) ∧
  createMessageStub m p = Abort (Panic nil_dereference).
Proof.
  intros Hok Hall Hi Hrep Hty. pose proof Hok as (Hwf & _).
  destruct (processMessage_total m p Hwf Hall)
    as (p1 & Hrun & Hloop &
        _ & _ & _ & _ & _ & _ & _ & s & l & He & Hl & Hlen & Hnodes).
  assert (Hnil : l !! i = Some None).
  { destruct (lookup_lt_is_Some_2 l i) as [x Hx].
    { rewrite Hlen. by eapply lookup_lt_Some. }
    destruct (Hnodes i f x Hi Hx) as (_ & _ & Hgroup).
    specialize (Hgroup Hrep Hty). subst x. exact Hx. }
  split; [by eexists _, _, _, _, _, _, _|].
  pose proof (processFields_heap_ok m (length (objects p)) (msg_Field m)
                (registered m p) _ _ _ _ (heap_ok_registered m p Hok)
                (lookup_snoc_new _ _)) as Hheap.
  unfold post in Hheap. rewrite Hloop in Hheap. destruct Hheap as [Hok1 _].
  unfold createMessageStub, bind. rewrite Hrun.
  unfold P, modify, get; cbv beta iota.
  by erewrite (schema_envelope_nil _ (length (objects p)) _ _ _ s l i).
Qed.


(** ** Runs that succeed *)

(** Every element of every struct's slice satisfies [φ]. *)
Definition all_cells (φ : avroField → Prop) (p : avroschema) : Prop :=
  ∀ a o s l, objects p !! a = Some o → slice_of o = Some s →
    slice_elems p s = Some l → Forall φ l.

(** A field that is not a non-repeated group field. *)
Definition not_group (f : FieldDescriptorProto) : Prop :=
  fd_IsRepeated f = true ∨ fd_Type f ≠ TYPE_GROUP.

Lemma shape_all_cells φ p x p' :
  heap_ok p → all_cells φ p → shape p x p' → all_cells φ p'.
Proof.
  intros ([_ Hslices] & _ & _) Hall Hshape.
  destruct Hshape as [|a fn tn s Ha|o Ho|e n ns ty s fn tn He|fn tn k];
    try done.
  - intros a o' s l Ha Hs Hl. cbn in Ha.
    apply lookup_snoc_inv in Ha as [Ha|[-> ->]]; [|congruence].
    by eapply (Hall a o' s l).
  - intros a o' s' l Ha Hs Hl. cbn in Ha.
    apply lookup_snoc_inv in Ha as [Ha|[-> ->]]; [by eapply (Hall a o' s' l)|].
    cbn in Hs. injection Hs as <-. by eapply (Hall e _ s l He).
  - intros a o' s' l Ha Hs Hl. cbn in Ha.
    apply lookup_snoc_inv in Ha as [Ha|[-> ->]].
    + destruct (Hslices a o' s' Ha Hs) as (c & Hc & Hle).
      eapply (Hall a o' s' l); [done..|].
      unfold slice_elems in *. cbn in Hl.
      rewrite lookup_app_l in Hl; [done|]. by eapply lookup_lt_Some.
    + cbn in Hs. injection Hs as <-.
      apply slice_elems_Some in Hl as (c & _ & _ & ->). cbn.
      rewrite take_0. constructor.
Qed.

Lemma append_field_all_cells φ e x p n ns ty s p' :
  heap_ok p → all_cells φ p → objects p !! e = Some (envelope n ns ty s) →
  φ x → append_field e x p = Ok (tt, p') → all_cells φ p'.
Proof.
  intros ([_ Hslices] & _ & Hown) Hall He Hx Hrun.
  destruct (proj1 (valid_slice_elems p s) (Hslices e _ s He eq_refl)) as [l Hl].
  destruct (append_field_spec e x p n ns ty s l He Hl)
    as (s' & p1 & Hap & Hobj & Hl' & _ & _ & _ & _ & _ & _ & _ & _ & Hkeep).
  rewrite Hap in Hrun. injection Hrun as <-.
  assert (Hlt : e < length (objects p)) by (by eapply lookup_lt_Some).
  intros a o t lt Ha Ht Hlt'. rewrite Hobj in Ha.
  destruct (decide (a = e)) as [->|Hne].
  - rewrite list_lookup_insert_eq in Ha by done. injection Ha as <-.
    cbn in Ht. injection Ht as <-. rewrite Hl' in Hlt'. injection Hlt' as <-.
    apply Forall_app. split; [by eapply (Hall e _ s l He)|]. by repeat constructor.
  - rewrite list_lookup_insert_ne in Ha by done.
    eapply (Hall a o t lt); [done..|]. rewrite <- Hlt'. symmetry.
    apply Hkeep.
    + apply valid_slice_elems. eauto.
    + intros Harr. by destruct (Hown a o t e n ns ty s Ha Ht He Harr).
Qed.

Lemma registered_all_cells φ m p :
  wf p → all_cells φ p → all_cells φ (registered m p).
Proof.
  intros [_ Hslices] Hall a o s l Ha Hs Hl. cbn in Ha.
  apply lookup_snoc_inv in Ha as [Ha|[-> ->]].
  - destruct (Hslices a o s Ha Hs) as (c & Hc & Hle).
    eapply (Hall a o s l); [done..|].
    unfold slice_elems in *. cbn in Hl.
    rewrite lookup_app_l in Hl; [done|]. by eapply lookup_lt_Some.
  - cbn in Hs. injection Hs as <-.
    apply slice_elems_Some in Hl as (c & _ & _ & ->). cbn.
    rewrite take_0. constructor.
Qed.

(** Only a non-repeated group field is classified to the nil node. *)
Lemma processField_node m f p x err p' :
  processField m f p = Ok ((x, err), p') → not_group f → is_Some x.
Proof.
  assert (Has : ∀ c, as_avroField c p = Ok ((x, err), p') → is_Some x).
  { intros c. unfold as_avroField, bind, ret.
    destruct (c p) as [[r p1]|]; [|done]. intros [= <- _ _]. eauto. }
  unfold processField.
  destruct (fd_IsRepeated f) eqn:Hrep; [intros H _; by eapply Has|].
  destruct (is_scalar (fd_Type f)); [intros H _; by eapply Has|].
  destruct (fd_Type f =? TYPE_MESSAGE)%Z; [intros H _; by eapply Has|].
  destruct (fd_Type f =? TYPE_ENUM)%Z; [intros H _; by eapply Has|].
  destruct (fd_Type f =? TYPE_GROUP)%Z eqn:Hg; [|done].
  apply Z.eqb_eq in Hg. intros _ [?|?]; congruence.
Qed.

Lemma processFields_succeeds m e n ns ty fields p0 s0 :
  heap_ok p0 → all_cells is_Some p0 →
  objects p0 !! e = Some (envelope n ns ty s0) →
  Forall (field_ok p0) fields → Forall not_group fields →
  post (processFields m e fields) p0
    (λ _ p', heap_ok p' ∧ all_cells is_Some p' ∧
             ∃ s', objects p' !! e = Some (envelope n ns ty s'))
    (λ _, False).
Proof.
  intros Hok Hall He Hfields Hng.
  eapply post_mono;
    [apply (processFields_rule m e
      (λ _ p', (heap_ok p' ∧ g_objects p' = g_objects p0) ∧
               all_cells is_Some p' ∧
               ∃ s', objects p' !! e = Some (envelope n ns ty s'))
      (λ _, False))| |done].
  - intros done f rest p Hsplit ([Hok1 Hg1] & Hall1 & s1 & He1).
    assert (Hin : f ∈ fields).
    { rewrite Hsplit, elem_of_app, elem_of_cons. auto. }
    rewrite Forall_forall in Hfields, Hng.
    pose proof Hok1 as (Hwf1 & _).
    assert (Hf : field_ok p f) by (apply (field_ok_g p0); auto).
    destruct (proj1 (processField_cases m f p Hwf1) Hf)
      as (x & p1 & Hrun).
    pose proof (processField_shape m f p Hwf1) as Hshape.
    pose proof (processField_spec m f p Hwf1) as Hspec.
    unfold post in Hspec. rewrite Hrun in Hshape, Hspec.
    destruct Hshape as [_ Hshape]. destruct Hspec as (_ & Hwf2 & Hgrow & _).
    cbn [fst snd] in *.
    destruct (shape_heap_ok p x p1 Hok1 Hshape) as (Hch2 & Hown2 & Hx & Hkeep).
    assert (Hok2 : heap_ok p1) by (by split_and!).
    pose proof (shape_all_cells is_Some p x p1 Hok1 Hall1 Hshape) as Hall2.
    destruct (append_field_heap_ok e x p1 n ns ty s1 Hok2 (Hkeep _ _ He1) Hx)
      as (s2 & p2 & Hap & Hok3 & He3).
    unfold post, assemble_field, bind. rewrite Hrun. cbn [fst snd].
    rewrite Hap. split_and!; [done| |  |eauto].
    + destruct Hgrow as (Hg2 & _).
      pose proof Hok2 as ([_ Hslices2] & _).
      destruct (proj1 (valid_slice_elems p1 s1)
                  (Hslices2 e _ s1 (Hkeep _ _ He1) eq_refl)) as [l1 Hl1].
      destruct (append_field_spec e x p1 n ns ty s1 l1 (Hkeep _ _ He1) Hl1)
        as (s2' & p2' & Hap' & _ & _ & _ & Hg3 & _).
      rewrite Hap in Hap'. injection Hap' as <-. congruence.
    + eapply (append_field_all_cells is_Some e x p1); eauto.
      eapply processField_node; eauto.
  - split_and!; eauto.
  - intros u p' ([? _] & ? & ?). done.
Qed.

Lemma schema_each_text render l :
  Forall (λ x, ∃ t, render x = Ok t) l → ∃ ts, schema_each render l = Ok ts.
Proof.
  induction 1 as [|x l [t Ht] _ [ts IH]]; cbn; [eauto|].
  rewrite Ht, IH. eauto.
Qed.

(** A node whose slices hold no nil element renders to a text. *)
Lemma schema_node_text p fuel :
  heap_ok p → all_cells is_Some p →
  ∀ x, node_ok p fuel x → is_Some x → ∃ text, schema fuel p x = Ok text.
Proof.
  intros ([_ Hslices] & Hch & _) Hall.
  induction fuel as [|fuel IH]; intros [b|] Hb [? [=]]; [destruct Hb; lia|].
  destruct Hb as (Hb & o & Ho & Hne). cbn. rewrite Ho.
  destruct o as [| |fn tn s| |]; try done; eauto.
  destruct (proj1 (valid_slice_elems p s) (Hslices b _ s Ho eq_refl)) as [l Hl].
  rewrite Hl.
  destruct (schema_each_text (schema fuel p) l) as [ts ->]; [|eauto].
  pose proof (Hch b _ s l Ho eq_refl Hl) as Hkids.
  pose proof (Hall b _ s l Ho eq_refl Hl) as Hset.
  rewrite Forall_forall in Hkids, Hset. apply Forall_forall. intros y Hy.
  apply IH; [|by apply Hset].
  eapply node_ok_mono; [| |by apply Hkids]; [eauto|].
  unfold child_bound. cbn. lia.
Qed.

Lemma schema_envelope_text p e n ns ty s :
  heap_ok p → all_cells is_Some p →
  objects p !! e = Some (envelope n ns ty s) →
  ∃ text, schema (S (length (objects p))) p (Some e) = Ok text.
Proof.
  intros Hok Hall He. pose proof Hok as ([_ Hslices] & Hch & _).
  cbn. rewrite He.
  destruct (proj1 (valid_slice_elems p s) (Hslices e _ s He eq_refl)) as [l Hl].
  rewrite Hl.
  destruct (schema_each_text (schema (length (objects p)) p) l) as [ts ->];
    [|eauto].
  pose proof (Hch e _ s l He eq_refl Hl) as Hkids.
  pose proof (Hall e _ s l He eq_refl Hl) as Hset.
  rewrite Forall_forall in Hkids, Hset. apply Forall_forall. intros y Hy.
  apply schema_node_text; auto.
Qed.

(** Rendering does not read the output buffer. *)
Lemma schema_set_output h p fuel x :
  schema fuel (set_output h p) x = schema fuel p x.
Proof.
  revert x. induction fuel as [|fuel IH]; intros [a|]; try done. cbn.
  destruct (objects p !! a) as [[n ns ty s| |fn tn s| |]|]; try done.
  - change (slice_elems (set_output h p) s) with (slice_elems p s).
    destruct (slice_elems p s) as [l|]; [|done].
    rewrite (schema_each_ext _ (schema fuel p)); [done|].
    apply Forall_forall. intros y _. apply IH.
  - change (slice_elems (set_output h p) s) with (slice_elems p s).
    destruct (slice_elems p s) as [l|]; [|done].
    rewrite (schema_each_ext _ (schema fuel p)); [done|].
    apply Forall_forall. intros y _. apply IH.
Qed.

(** In a state without nil elements, a message whose fields are
    acceptable and not group fields is assembled and rendered:
    [createMessageStub] returns and adds the four lines of the accessor
    with the quoted text of the record, and the state is again one without
    nil elements. *)
Lemma createMessageStub_accepted m p :
  heap_ok p → all_cells is_Some p →
  Forall (field_ok p) (msg_Field m) → Forall not_group (msg_Field m) →
  ∃ e p1 text p',
    processMessage m p = Ok (e, p1) ∧
    schema (S (length (objects p1))) p1 (Some e) = Ok text ∧
    createMessageStub m p = Ok (tt, p') ∧
    g_output p' =
      g_output p ++
      [String.concat "" ["func AvroSchemaFor"; msg_Name m; "() string {"];
       "return " +:+ Quote text; "}"; ""] ∧
    g_objects p' = g_objects p ∧
    heap_ok p' ∧ all_cells is_Some p'.
Proof.
  intros Hok Hall Hfields Hng. pose proof Hok as (Hwf & _).
  destruct (processMessage_total m p Hwf Hfields)
    as (p1 & Hrun & Hloop & _ & Hg & _ & Hout & _).
  pose proof (processFields_succeeds m (length (objects p)) _ _ _ (msg_Field m)
                (registered m p) _ (heap_ok_registered m p Hok)
                (registered_all_cells _ m p Hwf Hall) (lookup_snoc_new _ _))
    as Hsucc.
  unfold post in Hsucc. rewrite Hloop in Hsucc.
  destruct Hsucc as (Hok1 & Hall1 & s1 & He1); [done..|].
  destruct (schema_envelope_text p1 _ _ _ _ s1 Hok1 Hall1 He1) as [text Htext].
  exists (length (objects p)), p1, text. eexists. split_and!; [done|done| | | | |].
  - unfold createMessageStub, bind. rewrite Hrun.
    unfold P, modify, get; cbv beta iota.
    rewrite schema_set_output.
    change (objects (set_output _ p1)) with (objects p1).
    rewrite Htext. reflexivity.
  - cbn. rewrite Hout. cbn. by rewrite <- !(assoc_L (++)).
  - cbn. by rewrite Hg.
  - exact Hok1.
  - exact Hall1.
Qed.


(** The four lines [createMessageStub] prints for a message whose record
    renders to [text]. *)
Definition accessor (m : Descriptor) (text : string) : list string :=
  [String.concat "" ["func AvroSchemaFor"; msg_Name m; "() string {"];
   "return " +:+ Quote text; "}"; ""].

(** The messages of the files of a run that carry the option, in the
    order [Generate] meets them. *)
Definition opted_in (messages : list Descriptor) : list Descriptor :=
  filter (λ m, msg_HasAvroSchema m = true) messages.

(** A message [Generate] gets through: it does not carry the option, or
    its fields are acceptable and none is a non-repeated group field. *)
Definition message_accepted (p : avroschema) (m : Descriptor) : Prop :=
  msg_HasAvroSchema m = true →
  Forall (field_ok p) (msg_Field m) ∧ Forall not_group (msg_Field m).

Lemma message_accepted_g p p' m :
  g_objects p' = g_objects p → message_accepted p m → message_accepted p' m.
Proof.
  intros Hg Hm Hopt. destruct (Hm Hopt) as [Hf Hng]. split; [|done].
  eapply Forall_impl; [exact Hf|]. intros f. by apply field_ok_g.
Qed.

(** The structs of [p], and the elements of their slices, are in [p'] as
    they are in [p]. *)
Definition extends (p p' : avroschema) : Prop :=
  (∀ a o, objects p !! a = Some o → objects p' !! a = Some o) ∧
  (∀ a o s, objects p !! a = Some o → slice_of o = Some s →
            slice_elems p' s = slice_elems p s).

Lemma extends_refl p : extends p p.
Proof. by split. Qed.

Lemma extends_trans p1 p2 p3 : extends p1 p2 → extends p2 p3 → extends p1 p3.
Proof.
  intros [Ho1 He1] [Ho2 He2]. split; [by auto|].
  intros a o s Ha Hs. rewrite (He2 a o s); eauto.
Qed.

Lemma extends_length p p' :
  extends p p' → length (objects p) ≤ length (objects p').
Proof.
  intros [Hobj _]. destruct (length (objects p)) as [|n] eqn:Hlen; [lia|].
  destruct (lookup_lt_is_Some_2 (objects p) n) as [o Ho]; [lia|].
  apply Hobj, lookup_lt_Some in Ho. lia.
Qed.

Lemma schema_each_mono render render' fs ss :
  (∀ f s, render f = Ok s → render' f = Ok s) →
  schema_each render fs = Ok ss → schema_each render' fs = Ok ss.
Proof.
  intros Hr. revert ss. induction fs as [|f fs IH]; intros ss; cbn; [done|].
  destruct (render f) as [t|] eqn:Hf; [|done]. rewrite (Hr _ _ Hf).
  destruct (schema_each render fs) as [ts|]; [|done].
  by rewrite (IH ts eq_refl).
Qed.

(** A rendering that returns does so with any larger bound on the
    recursion, and gives the same text. *)
Lemma schema_fuel_mono p n n' x text :
  schema n p x = Ok text → n ≤ n' → schema n' p x = Ok text.
Proof.
  revert n' x text. induction n as [|n IH]; intros n' [a|] text; try done.
  intros Hs Hle. destruct n' as [|n']; [lia|]. cbn in *.
  destruct (objects p !! a) as [[nm ns ty s| |fn tn s| |]|]; try done.
  - destruct (slice_elems p s) as [fs|]; [|done].
    destruct (schema_each (schema n p) fs) as [ss|] eqn:Hfs; [|done].
    rewrite (schema_each_mono _ (schema n' p) _ _ ltac:(intros; apply IH; [done|lia]) Hfs).
    done.
  - destruct (slice_elems p s) as [fs|]; [|done].
    destruct (schema_each (schema n p) fs) as [ss|] eqn:Hfs; [|done].
    rewrite (schema_each_mono _ (schema n' p) _ _ ltac:(intros; apply IH; [done|lia]) Hfs).
    done.
Qed.

(** The record of the message [m] is the envelope at [st.1] in state [p],
    and it renders to the text [st.2]. *)
Definition stub_of (p : avroschema) (m : Descriptor) (st : nat * string) : Prop :=
  (∃ ns s, objects p !! st.1
           = Some (envelope (CamelCaseSlice (msg_TypeName m)) ns "record" s)) ∧
  schema (S (length (objects p))) p (Some st.1) = Ok st.2.

Lemma stub_of_extends p p' m st :
  heap_ok p → extends p p' → stub_of p m st → stub_of p' m st.
Proof.
  intros Hok Hext [(ns & s & He) Htext]. pose proof Hext as [Hobj Hel]. split.
  - exists ns, s. by apply Hobj.
  - apply (schema_fuel_mono p' (S (length (objects p)))).
    + rewrite (schema_frame p p' Hok Hobj Hel); [done|].
      intros a [= <-]. by eapply lookup_lt_Some.
    + apply extends_length in Hext. lia.
Qed.

(** [createMessageStub] on an accepted message: the record it makes and
    the text it prints. *)
Lemma createMessageStub_stub m p :
  heap_ok p → all_cells is_Some p →
  Forall (field_ok p) (msg_Field m) → Forall not_group (msg_Field m) →
  ∃ st p',
    createMessageStub m p = Ok (tt, p') ∧
    stub_of p' m st ∧ extends p p' ∧
    g_output p' = g_output p ++ accessor m st.2 ∧
    g_objects p' = g_objects p ∧ heap_ok p' ∧ all_cells is_Some p'.
Proof.
  intros Hok Hall Hfields Hng. pose proof Hok as (Hwf & _).
  destruct (createMessageStub_accepted m p Hok Hall Hfields Hng)
    as (e & p1 & text & p' & Hrun & Htext & Hstub & Hout & Hg & Hok' & Hall').
  destruct (processMessage_total m p Hwf Hfields)
    as (p1' & Hrun' & _ & _ & _ & _ & _ & _ & _ & _ & s & l & He & _).
  rewrite Hrun in Hrun'. injection Hrun' as -> <-.
  destruct (processMessage_frame m p _ p1 Hwf Hrun) as (_ & Hobj & Hel).
  pose proof Hstub as Hstub0.
  unfold createMessageStub, bind in Hstub. rewrite Hrun in Hstub.
  unfold P, modify, get in Hstub; cbv beta iota in Hstub.
  rewrite schema_set_output in Hstub.
  change (objects (set_output _ p1)) with (objects p1) in Hstub.
  rewrite Htext in Hstub. injection Hstub as Hp'.
  exists (length (objects p), text), p'. split_and!; try done.
  - subst p'. split; [by eexists _, _|]. cbn [fst snd].
    rewrite !schema_set_output. exact Htext.
  - subst p'. split; [exact Hobj|]. intros a o t Ha Ht.
    exact (Hel a o t Ha Ht).
Qed.

Lemma generateMessages_succeeds messages p :
  heap_ok p → all_cells is_Some p →
  Forall (message_accepted p) messages →
  ∃ stubs p',
    generateMessages messages p = Ok (tt, p') ∧
    Forall2 (stub_of p') (opted_in messages) stubs ∧
    g_output p' =
      g_output p ++ concat (zip_with accessor (opted_in messages) stubs.*2) ∧
    extends p p' ∧
    g_objects p' = g_objects p ∧ heap_ok p' ∧ all_cells is_Some p'.
Proof.
  intros Hok Hall Hmsgs. revert p Hok Hall Hmsgs.
  induction messages as [|m messages IH]; intros p Hok Hall Hmsgs.
  { exists [], p. cbn. rewrite app_nil_r.
    split; [done|]. split; [constructor|]. split; [done|].
    split; [apply extends_refl|done]. }
  apply Forall_cons in Hmsgs as [Hm Hmsgs]. unfold opted_in in *.
  cbn [generateMessages]. unfold bind.
  destruct (msg_HasAvroSchema m) eqn:Hopt.
  - destruct (Hm Hopt) as [Hf Hng].
    destruct (createMessageStub_stub m p Hok Hall Hf Hng)
      as (st & p2 & Hrun & Hst & Hext & Hout & Hg & Hok2 & Hall2).
    destruct (IH p2 Hok2 Hall2)
      as (stubs & p' & Hrest & Hstubs & Hout' & Hext' & Hg' & ? & ?).
    { eapply Forall_impl; [exact Hmsgs|]. intros m'.
      by apply message_accepted_g. }
    exists (st :: stubs), p'. rewrite Hrun, filter_cons_True by done.
    split; [done|]. split; [|split; [|split; [|split; [congruence|done]]]].
    + constructor; [|done]. exact (stub_of_extends p2 p' m st Hok2 Hext' Hst).
    + rewrite Hout', Hout. cbn [zip_with concat fmap list_fmap].
      by rewrite <- !(assoc_L (++)).
    + exact (extends_trans p p2 p' Hext Hext').
  - destruct (IH p Hok Hall Hmsgs) as (stubs & p' & Hrest & ?).
    exists stubs, p'. rewrite filter_cons_False by congruence. done.
Qed.

Lemma GenerateAll_succeeds_from files p :
  heap_ok p → all_cells is_Some p →
  Forall (λ file, Forall (message_accepted p) (file_Messages file)) files →
  ∃ stubs p',
    GenerateAll files p = Ok (tt, p') ∧
    Forall2 (stub_of p') (opted_in (concat (map file_Messages files))) stubs ∧
    g_output p' =
      g_output p ++
      concat (zip_with accessor
                (opted_in (concat (map file_Messages files))) stubs.*2) ∧
    extends p p'.
Proof.
  intros Hok Hall Hfiles. revert p Hok Hall Hfiles.
  induction files as [|file files IH]; intros p Hok Hall Hfiles.
  { exists [], p. cbn. rewrite app_nil_r.
    split; [done|]. split; [constructor|]. split; [done|apply extends_refl]. }
  apply Forall_cons in Hfiles as [Hfile Hfiles].
  cbn [GenerateAll]. unfold Generate, bind, modify.
  destruct (generateMessages_succeeds (file_Messages file)
              (set_fileName (file_FileName file) p))
    as (st1 & p1 & Hrun & Hst1 & Hout1 & Hext1 & Hg1 & Hok1 & Hall1); [done..|].
  destruct (IH p1 Hok1 Hall1) as (st2 & p' & Hrest & Hst2 & Hout2 & Hext2).
  { eapply Forall_impl; [exact Hfiles|]. intros file' Hfile'.
    eapply Forall_impl; [exact Hfile'|]. intros m'.
    by apply message_accepted_g. }
  exists (st1 ++ st2), p'. rewrite Hrun. unfold opted_in in *.
  cbn [map concat]. rewrite filter_app.
  split; [done|]. split; [|split].
  - apply Forall2_app; [|done].
    eapply Forall2_impl; [exact Hst1|]. intros m' st' Hst'.
    exact (stub_of_extends p1 p' m' st' Hok1 Hext2 Hst').
  - rewrite Hout2, Hout1, fmap_app, zip_with_app, concat_app.
    + by rewrite <- (assoc_L (++)).
    + rewrite length_fmap. by eapply Forall2_length.
  - eapply extends_trans; [|exact Hext2]. exact Hext1.
Qed.

(** A run of the plugin over files whose opted-in messages have acceptable
    fields, none of them a non-repeated group field, returns.  For each
    opted-in message, in the order of the files and of their messages,
    there is at the end a record with the message's name, and the output
    is, message after message, the accessor of four lines that returns the
    quoted text this record renders to. *)
Theorem GenerateAll_succeeds g files :
  Forall (λ file, Forall (message_accepted (Init g)) (file_Messages file))
    files →
  ∃ stubs p',
    GenerateAll files (Init g) = Ok (tt, p') ∧
    Forall2 (stub_of p') (opted_in (concat (map file_Messages files))) stubs ∧
    g_output p' =
      concat (zip_with accessor
                (opted_in (concat (map file_Messages files))) stubs.*2).
Proof.
  intros Hfiles.
  destruct (GenerateAll_succeeds_from files (Init g) (heap_ok_Init g))
    as (stubs & p' & ? & ? & ? & _); [|done|by exists stubs, p'].
  intros a o s l Ha. by cbn in Ha.
Qed.


Lemma all_cells_Init φ g : all_cells φ (Init g).
Proof. intros a o s l Ha. by cbn in Ha. Qed.

(** ** The properties of the plugin's functions *)

(** [processField] on a well-formed state returns, with a nil error,
    exactly for the acceptable fields: a repeated field [GoType] has a Go
    type for, or a non-repeated field of one of the fifteen scalar types,
    of a message, of a group, or of an enum whose type name the generator
    resolves to an enum.  For every other field it aborts as [field_abort]
    says (a repeated one inside [GetFieldName]), so the error result its
    caller tests is never non-nil. *)
Theorem processField_returns_iff_acceptable m f p :
  wf p →
  (field_ok p f → ∃ x p', processField m f p = Ok ((x, None), p')) ∧
  (¬ field_ok p f → processField m f p = Abort (field_abort p f)).
Proof. apply processField_cases. Qed.

(** [processMessage] allocates its envelope at the next free address and
    changes no struct that was there before and no element of their
    slices: records and nodes are final once made. *)
Theorem processMessage_keeps_structs m p e p' :
  wf p → processMessage m p = Ok (e, p') →
  e = length (objects p) ∧
  (∀ a o, objects p !! a = Some o → objects p' !! a = Some o) ∧
  (∀ a o s, objects p !! a = Some o → slice_of o = Some s →
            slice_elems p' s = slice_elems p s).
Proof. apply processMessage_frame. Qed.

(** In a state without nil elements, a message whose fields are
    acceptable and not group fields is assembled and rendered:
    [createMessageStub] returns and adds the four lines of the accessor
    with the quoted rendering of the record [processMessage] built. *)
Theorem createMessageStub_succeeds m p :
  heap_ok p → all_cells is_Some p →
  Forall (field_ok p) (msg_Field m) → Forall not_group (msg_Field m) →
  ∃ e p1 text p',
    processMessage m p = Ok (e, p1) ∧
    schema (S (length (objects p1))) p1 (Some e) = Ok text ∧
    createMessageStub m p = Ok (tt, p') ∧
    g_output p' = g_output p ++ accessor m text ∧
    seen p' = seen p1 ∧ objects p' = objects p1 ∧ arrays p' = arrays p1.
Proof.
  intros Hok Hall Hfields Hng.
  destruct (createMessageStub_accepted m p Hok Hall Hfields Hng)
    as (e & p1 & text & p' & Hrun & Htext & Hstub & Hout & _).
  exists e, p1, text, p'. split_and!; try done.
  all: unfold createMessageStub, bind in Hstub; rewrite Hrun in Hstub;
    unfold P, modify, get in Hstub; cbv beta iota in Hstub;
    rewrite schema_set_output in Hstub;
    change (objects (set_output _ p1)) with (objects p1) in Hstub;
    rewrite Htext in Hstub; by injection Hstub as <-.
Qed.


(** [processMessage] keeps the heap in order, however it ends. *)
Lemma processMessage_heap_ok m p :
  heap_ok p → post (processMessage m) p (λ _ p', heap_ok p') (λ _, True).
Proof.
  intros Hok. unfold post. rewrite processMessage_unfold.
  pose proof (processFields_heap_ok m (length (objects p)) (msg_Field m)
                (registered m p) _ _ _ _ (heap_ok_registered m p Hok)
                (lookup_snoc_new _ _)) as Hloop.
  unfold post in Hloop.
  destruct (processFields _ _ _ _) as [[[] p1]|ab]; [|done].
  by destruct Hloop.
Qed.

End Plugin.

(** ** String literals in the rendered text: proofs *)

Lemma lex_run_app st a b : lex_run st (a +:+ b) = lex_run (lex_run st a) b.
Proof. revert st. induction a as [|c a IH]; intros st; cbn; [done|apply IH]. Qed.

Lemma closed_app a b :
  lex_run Outside a = Outside → lex_run Outside b = Outside →
  lex_run Outside (a +:+ b) = Outside.
Proof. intros Ha Hb. by rewrite lex_run_app, Ha. Qed.

Lemma plain_inside s : plain s = true → lex_run Inside s = Inside.
Proof.
  induction s as [|c s IH]; cbn; [done|].
  intros [[Hq Hb]%andb_true_iff Hs]%andb_true_iff.
  apply negb_true_iff in Hq, Hb. rewrite Hq, Hb. by apply IH.
Qed.

Lemma closed_inQuotes s : plain s = true → lex_run Outside (inQuotes s) = Outside.
Proof.
  intros Hs. unfold inQuotes. cbn. rewrite lex_run_app, plain_inside by done.
  reflexivity.
Qed.

Lemma quoteByte_inside c : lex_run Inside (GoLib.quoteByte c) = Inside.
Proof. destruct c as [[] [] [] [] [] [] [] []]; reflexivity. Qed.

Lemma quoteBody_inside s : lex_run Inside (GoLib.quoteBody s) = Inside.
Proof.
  induction s as [|c s IH]; cbn; [done|].
  by rewrite lex_run_app, quoteByte_inside.
Qed.

(** What [strconv.Quote] returns is one closed string literal, whatever
    bytes the string holds. *)
Lemma closed_Quote s : lex_run Outside (GoLib.Quote s) = Outside.
Proof.
  unfold GoLib.Quote. cbn. rewrite lex_run_app, quoteBody_inside. reflexivity.
Qed.

Lemma closed_Join ss :
  Forall (λ s, lex_run Outside s = Outside) ss →
  lex_run Outside (GoLib.Join ss ", ") = Outside.
Proof.
  induction 1 as [|s ss Hs Hss IH]; [done|].
  destruct ss as [|s' ss]; [done|].
  change (GoLib.Join (s :: s' :: ss) ", ")
    with (s +:+ ", " +:+ GoLib.Join (s' :: ss) ", ").
  apply closed_app; [done|]. apply closed_app; [done|]. exact IH.
Qed.

Ltac closed_template :=
  repeat first
    [ apply closed_Join
    | apply closed_inQuotes; first [reflexivity | assumption]
    | assumption
    | reflexivity
    | apply closed_app ].

Lemma schema_each_closed render fs ss :
  (∀ f s, render f = Ok s → lex_run Outside s = Outside) →
  schema_each render fs = Ok ss →
  Forall (λ s, lex_run Outside s = Outside) ss.
Proof.
  intros Hr. revert ss. induction fs as [|f fs IH]; intros ss; cbn.
  - intros [= <-]. constructor.
  - destruct (render f) as [s|] eqn:Hf; [|done].
    destruct (schema_each render fs) as [ss'|]; [|done].
    intros [= <-]. constructor; eauto.
Qed.

Section QuotedSymbols.

(** [strconv.Quote], of which [GoLib.Quote] is the model on strings of
    ASCII bytes. *)
Variable Quote : string → string.
Hypothesis Quote_ascii : ∀ s, GoLib.isASCII s = true → Quote s = GoLib.Quote s.

Lemma closed_symbols symbols :
  forallb GoLib.isASCII symbols = true →
  Forall (λ s, lex_run Outside s = Outside) (map Quote symbols).
Proof.
  intros Hascii. apply Forall_map, Forall_forall. intros sym Hsym. cbn.
  rewrite forallb_forall in Hascii.
  rewrite Quote_ascii by (by apply Hascii, list_elem_of_In).
  apply closed_Quote.
Qed.

Lemma schema_closed fuel p f text :
  forallb plain_object (objects p) = true →
  forallb ascii_symbols (objects p) = true →
  schema Quote fuel p f = Ok text →
  lex_run Outside text = Outside.
Proof.
  intros Hplain Hascii. revert f text.
  induction fuel as [|fuel IH]; intros f text; cbn;
    (destruct f as [a|]; [|done]); [done|].
  destruct (objects p !! a) as [o|] eqn:Ha; [|done].
  assert (Ho : plain_object o = true).
  { rewrite forallb_forall in Hplain. apply Hplain.
    apply list_elem_of_In, list_elem_of_lookup. eauto. }
  assert (Hsym : ascii_symbols o = true).
  { rewrite forallb_forall in Hascii. apply Hascii.
    apply list_elem_of_In, list_elem_of_lookup. eauto. }
  destruct o as [n ns ty s|n ty|fn tn s|n ty|n tn syms]; cbn in Ho, Hsym;
    apply andb_true_iff in Ho as [H1 H2].
  - destruct (slice_elems p s) as [fs|]; [|done].
    destruct (schema_each _ fs) as [ss|] eqn:Hfs; [|done]. intros [= <-].
    apply schema_each_closed in Hfs; [|exact IH].
    unfold envelope_template. closed_template.
  - intros [= <-]. unfold simpleField_schema. closed_template.
  - destruct (slice_elems p s) as [fs|]; [|done].
    destruct (schema_each _ fs) as [ss|] eqn:Hfs; [|done]. intros [= <-].
    apply schema_each_closed in Hfs; [|exact IH].
    unfold complexField_template. closed_template.
  - intros [= <-]. unfold arrayField_schema. closed_template.
  - intros [= <-]. unfold enumField_schema. closed_template.
    by apply closed_symbols.
Qed.

End QuotedSymbols.


(** ** Plain names give closed string literals *)

(** A field, and a message, whose names and type names are plain. *)
Definition plain_field (f : FieldDescriptorProto) : bool :=
  plain (fd_Name f) && plain (fd_TypeName f).

Definition plain_message (m : Descriptor) : bool :=
  forallb plain (msg_TypeName m) && forallb plain_field (msg_Field m).

(** The files of a run whose names are plain and whose opted-in messages
    are. *)
Definition plain_file (file : FileDescriptor) : Prop :=
  plain (file_FileName file) = true ∧
  Forall (λ m, msg_HasAvroSchema m = true → plain_message m = true)
    (file_Messages file).

(** The enums of the generator's table have value names of ASCII
    bytes. *)
Definition ascii_enums (g : gmap string Object) : Prop :=
  ∀ k values, g !! k = Some (EnumObject values) →
    Forall (λ v, GoLib.isASCII (ev_Name v) = true) values.

(** Every struct of the state has plain names and symbols of ASCII bytes,
    and the enums the generator knows have such value names. *)
Definition all_plain (p : avroschema) : Prop :=
  Forall (λ o, plain_object o = true ∧ ascii_symbols o = true) (objects p) ∧
  ascii_enums (g_objects p).

Lemma plain_app a b : plain (a +:+ b) = plain a && plain b.
Proof.
  induction a as [|c a IH]; [done|].
  change (String c a +:+ b) with (String c (a +:+ b)). cbn [plain].
  rewrite IH. by rewrite !andb_assoc.
Qed.

Lemma plain_Join ss sep :
  plain sep = true → Forall (λ s, plain s = true) ss →
  plain (GoLib.Join ss sep) = true.
Proof.
  intros Hsep. induction 1 as [|s ss Hs Hss IH]; [done|].
  destruct ss as [|s' ss]; [done|].
  change (GoLib.Join (s :: s' :: ss) sep)
    with (s +:+ sep +:+ GoLib.Join (s' :: ss) sep).
  by rewrite !plain_app, Hs, Hsep, IH.
Qed.

Lemma plain_Split s sep :
  plain s = true → Forall (λ w, plain w = true) (GoLib.Split s sep).
Proof.
  induction s as [|c s IH]; cbn; [by repeat constructor|].
  intros [Hc Hs]%andb_true_iff. specialize (IH Hs).
  destruct (Ascii.eqb c sep); [by constructor|].
  destruct (GoLib.Split s sep) as [|w ws].
  - repeat constructor. cbn. by rewrite Hc.
  - apply Forall_cons in IH as [Hw Hws]. constructor; [|done].
    cbn. by rewrite Hc, Hw.
Qed.

Lemma plain_upper c :
  GoLib.isASCIILower c = true →
  negb (Ascii.eqb (GoLib.xor_space c) GoLib.dquote)
  && negb (Ascii.eqb (GoLib.xor_space c) "\") = true.
Proof. destruct c as [[] [] [] [] [] [] [] []]; vm_compute; done. Qed.

Lemma plain_camelWords inword s :
  plain s = true → plain (GoLib.camelWords inword s) = true.
Proof.
  revert inword. induction s as [|c s IH]; intros inword; cbn; [done|].
  intros [Hc Hs]%andb_true_iff.
  destruct (inword && GoLib.isASCIILower c); [cbn; by rewrite Hc, IH|].
  destruct (Ascii.eqb c "_" && _); [by apply IH|].
  destruct (GoLib.isASCIIDigit c); [cbn; by rewrite Hc, IH|].
  destruct (GoLib.isASCIILower c) eqn:Hl; cbn.
  - by rewrite plain_upper, IH.
  - by rewrite Hc, IH.
Qed.

(** [generator.CamelCase] brings no double quote and no backslash into a
    name. *)
Lemma plain_CamelCase s : plain s = true → plain (GoLib.CamelCase s) = true.
Proof.
  destruct s as [|c s]; [done|]. intros Hs. unfold GoLib.CamelCase.
  destruct (Ascii.eqb c "_").
  - cbn in Hs. apply andb_true_iff in Hs as [_ Hs].
    cbn. by apply plain_camelWords.
  - by apply plain_camelWords.
Qed.

Lemma plain_mapper t : plain (getAvroTypeForProtobufType t) = true.
Proof.
  unfold getAvroTypeForProtobufType.
  repeat (match goal with |- context [(t =? ?c)%Z] => destruct (t =? c)%Z end;
          [reflexivity|]).
  reflexivity.
Qed.


Section PlainNames.

Variable CamelCase : string → string.
Variable fieldName : Descriptor → FieldDescriptorProto → string.
Variable Quote : string → string.
Variable growslice : nat → nat.

(** What the two generator functions are assumed to do with plain names:
    they give plain names. *)
Hypothesis CamelCase_plain : ∀ s, plain s = true → plain (CamelCase s) = true.
Hypothesis fieldName_plain :
  ∀ m f, plain (fd_Name f) = true → plain (fieldName m f) = true.

(** [strconv.Quote] is [GoLib.Quote] on strings of ASCII bytes. *)
Hypothesis Quote_ascii : ∀ s, GoLib.isASCII s = true → Quote s = GoLib.Quote s.

Lemma all_plain_snoc p o :
  all_plain p → plain_object o = true → ascii_symbols o = true →
  all_plain (set_objects (λ os, os ++ [o]) p).
Proof.
  intros [Hp Hg] Ho Hs. split; [|done]. cbn. apply Forall_app.
  split; [done|]. by repeat constructor.
Qed.

Lemma all_plain_forallb p :
  all_plain p →
  forallb plain_object (objects p) = true ∧
  forallb ascii_symbols (objects p) = true.
Proof.
  intros [Hp _]. rewrite Forall_forall in Hp.
  split; apply forallb_forall; intros o Ho%list_elem_of_In; by apply Hp.
Qed.

Lemma plain_last_of s p tn p' :
  plain s = true → last_of (GoLib.Split s ".") p = Ok (tn, p') →
  plain tn = true ∧ p' = p.
Proof.
  intros Hs. destruct (last_of_Split s "." p) as (x & -> & Hx).
  intros [= <- <-]. split; [|done].
  pose proof (plain_Split s "." Hs) as Hall. rewrite Forall_forall in Hall.
  apply Hall. by eapply list_elem_of_lookup_2.
Qed.

(** [processField] on a plain field makes a plain struct, if any. *)
Lemma processField_plain m f p r p' :
  plain_field f = true → all_plain p →
  processField CamelCase fieldName m f p = Ok (r, p') → all_plain p'.
Proof.
  intros [Hn Ht]%andb_true_iff Hp. unfold processField.
  destruct (fd_IsRepeated f).
  { unfold as_avroField, getArrayField, bind at 1 2.
    destruct (GetFieldName_cases fieldName m f p) as [[_ ->]|[_ ->]]; [|done].
    unfold bind, alloc, ret. intros [= _ <-].
    apply all_plain_snoc; [done| |done]. cbn.
    by rewrite fieldName_plain, plain_mapper. }
  destruct (is_scalar (fd_Type f)).
  { unfold as_avroField, getSimpleAvroField, bind at 1 2.
    destruct (GetFieldName_cases fieldName m f p) as [[_ ->]|[_ ->]]; [|done].
    unfold bind, alloc, ret. intros [= _ <-].
    apply all_plain_snoc; [done| |done]. cbn.
    by rewrite fieldName_plain, plain_mapper. }
  destruct (fd_Type f =? TYPE_MESSAGE)%Z.
  { unfold as_avroField, getComplexField, bind at 1 2.
    destruct (last_of _ p) as [[tn p0]|] eqn:Hlast; [|done].
    apply plain_last_of in Hlast as [Htn ->]; [|by apply CamelCase_plain].
    unfold bind, get.
    destruct (seen p !! tn) as [[a|]|]; [| done |].
    - destruct (objects p !! a) as [[n ns ty s| |fn' tn' s| |]|]; try done.
      + unfold alloc, ret. intros [= _ <-].
        apply all_plain_snoc; [done| |done]. cbn.
        by rewrite CamelCase_plain, Htn.
      + unfold ret. by intros [= _ <-].
    - unfold make_slice, alloc, modify, ret. intros [= _ <-].
      destruct Hp as [Hp Hg]. split; [|done]. cbn. apply Forall_app.
      split; [done|].
      repeat constructor. cbn. by rewrite CamelCase_plain, Htn. }
  destruct (fd_Type f =? TYPE_ENUM)%Z.
  { unfold as_avroField, getEnumField, ObjectNamed, bind at 1 2 3, get.
    destruct (g_objects p !! fd_TypeName f) as [[|values]|] eqn:Hobj;
      try done.
    unfold ret at 1. unfold bind at 1.
    destruct (last_of _ p) as [[tn p0]|] eqn:Hlast; [|done].
    apply plain_last_of in Hlast as [Htn ->]; [|done].
    unfold bind, alloc, ret. intros [= _ <-].
    apply all_plain_snoc; [done| |]; cbn; [by rewrite Hn, Htn|].
    rewrite collect_names. cbn. apply forallb_forall.
    intros sym (v & <- & Hv)%in_map_iff.
    destruct Hp as [_ Hg]. specialize (Hg _ _ Hobj).
    rewrite Forall_forall in Hg. by apply Hg, list_elem_of_In. }
  destruct (fd_Type f =? TYPE_GROUP)%Z.
  { unfold ret. by intros [= _ <-]. }
  done.
Qed.


Lemma append_field_plain e x p u p' :
  all_plain p → append_field growslice e x p = Ok (u, p') → all_plain p'.
Proof.
  intros Hp. unfold append_field, bind at 1, get.
  destruct (objects p !! e) as [[n ns ty s| | | |]|] eqn:He; try done.
  destruct Hp as [Hp Hg].
  assert (Hn : plain_object (envelope n ns ty s) = true).
  { rewrite Forall_forall in Hp. apply Hp. by eapply list_elem_of_lookup_2. }
  unfold bind, modify.
  destruct (append growslice s x p) as [[s' p1]|] eqn:Hap; [|done].
  intros [= _ <-].
  assert (Hobj : objects p1 = objects p ∧ g_objects p1 = g_objects p).
  { revert Hap. unfold append, bind, get, modify, ret.
    destruct (arrays p !! slice_array s) as [cells|]; [|done].
    destruct (decide _); by intros [= _ <-]. }
  destruct Hobj as [Hobj Hg1]. split; cbn; [|by rewrite Hg1].
  rewrite Hobj. by apply Forall_insert.
Qed.

Lemma processFields_plain m e fields p u p' :
  Forall (λ f, plain_field f = true) fields → all_plain p →
  processFields CamelCase fieldName growslice m e fields p = Ok (u, p') →
  all_plain p'.
Proof.
  intros Hfields. revert p.
  induction Hfields as [|f fields Hf _ IH]; intros p Hp; cbn [processFields].
  { unfold ret. by intros [= _ <-]. }
  unfold bind at 1, assemble_field, bind at 1.
  destruct (processField _ _ m f p) as [[[x [err|]] p1]|] eqn:Hrun; try done.
  cbn [fst snd].
  destruct (append_field growslice e x p1) as [[[] p2]|] eqn:Hap; [|done].
  apply IH. eapply append_field_plain; [|exact Hap].
  by eapply processField_plain.
Qed.

(** [processMessage] on a plain message under a plain file name keeps the
    structs plain. *)
Lemma processMessage_plain m p e p' :
  plain_message m = true → plain (fileName p) = true → all_plain p →
  processMessage CamelCase fieldName growslice m p = Ok (e, p') →
  all_plain p'.
Proof.
  intros [Hname Hfields]%andb_true_iff Hfile Hp.
  rewrite processMessage_unfold.
  destruct (processFields _ _ _ _ _ _ _) as [[[] p1]|] eqn:Hloop; [|done].
  intros [= _ <-].
  eapply processFields_plain; [| |exact Hloop].
  - rewrite forallb_forall in Hfields. apply Forall_forall. intros f Hf.
    by apply Hfields, list_elem_of_In.
  - destruct Hp as [Hp Hg]. split; [|done]. cbn. apply Forall_app.
    split; [done|].
    repeat constructor. cbn. rewrite Hfile, andb_true_r.
    apply CamelCase_plain, plain_Join; [done|].
    rewrite forallb_forall in Hname. apply Forall_forall. intros s Hs.
    by apply Hname, list_elem_of_In.
Qed.

(** The accessor [createMessageStub] prints on a plain message returns a
    text whose string literals are closed. *)
Lemma createMessageStub_closed m p u p' :
  wf p → plain_message m = true → plain (fileName p) = true → all_plain p →
  createMessageStub CamelCase fieldName Quote growslice m p
    = Ok (u, p') →
  wf p' ∧ all_plain p' ∧ fileName p' = fileName p ∧
  ∃ text, strings_closed text = true ∧
          g_output p' = g_output p ++ accessor Quote m text.
Proof.
  intros Hwf Hm Hfile Hp Hrun.
  pose proof (createMessageStub_spec CamelCase fieldName Quote
                growslice m p Hwf) as Hwf'.
  unfold post in Hwf'. rewrite Hrun in Hwf'.
  pose proof (processMessage_spec CamelCase fieldName growslice m p Hwf)
    as Hspec.
  unfold post in Hspec. revert Hrun. unfold createMessageStub, bind at 1.
  destruct (processMessage _ _ _ m p) as [[e p1]|] eqn:Hpm; [|done].
  destruct Hspec as (_ & _ & _ & Hfn & Hout & _).
  pose proof (processMessage_plain m p e p1 Hm Hfile Hp Hpm) as Hp1.
  unfold bind, P, modify, get.
  destruct (schema _ _ _ _) as [text|] eqn:Htext; [|done].
  intros [= _ <-]. split_and!; [done|done|exact Hfn|].
  exists text. split.
  - unfold strings_closed.
    destruct (all_plain_forallb p1 Hp1) as [Hplain Hascii].
    erewrite (schema_closed Quote Quote_ascii); [done| | |exact Htext];
      [exact Hplain|exact Hascii].
  - cbn. rewrite Hout. cbn. by rewrite <- !(assoc_L (++)).
Qed.

Lemma generateMessages_closed messages p u p' :
  wf p → plain (fileName p) = true → all_plain p →
  Forall (λ m, msg_HasAvroSchema m = true → plain_message m = true) messages →
  generateMessages CamelCase fieldName Quote growslice messages p
    = Ok (u, p') →
  wf p' ∧ all_plain p' ∧
  ∃ texts,
    length texts = length (opted_in messages) ∧
    Forall (λ text, strings_closed text = true) texts ∧
    g_output p' =
      g_output p ++
      concat (zip_with (accessor Quote) (opted_in messages) texts).
Proof.
  intros Hwf Hfile Hp Hmsgs. revert p Hwf Hfile Hp.
  induction Hmsgs as [|m messages Hm _ IH]; intros p Hwf Hfile Hp;
    cbn [generateMessages].
  { unfold ret. intros [= _ <-]. split_and!; [done..|].
    exists []. cbn. by rewrite app_nil_r. }
  unfold bind at 1, opted_in.
  destruct (msg_HasAvroSchema m) eqn:Hopt.
  - destruct (createMessageStub _ _ _ _ m p) as [[[] p1]|] eqn:Hstub; [|done].
    destruct (createMessageStub_closed m p _ p1 Hwf (Hm eq_refl) Hfile Hp Hstub)
      as (Hwf1 & Hp1 & Hfn & text & Htext & Hout).
    intros Hrest.
    destruct (IH p1 Hwf1 ltac:(by rewrite Hfn) Hp1 Hrest)
      as (Hwf' & Hp' & texts & Hlen & Hclosed & Hout').
    split_and!; [done..|]. exists (text :: texts).
    rewrite filter_cons_True by done. split_and!.
    + cbn. by rewrite Hlen.
    + by constructor.
    + rewrite Hout', Hout. cbn [zip_with concat].
      by rewrite <- !(assoc_L (++)).
  - unfold ret at 1. intros Hrest.
    destruct (IH p Hwf Hfile Hp Hrest) as (Hwf' & Hp' & texts & ?).
    split_and!; [done..|]. exists texts.
    by rewrite filter_cons_False by congruence.
Qed.

(** A run of the plugin over files with plain names, with enums whose
    value names are ASCII strings, that returns has printed, for each
    opted-in message in turn, an accessor whose schema text has all its
    string literals closed. *)
Theorem GenerateAll_texts_closed g files u p' :
  ascii_enums g → Forall plain_file files →
  GenerateAll CamelCase fieldName Quote growslice files (Init g)
    = Ok (u, p') →
  ∃ texts,
    length texts = length (opted_in (concat (map file_Messages files))) ∧
    Forall (λ text, strings_closed text = true) texts ∧
    g_output p' =
      concat (zip_with (accessor Quote)
                (opted_in (concat (map file_Messages files))) texts).
Proof.
  intros Henums Hfiles.
  assert (Hgen : ∀ p, wf p → all_plain p →
            GenerateAll CamelCase fieldName Quote growslice files p
              = Ok (u, p') →
            ∃ texts,
              length texts
                = length (opted_in (concat (map file_Messages files))) ∧
              Forall (λ text, strings_closed text = true) texts ∧
              g_output p' =
                g_output p ++
                concat (zip_with (accessor Quote)
                          (opted_in (concat (map file_Messages files))) texts)).
  { induction Hfiles as [|file files [Hname Hmsgs] _ IH]; intros p Hwf Hp;
      cbn [GenerateAll].
    { unfold ret. intros [= _ <-]. exists []. cbn. by rewrite app_nil_r. }
    unfold bind at 1, Generate, bind at 1, modify.
    destruct (generateMessages _ _ _ _ _ _) as [[[] p1]|] eqn:Hrun; [|done].
    destruct (generateMessages_closed (file_Messages file) _ _ p1
                (wf_set_fileName _ _ Hwf) Hname Hp Hmsgs Hrun)
      as (Hwf1 & Hp1 & ts1 & Hlen1 & Hc1 & Hout1).
    intros Hrest.
    destruct (IH p1 Hwf1 Hp1 Hrest) as (ts2 & Hlen2 & Hc2 & Hout2).
    exists (ts1 ++ ts2). unfold opted_in in *. cbn [map concat].
    rewrite filter_app. split_and!.
    - by rewrite !length_app, Hlen1, Hlen2.
    - by apply Forall_app.
    - rewrite Hout2, Hout1, zip_with_app, concat_app by done.
      by rewrite <- (assoc_L (++)). }
  intros Hrun.
  destruct (Hgen (Init g) (wf_Init g)) as (texts & ? & ? & ?); [|done|].
  - split; [constructor|done].
  - by exists texts.
Qed.

End PlainNames.

(** ** The properties at concrete inputs *)

Local Abbreviation processMessage' :=
  (processMessage GoLib.CamelCase GetFieldName_plain GoLib.growslice).
Local Abbreviation processField' :=
  (processField GoLib.CamelCase GetFieldName_plain).
Local Abbreviation Generate' :=
  (Generate GoLib.CamelCase GetFieldName_plain GoLib.Quote GoLib.growslice).
Local Abbreviation schema' := (schema GoLib.Quote).

(** The state [processMessage] leaves behind. *)
Definition after (m : Descriptor) (p : avroschema) : avroschema :=
  match processMessage' m p with
  | Ok (_, p') => p'
  | Abort _ => p
  end.

Lemma heap_ok_after m p : heap_ok p → heap_ok (after m p).
Proof.
  intros Hok.
  pose proof (processMessage_heap_ok GoLib.CamelCase GetFieldName_plain
                GoLib.growslice m p Hok) as Hpost.
  unfold post in Hpost. unfold after.
  by destruct (processMessage' m p) as [[e p']|ab].
Qed.

Lemma wf_after m p : heap_ok p → wf (after m p).
Proof. intros Hok. by destruct (heap_ok_after m p Hok). Qed.

Ltac field_ok_one :=
  unfold field_ok, GoType_ok; cbn;
  first [ left; reflexivity
        | right; split;
          [first [left; reflexivity | right; left; reflexivity
                 | right; right; reflexivity]
          | eexists; vm_compute; reflexivity]
        | right; left; reflexivity
        | right; right; left; reflexivity
        | right; right; right; split;
          [reflexivity | eexists; vm_compute; reflexivity] ].

Ltac fields_ok :=
  repeat (apply Forall_cons_2; [field_ok_one|]); apply Forall_nil_2.


(** The tree message: the nested record of the field [right], at
    position 3, holds the nodes of the three fields before it.  The
    message [M] with a field [m] of its own type before the
    self-reference: [m] hits the cache and binds nothing, and the nested
    record of [self], at position 1, holds the node of [m]. *)
Lemma C9_witness :
  wf (Init ∅) ∧
  processMessage' Examples.Tree (Init ∅) = Ok (0, after Examples.Tree (Init ∅)) ∧
  processMessage' Examples.Echo (Init ∅) = Ok (0, after Examples.Echo (Init ∅)) ∧
  keeps GoLib.CamelCase "Tree" ({["Tree"]} ∪ dom (seen (Init ∅)))
    (take 3 (msg_Field Examples.Tree)) = true ∧
  keeps GoLib.CamelCase "M" ({["M"]} ∪ dom (seen (Init ∅)))
    (take 1 (msg_Field Examples.Echo)) = true ∧
  (∃ n ns ty s l a t,
     objects (after Examples.Tree (Init ∅)) !! 0 = Some (envelope n ns ty s) ∧
     slice_elems (after Examples.Tree (Init ∅)) s = Some l ∧
     length l = length (msg_Field Examples.Tree) ∧
     l !! 3 = Some (Some a) ∧
     objects (after Examples.Tree (Init ∅)) !! a
       = Some (complexField "Right" "Tree" t) ∧
     slice_elems (after Examples.Tree (Init ∅)) t = Some (take 3 l)) ∧
  (∃ n ns ty s l a t,
     objects (after Examples.Echo (Init ∅)) !! 0 = Some (envelope n ns ty s) ∧
     slice_elems (after Examples.Echo (Init ∅)) s = Some l ∧
     length l = length (msg_Field Examples.Echo) ∧
     l !! 1 = Some (Some a) ∧
     objects (after Examples.Echo (Init ∅)) !! a
       = Some (complexField "Self" "M" t) ∧
     slice_elems (after Examples.Echo (Init ∅)) t = Some (take 1 l)).
Proof.
  assert (HTree : processMessage' Examples.Tree (Init ∅)
                  = Ok (0, after Examples.Tree (Init ∅)))
    by (vm_compute; reflexivity).
  assert (HEcho : processMessage' Examples.Echo (Init ∅)
                  = Ok (0, after Examples.Echo (Init ∅)))
    by (vm_compute; reflexivity).
  assert (HkT : keeps GoLib.CamelCase "Tree" ({["Tree"]} ∪ dom (seen (Init ∅)))
                  (take 3 (msg_Field Examples.Tree)) = true)
    by (vm_compute; reflexivity).
  assert (HkE : keeps GoLib.CamelCase "M" ({["M"]} ∪ dom (seen (Init ∅)))
                  (take 1 (msg_Field Examples.Echo)) = true)
    by (vm_compute; reflexivity).
  split; [apply wf_Init|]. split; [exact HTree|]. split; [exact HEcho|].
  split; [exact HkT|]. split; [exact HkE|]. split.
  - exact (C9_nested_reference_is_a_prefix GoLib.CamelCase GetFieldName_plain
             GoLib.growslice Examples.Tree (Init ∅) 0 _ 3
             (Examples.message_field "right" ".pkg.Tree")
             (wf_Init ∅) HTree eq_refl eq_refl eq_refl HkT).
  - exact (C9_nested_reference_is_a_prefix GoLib.CamelCase GetFieldName_plain
             GoLib.growslice Examples.Echo (Init ∅) 0 _ 1
             (Examples.message_field "self" ".pkg.M")
             (wf_Init ∅) HEcho eq_refl eq_refl eq_refl HkE).
Defined.

(** C9 as stated fails for a nested message type: its envelope is
    registered under [Outer_Inner], the self-reference [self] at position
    1 is looked up under [Inner] and misses, and the nested record made
    for it is empty although the node of position 0 is there. *)
Lemma C9_counterexample :
  ∃ e p' s l a t,
    processMessage' Examples.Inner (Init ∅) = Ok (e, p') ∧
    objects p' !! e = Some (envelope "Outer_Inner" "" "record" s) ∧
    slice_elems p' s = Some l ∧
    l !! 1 = Some (Some a) ∧
    objects p' !! a = Some (complexField "Self" "Inner" t) ∧
    slice_elems p' t = Some [] ∧
    take 1 l = [Some 1] ∧ take 1 l ≠ [].
Proof.
  eexists _, _, _, _, _, _. split; [vm_compute; reflexivity|].
  repeat split; try reflexivity. discriminate.
Qed.

(** Why the name has to be bound still: in [Shadowed] the field [m] of the
    unseen type [D] misses the cache and puts its node there under the
    name of the field, [M], which is the message's name; the
    self-reference at position 1 finds that node, and the nested record is
    empty. *)
Lemma rebound_name_hides_the_record :
  keeps GoLib.CamelCase "M" ({["M"]} ∪ dom (seen (Init ∅)))
    (take 1 (msg_Field Examples.Shadowed)) = false ∧
  ∃ e p' s l a t,
    processMessage' Examples.Shadowed (Init ∅) = Ok (e, p') ∧
    objects p' !! e = Some (envelope "M" "" "record" s) ∧
    slice_elems p' s = Some l ∧
    l !! 0 = Some (Some a) ∧ l !! 1 = Some (Some a) ∧
    objects p' !! a = Some (complexField "M" "D" t) ∧
    slice_elems p' t = Some [] ∧
    take 1 l = [Some 1].
Proof.
  split; [vm_compute; reflexivity|].
  eexists _, _, _, _, _, _. split; [vm_compute; reflexivity|].
  repeat split; reflexivity.
Qed.

(** C4 as stated fails: the message tag is not in the recognized set, the
    mapper returns an ordinary string for it, and a message with a
    repeated field of a message type the generator knows is assembled
    without any failure. *)
Lemma C4_counterexample :
  is_scalar TYPE_MESSAGE = false ∧
  getAvroTypeForProtobufType TYPE_MESSAGE = "nil" ∧
  ∃ e p' s,
    processMessage' Examples.Basket (Init Examples.items) = Ok (e, p') ∧
    objects p' = [envelope "Basket" "" "record" s; arrayField "Items" "nil"] ∧
    slice_elems p' s = Some [Some 1].
Proof.
  split; [reflexivity|]. split; [reflexivity|].
  eexists _, _, _. split; [vm_compute; reflexivity|].
  split; reflexivity.
Qed.

(** The enum tag is outside the recognized set: the mapper gives nil for
    it, a repeated field of an enum type the generator knows becomes an
    array of nil, and a field of tag 19 ends the run. *)
Lemma C4_witness :
  is_scalar TYPE_ENUM = false ∧ is_scalar 19%Z = false ∧
  getAvroTypeForProtobufType TYPE_ENUM = "nil" ∧
  processField' Examples.Tree
    (Examples.repeated_field "states" TYPE_ENUM ".pkg.Status")
    (Init Examples.types)
  = Ok ((Some 0, None),
        set_objects (λ os, os ++ [arrayField "States" "nil"])
          (Init Examples.types)) ∧
  getAvroTypeForProtobufType 19%Z = "nil" ∧
  processField' Examples.Tree (Examples.repeated_field "x" 19%Z "")
    (Init Examples.types)
  = Abort (Exit "unknown type for x") ∧
  processField' Examples.Tree (Examples.scalar_field "x" 19%Z)
    (Init Examples.types)
  = Abort (Exit "unknown type for  x").
Proof.
  split; [reflexivity|]. split; [reflexivity|].
  destruct (C4_unrecognized_tag_maps_to_nil GoLib.CamelCase GetFieldName_plain
              TYPE_ENUM eq_refl) as (Hnil & Harray & _).
  destruct (C4_unrecognized_tag_maps_to_nil GoLib.CamelCase GetFieldName_plain
              19%Z eq_refl) as (Hnil' & _ & Hexit).
  split; [exact Hnil|]. split.
  { apply (Harray Examples.Tree
             (Examples.repeated_field "states" TYPE_ENUM ".pkg.Status")
             (Init Examples.types) eq_refl eq_refl); [auto|].
    eexists. vm_compute. reflexivity. }
  split; [exact Hnil'|]. split.
  - apply (Hexit Examples.Tree (Examples.repeated_field "x" 19%Z "")
             (Init Examples.types) eq_refl); discriminate.
  - apply (Hexit Examples.Tree (Examples.scalar_field "x" 19%Z)
             (Init Examples.types) eq_refl); discriminate.
Defined.

(** The state after [Holder] was assembled: its field [m] of the unseen
    type [D] left a complexField in the cache under [M]. *)
Definition after_Holder : avroschema :=
  match processMessage' Examples.Holder (Init ∅) with
  | Ok (_, p) => p
  | Abort _ => Init ∅
  end.

(** C6 as stated fails: with [M] already bound to a complexField, the
    assembly of message [M] binds [M] to the new envelope and returns. *)
Lemma C6_counterexample :
  seen after_Holder !! "M" = Some (Some 1) ∧
  objects after_Holder !! 1
    = Some (complexField "M" "D" (Slice 1 0)) ∧
  ∃ p', processMessage' Examples.M_empty after_Holder = Ok (2, p') ∧
        seen p' !! "M" = Some (Some 2) ∧
        objects p' !! 2 = Some (envelope "M" "" "record" (Slice 3 0)).
Proof.
  split; [vm_compute; reflexivity|]. split; [vm_compute; reflexivity|].
  eexists. split; [vm_compute; reflexivity|].
  split; vm_compute; reflexivity.
Qed.

(** In the state after [Holder], where [M] is bound to a complexField,
    the assembly of the message [M] re-binds [M] and returns. *)
Lemma C6_witness :
  seen after_Holder !! CamelCaseSlice GoLib.CamelCase (msg_TypeName Examples.M_empty)
    = Some (Some 1) ∧
  ∃ p', processMessage' Examples.M_empty after_Holder
          = Ok (length (objects after_Holder), p') ∧
        objects after_Holder !! length (objects after_Holder) = None ∧
        seen p' = <[CamelCaseSlice GoLib.CamelCase (msg_TypeName Examples.M_empty)
                    := Some (length (objects after_Holder))]> (seen after_Holder).
Proof.
  split; [vm_compute; reflexivity|].
  apply (proj1 (C6_insert_replaces_silently GoLib.CamelCase GetFieldName_plain
                  GoLib.growslice after_Holder (Some 1))).
  - vm_compute; reflexivity.
  - reflexivity.
Defined.

(** The enum [Status] with the values [A], [B], [C]: the symbols of the
    node are these names in this order. *)
Lemma C7_witness :
  g_objects (Init Examples.types) !! fd_TypeName Examples.status
    = Some (EnumObject Examples.Status) ∧
  ∃ tn p',
    GoLib.Split (fd_TypeName Examples.status) "." !!
      (length (GoLib.Split (fd_TypeName Examples.status) ".") - 1) = Some tn ∧
    processField' Examples.Tree Examples.status (Init Examples.types)
      = Ok ((Some 0, None), p') ∧
    objects p' !! 0 = Some (enumField "status" tn ["A"; "B"; "C"]) ∧
    ∀ fuel, schema' (S fuel) p' (Some 0)
            = Ok (enumField_schema GoLib.Quote "status" tn ["A"; "B"; "C"]).
Proof.
  split; [vm_compute; reflexivity|].
  apply (C7_enum_symbols_in_declaration_order GoLib.CamelCase GetFieldName_plain
           GoLib.Quote Examples.Tree Examples.status (Init Examples.types)
           Examples.Status).
  - reflexivity.
  - reflexivity.
  - vm_compute; reflexivity.
Defined.

(** C2 at two siblings [A] and [B] that each have a field [third] of
    type [C]: the node of the first is cached under [Third], the lookup of
    [C] for the second misses, a second node is made, and [C] is still not
    in the cache.  In a run over the file with [A], [B] and [C] the two
    nested records stay empty, also after [C] with its field was
    assembled. *)
Theorem C2_second_sibling_makes_a_new_node :
  ∃ eA pA eB pB sA sB,
    processMessage' Examples.A (Init ∅) = Ok (eA, pA) ∧
    processMessage' Examples.B pA = Ok (eB, pB) ∧
    objects pB !! eA = Some (envelope "A" "" "record" sA) ∧
    objects pB !! eB = Some (envelope "B" "" "record" sB) ∧
    slice_elems pB sA = Some [Some 1] ∧
    slice_elems pB sB = Some [Some 3] ∧
    objects pB !! 1 = Some (complexField "Third" "C" (Slice 1 0)) ∧
    objects pB !! 3 = Some (complexField "Third" "C" (Slice 4 0)) ∧
    seen pA !! "C" = None ∧ seen pA !! "Third" = Some (Some 1) ∧
    seen pB !! "C" = None ∧ seen pB !! "Third" = Some (Some 3) ∧
    ∃ p, Generate' Examples.siblings (Init ∅) = Ok (tt, p) ∧
         seen p !! "C" = Some (Some 4) ∧
         objects p !! 5 = Some (simpleField "Id" "long") ∧
         schema' 2 p (Some 1) = Ok (complexField_template "Third" "C" "") ∧
         schema' 2 p (Some 3) = Ok (complexField_template "Third" "C" "").
Proof.
  eexists _, _, _, _, _, _.
  split; [vm_compute; reflexivity|]. split; [vm_compute; reflexivity|].
  repeat (split; [vm_compute; reflexivity|]).
  eexists. split; [vm_compute; reflexivity|].
  repeat split; vm_compute; reflexivity.
Qed.

(** C5 at a message with a scalar field and a group field: classifying
    the group field gives no node and no error, the loop appends the nil
    node all the same, and rendering the record panics on it. *)
Theorem C5_group_field_is_appended_as_nil :
  processField' Examples.G (Examples.scalar_field "grp" TYPE_GROUP) (Init ∅)
    = Ok ((None, None), Init ∅) ∧
  ∃ e p' s,
    processMessage' Examples.G (Init ∅) = Ok (e, p') ∧
    objects p' !! e = Some (envelope "G" "" "record" s) ∧
    slice_elems p' s = Some [Some 1; None] ∧
    schema' (S (length (objects p'))) p' (Some e)
      = Abort (Panic nil_dereference) ∧
    Generate' Examples.groups (Init ∅) = Abort (Panic nil_dereference).
Proof.
  split; [reflexivity|].
  eexists _, _, _. split; [vm_compute; reflexivity|].
  repeat split; vm_compute; reflexivity.
Qed.



(** ** The properties of the functions at concrete inputs *)

Ltac not_groups :=
  repeat (constructor;
          [first [left; reflexivity | right; discriminate] |]);
  try constructor.

(** A tag outside the enumeration of field types, as a newer [protoc]
    could send it. *)
Definition TYPE_UNKNOWN : FieldDescriptorProto_Type := 19%Z.

(** [message Bad { int64 id; <tag 19> x; C c; }] *)
Definition Bad : Descriptor :=
  Examples.message "Bad" ["Bad"]
    [Examples.scalar_field "id" TYPE_INT64;
     Examples.scalar_field "x" TYPE_UNKNOWN;
     Examples.message_field "c" ".pkg.C"].

(** [message Flat { int64 id; repeated string tags; bool done; }] *)
Definition Flat : Descriptor :=
  Examples.message "Flat" ["Flat"]
    [Examples.scalar_field "id" TYPE_INT64;
     Examples.repeated_field "tags" TYPE_STRING "";
     Examples.scalar_field "done" TYPE_BOOL].

(** An enum field of a type the generator does not know. *)
Definition missing : FieldDescriptorProto :=
  Examples.enum_field "status" ".pkg.Missing".

(** The enum field [status] is classified; an enum field of an unknown
    type ends the run in [ObjectNamed]; a repeated field of a tag outside
    the enumeration ends it in [GoType], and one of an unknown message
    type in [ObjectNamed]. *)
Lemma processField_returns_iff_acceptable_witness :
  wf (Init Examples.types) ∧
  (∃ x p', processField' Examples.Tree Examples.status (Init Examples.types)
           = Ok ((x, None), p')) ∧
  processField' Examples.Tree missing (Init Examples.types)
  = Abort (Exit "can't find object with type .pkg.Missing") ∧
  processField' Examples.Tree (Examples.repeated_field "x" TYPE_UNKNOWN "")
    (Init Examples.types)
  = Abort (Exit "unknown type for x") ∧
  processField' Examples.Basket
    (Examples.repeated_field "items" TYPE_MESSAGE ".pkg.Item")
    (Init Examples.types)
  = Abort (Exit "can't find object with type .pkg.Item").
Proof.
  split; [apply wf_Init|]. split; [|split; [|split]].
  - apply (proj1 (processField_returns_iff_acceptable GoLib.CamelCase
                    GetFieldName_plain Examples.Tree Examples.status
                    (Init Examples.types) (wf_Init _))).
    field_ok_one.
  - apply (proj2 (processField_returns_iff_acceptable GoLib.CamelCase
                    GetFieldName_plain Examples.Tree missing
                    (Init Examples.types) (wf_Init _))).
    intros [H|[H|[H|[_ [values H]]]]]; discriminate H.
  - apply (proj2 (processField_returns_iff_acceptable GoLib.CamelCase
                    GetFieldName_plain Examples.Tree
                    (Examples.repeated_field "x" TYPE_UNKNOWN "")
                    (Init Examples.types) (wf_Init _))).
    intros [H|[[H|[H|H]] _]]; discriminate H.
  - apply (proj2 (processField_returns_iff_acceptable GoLib.CamelCase
                    GetFieldName_plain Examples.Basket
                    (Examples.repeated_field "items" TYPE_MESSAGE ".pkg.Item")
                    (Init Examples.types) (wf_Init _))).
    intros [H|[_ [o H]]]; discriminate H.
Defined.

(** [Bad]: the field [id] is classified, the field [x] ends the run. *)
Lemma processMessage_aborts_at_first_bad_field_witness :
  wf (Init ∅) ∧
  msg_Field Bad
  = [Examples.scalar_field "id" TYPE_INT64]
    ++ Examples.scalar_field "x" TYPE_UNKNOWN
    :: [Examples.message_field "c" ".pkg.C"] ∧
  Forall (field_ok (Init ∅)) [Examples.scalar_field "id" TYPE_INT64] ∧
  processMessage' Bad (Init ∅) = Abort (Exit "unknown type for  x").
Proof.
  split; [apply wf_Init|]. split; [reflexivity|].
  assert (Hid : Forall (field_ok (Init ∅))
                  [Examples.scalar_field "id" TYPE_INT64]) by fields_ok.
  split; [exact Hid|].
  apply (processMessage_aborts_at_first_bad_field GoLib.CamelCase
           GetFieldName_plain GoLib.growslice Bad (Init ∅)
           [Examples.scalar_field "id" TYPE_INT64]
           (Examples.scalar_field "x" TYPE_UNKNOWN)
           [Examples.message_field "c" ".pkg.C"] (wf_Init ∅) eq_refl Hid).
  intros [H|[H|[H|[H _]]]]; discriminate H.
Defined.

Local Abbreviation createMessageStub' :=
  (createMessageStub GoLib.CamelCase GetFieldName_plain GoLib.Quote
     GoLib.growslice).
Local Abbreviation GenerateAll' :=
  (GenerateAll GoLib.CamelCase GetFieldName_plain GoLib.Quote GoLib.growslice).

(** The state after the message [C] was assembled: its envelope at
    address 0 with the node of [id] at address 1, and [C] in the cache. *)
Definition after_C : avroschema := after Examples.C (Init ∅).

(** [A] assembled after [C]: the key [C] stays, [A] is added, and every
    key but [A] and [Third] is bound as before. *)
Lemma processMessage_cache_witness :
  wf after_C ∧
  processMessage' Examples.A after_C = Ok (2, after Examples.A after_C) ∧
  dom (seen after_C) ⊆ dom (seen (after Examples.A after_C)) ∧
  ∀ k, (∀ f, f ∈ msg_Field Examples.A → is_message_field f = true →
             GoLib.CamelCase (fd_Name f) ≠ k) →
       seen (after Examples.A after_C) !! k
       = <[CamelCaseSlice GoLib.CamelCase (msg_TypeName Examples.A) := Some 2]>
           (seen after_C) !! k.
Proof.
  assert (Hwf : wf after_C) by apply wf_after, heap_ok_Init.
  assert (Hrun : processMessage' Examples.A after_C
                 = Ok (2, after Examples.A after_C))
    by (vm_compute; reflexivity).
  split; [exact Hwf|]. split; [exact Hrun|].
  exact (processMessage_cache GoLib.CamelCase GetFieldName_plain
           GoLib.growslice Examples.A after_C 2 _ Hwf Hrun).
Defined.

(** [A] assembled after [C]: its envelope is at the next address, and the
    two structs of [C] and the elements of its slice are as before. *)
Lemma processMessage_keeps_structs_witness :
  wf after_C ∧
  processMessage' Examples.A after_C = Ok (2, after Examples.A after_C) ∧
  2 = length (objects after_C) ∧
  (∀ a o, objects after_C !! a = Some o →
          objects (after Examples.A after_C) !! a = Some o) ∧
  (∀ a o s, objects after_C !! a = Some o → slice_of o = Some s →
            slice_elems (after Examples.A after_C) s = slice_elems after_C s).
Proof.
  assert (Hwf : wf after_C) by apply wf_after, heap_ok_Init.
  assert (Hrun : processMessage' Examples.A after_C
                 = Ok (2, after Examples.A after_C))
    by (vm_compute; reflexivity).
  split; [exact Hwf|]. split; [exact Hrun|].
  exact (processMessage_keeps_structs GoLib.CamelCase GetFieldName_plain
           GoLib.growslice Examples.A after_C 2 _ Hwf Hrun).
Defined.

(** [A] assembled after [C]: the record of [C] renders as before. *)
Lemma processMessage_keeps_renderings_witness :
  heap_ok after_C ∧
  processMessage' Examples.A after_C = Ok (2, after Examples.A after_C) ∧
  0 < length (objects after_C) ∧
  schema' 3 (after Examples.A after_C) (Some 0) = schema' 3 after_C (Some 0).
Proof.
  assert (Hok : heap_ok after_C) by apply heap_ok_after, heap_ok_Init.
  assert (Hrun : processMessage' Examples.A after_C
                 = Ok (2, after Examples.A after_C))
    by (vm_compute; reflexivity).
  assert (Hlt : 0 < length (objects after_C)) by (vm_compute; lia).
  split; [exact Hok|]. split; [exact Hrun|]. split; [exact Hlt|].
  exact (processMessage_keeps_renderings GoLib.CamelCase GetFieldName_plain
           GoLib.Quote GoLib.growslice Examples.A after_C 2 _ 3 0 Hok Hrun Hlt).
Defined.

(** [Flat] in the state after [C]: three nodes behind the envelope, one
    per field, and the accessor [AvroSchemaForFlat]. *)
Lemma createMessageStub_flat_witness :
  forallb is_flat (msg_Field Flat) = true ∧
  Forall (field_ok after_C) (msg_Field Flat) ∧
  ∃ s p',
    createMessageStub' Flat after_C = Ok (tt, p') ∧
    objects p' =
      objects after_C ++
      envelope (CamelCaseSlice GoLib.CamelCase (msg_TypeName Flat))
        (fileName after_C) "record" s
      :: map (flat_node GetFieldName_plain Flat) (msg_Field Flat) ∧
    slice_elems p' s =
      Some (map Some (seq (S (length (objects after_C)))
                        (length (msg_Field Flat)))) ∧
    seen p' =
      <[CamelCaseSlice GoLib.CamelCase (msg_TypeName Flat) :=
          Some (length (objects after_C))]> (seen after_C) ∧
    g_output p' =
      g_output after_C ++
      [String.concat "" ["func AvroSchemaFor"; msg_Name Flat; "() string {"];
       "return " +:+
       GoLib.Quote
         (envelope_template (CamelCaseSlice GoLib.CamelCase (msg_TypeName Flat))
            (fileName after_C)
            (GoLib.Join (map (flat_schema GetFieldName_plain Flat)
                           (msg_Field Flat)) ", "));
       "}"; ""].
Proof.
  assert (Hok : Forall (field_ok after_C) (msg_Field Flat)) by fields_ok.
  split; [reflexivity|]. split; [exact Hok|].
  exact (createMessageStub_flat GoLib.CamelCase GetFieldName_plain GoLib.Quote
           GoLib.growslice Flat after_C eq_refl Hok).
Defined.

(** [A] assembled after [C]: the node of its field [third] is a new
    complexField on the slice of the envelope of [C], which holds the node
    of [id]. *)
Lemma reference_to_assembled_record_witness :
  wf after_C ∧
  Forall (field_ok after_C) (msg_Field Examples.A) ∧
  msg_Field Examples.A !! 0 = Some (Examples.message_field "third" ".pkg.C") ∧
  is_message_field (Examples.message_field "third" ".pkg.C") = true ∧
  short_type_name GoLib.CamelCase (Examples.message_field "third" ".pkg.C")
    = Some "C" ∧
  seen after_C !! "C" = Some (Some 0) ∧
  objects after_C !! 0 = Some (envelope "C" "" "record" (Slice 1 1)) ∧
  slice_elems after_C (Slice 1 1) = Some [Some 1] ∧
  ∃ e p' n ns ty s l a,
    processMessage' Examples.A after_C = Ok (e, p') ∧
    objects p' !! e = Some (envelope n ns ty s) ∧
    slice_elems p' s = Some l ∧
    length l = length (msg_Field Examples.A) ∧
    l !! 0 = Some (Some a) ∧
    length (objects after_C) < a ∧
    objects p' !! a
      = Some (complexField
                (GoLib.CamelCase
                   (fd_Name (Examples.message_field "third" ".pkg.C")))
                "C" (Slice 1 1)) ∧
    objects p' !! 0 = Some (envelope "C" "" "record" (Slice 1 1)) ∧
    slice_elems p' (Slice 1 1) = Some [Some 1].
Proof.
  assert (Hwf : wf after_C) by apply wf_after, heap_ok_Init.
  assert (Hfields : Forall (field_ok after_C) (msg_Field Examples.A))
    by fields_ok.
  split; [exact Hwf|]. split; [exact Hfields|].
  do 6 (split; [vm_compute; reflexivity|]).
  apply (reference_to_assembled_record GoLib.CamelCase GetFieldName_plain
           GoLib.growslice Examples.A after_C 0
           (Examples.message_field "third" ".pkg.C") "C" 0 "C" "" "record"
           (Slice 1 1) [Some 1] Hwf Hfields).
  - reflexivity.
  - reflexivity.
  - vm_compute; reflexivity.
  - vm_compute; reflexivity.
  - vm_compute; reflexivity.
  - vm_compute; reflexivity.
  - discriminate.
  - intros f' Hin. by apply elem_of_nil in Hin.
Defined.

(** The fields [third] of [A] and of [B], both of the unseen type [C]:
    the first node is bound to [Third], so the second lookup of [C] misses
    again and a second node is made. *)
Lemma second_reference_after_a_miss_witness :
  short_type_name GoLib.CamelCase (Examples.message_field "third" ".pkg.C")
    = Some "C" ∧
  seen (Init ∅) !! "C" = None ∧
  ∃ p1 a2 p2,
    getComplexField GoLib.CamelCase Examples.A
      (Examples.message_field "third" ".pkg.C") (Init ∅)
      = Ok ((length (objects (Init ∅)), None), p1) ∧
    getComplexField GoLib.CamelCase Examples.B
      (Examples.message_field "third" ".pkg.C") p1 = Ok ((a2, None), p2) ∧
    (GoLib.CamelCase (fd_Name (Examples.message_field "third" ".pkg.C")) = "C" →
     a2 = length (objects (Init ∅)) ∧ p2 = p1) ∧
    (GoLib.CamelCase (fd_Name (Examples.message_field "third" ".pkg.C")) ≠ "C" →
     a2 = S (length (objects (Init ∅))) ∧
     objects p2 =
       objects p1 ++
       [complexField
          (GoLib.CamelCase (fd_Name (Examples.message_field "third" ".pkg.C")))
          "C" (Slice (S (length (arrays (Init ∅)))) 0)]).
Proof.
  split; [vm_compute; reflexivity|]. split; [reflexivity|].
  apply (second_reference_after_a_miss GoLib.CamelCase Examples.A
           (Examples.message_field "third" ".pkg.C") Examples.B
           (Examples.message_field "third" ".pkg.C") (Init ∅) "C").
  - vm_compute; reflexivity.
  - reflexivity.
  - vm_compute; reflexivity.
Defined.

(** [G], with the group field [grp] at position 1: the record has a nil
    node there and [createMessageStub] panics. *)
Lemma createMessageStub_panics_on_group_field_witness :
  heap_ok (Init ∅) ∧
  Forall (field_ok (Init ∅)) (msg_Field Examples.G) ∧
  msg_Field Examples.G !! 1 = Some (Examples.scalar_field "grp" TYPE_GROUP) ∧
  (∃ e p' n ns ty s l,
     processMessage' Examples.G (Init ∅) = Ok (e, p') ∧
     objects p' !! e = Some (envelope n ns ty s) ∧
     slice_elems p' s = Some l ∧ l !! 1 = Some None) ∧
  createMessageStub' Examples.G (Init ∅) = Abort (Panic nil_dereference).
Proof.
  assert (Hfields : Forall (field_ok (Init ∅)) (msg_Field Examples.G))
    by fields_ok.
  split; [apply heap_ok_Init|]. split; [exact Hfields|].
  split; [reflexivity|].
  exact (createMessageStub_panics_on_group_field GoLib.CamelCase
           GetFieldName_plain GoLib.Quote GoLib.growslice Examples.G (Init ∅) 1
           (Examples.scalar_field "grp" TYPE_GROUP) (heap_ok_Init ∅) Hfields
           eq_refl eq_refl eq_refl).
Defined.

(** The tree message: it is assembled, its record renders, and the
    accessor [AvroSchemaForTree] is printed. *)
Lemma createMessageStub_succeeds_witness :
  heap_ok (Init ∅) ∧ all_cells is_Some (Init ∅) ∧
  Forall (field_ok (Init ∅)) (msg_Field Examples.Tree) ∧
  Forall not_group (msg_Field Examples.Tree) ∧
  ∃ e p1 text p',
    processMessage' Examples.Tree (Init ∅) = Ok (e, p1) ∧
    schema' (S (length (objects p1))) p1 (Some e) = Ok text ∧
    createMessageStub' Examples.Tree (Init ∅) = Ok (tt, p') ∧
    g_output p' = g_output (Init ∅) ++ accessor GoLib.Quote Examples.Tree text ∧
    seen p' = seen p1 ∧ objects p' = objects p1 ∧ arrays p' = arrays p1.
Proof.
  assert (Hfields : Forall (field_ok (Init ∅)) (msg_Field Examples.Tree))
    by fields_ok.
  assert (Hng : Forall not_group (msg_Field Examples.Tree)) by not_groups.
  split; [apply heap_ok_Init|]. split; [apply all_cells_Init|].
  split; [exact Hfields|]. split; [exact Hng|].
  exact (createMessageStub_succeeds GoLib.CamelCase GetFieldName_plain
           GoLib.Quote GoLib.growslice Examples.Tree (Init ∅) (heap_ok_Init ∅)
           (all_cells_Init _ ∅) Hfields Hng).
Defined.

(** [Bad] without the avro option. *)
Definition Bad_unmarked : Descriptor :=
  {| msg_Name := "Bad"; msg_TypeName := ["Bad"]; msg_Field := msg_Field Bad;
     msg_HasAvroSchema := false |}.

(** A second file, with the unmarked [Bad], [Flat] and [Basket]. *)
Definition more : FileDescriptor :=
  {| file_FileName := "More";
     file_Messages := [Bad_unmarked; Flat; Examples.Basket] |}.

(** A run over the file with [A], [B] and [C] and the file with the
    unmarked [Bad], [Flat] and [Basket], the type of the items of [Basket]
    known: it returns, with one record and one accessor for each of [A],
    [B], [C], [Flat] and [Basket]. *)
Lemma GenerateAll_succeeds_witness :
  Forall (λ file, Forall (message_accepted (Init Examples.items))
                    (file_Messages file))
    [Examples.siblings; more] ∧
  opted_in (concat (map file_Messages [Examples.siblings; more]))
    = [Examples.A; Examples.B; Examples.C; Flat; Examples.Basket] ∧
  ∃ stubs p',
    GenerateAll' [Examples.siblings; more] (Init Examples.items)
      = Ok (tt, p') ∧
    Forall2 (stub_of GoLib.CamelCase GoLib.Quote p')
      (opted_in (concat (map file_Messages [Examples.siblings; more])))
      stubs ∧
    g_output p' =
      concat (zip_with (accessor GoLib.Quote)
                (opted_in (concat (map file_Messages [Examples.siblings; more])))
                stubs.*2).
Proof.
  assert (Hfiles : Forall (λ file, Forall (message_accepted (Init Examples.items))
                                     (file_Messages file))
                     [Examples.siblings; more]).
  { apply Forall_cons_2; [|apply Forall_cons_2; [|apply Forall_nil_2]].
    - repeat (apply Forall_cons_2;
              [intros _; split; [fields_ok | not_groups]|]).
      apply Forall_nil_2.
    - apply Forall_cons_2; [intros Hopt; discriminate Hopt|].
      repeat (apply Forall_cons_2;
              [intros _; split; [fields_ok | not_groups]|]).
      apply Forall_nil_2. }
  split; [exact Hfiles|]. split; [reflexivity|].
  exact (GenerateAll_succeeds GoLib.CamelCase GetFieldName_plain GoLib.Quote
           GoLib.growslice Examples.items [Examples.siblings; more] Hfiles).
Defined.

(** An enum with a symbol that holds a double quote, a message with a
    field of that type, and a file with that message. *)
Definition odd_types : gmap string Object :=
  {[ ".pkg.Odd" := EnumObject [{| ev_Name := Examples.quoted_name;
                                  ev_Number := 0 |}] ]}.
Definition Report : Descriptor :=
  Examples.message "Report" ["Report"]
    [Examples.enum_field "kind" ".pkg.Odd";
     Examples.message_field "third" ".pkg.C"].
Definition reports : FileDescriptor :=
  {| file_FileName := "Reports"; file_Messages := [Bad_unmarked; Report] |}.

(** The state at the end of the run over the two files. *)
Definition reports_end : avroschema :=
  match GenerateAll' [Examples.siblings; reports] (Init odd_types) with
  | Ok (_, p) => p
  | Abort _ => Init odd_types
  end.

(** The run over the file with [A], [B] and [C] and the file with
    [Report]: the four schema texts printed have their string literals
    closed, the quote in the enum symbol notwithstanding. *)
Lemma GenerateAll_texts_closed_witness :
  ascii_enums odd_types ∧
  Forall plain_file [Examples.siblings; reports] ∧
  GenerateAll' [Examples.siblings; reports] (Init odd_types)
    = Ok (tt, reports_end) ∧
  ∃ texts,
    length texts
      = length (opted_in (concat (map file_Messages
                                    [Examples.siblings; reports]))) ∧
    Forall (λ text, strings_closed text = true) texts ∧
    g_output reports_end =
      concat (zip_with (accessor GoLib.Quote)
                (opted_in (concat (map file_Messages
                                     [Examples.siblings; reports])))
                texts).
Proof.
  assert (Hfiles : Forall plain_file [Examples.siblings; reports]).
  { apply Forall_cons_2; [|apply Forall_cons_2; [|apply Forall_nil_2]].
    - split; [reflexivity|].
      repeat (apply Forall_cons_2; [intros _; reflexivity|]).
      apply Forall_nil_2.
    - split; [reflexivity|].
      apply Forall_cons_2; [intros Hopt; discriminate Hopt|].
      apply Forall_cons_2; [intros _; reflexivity|apply Forall_nil_2]. }
  assert (Hrun : GenerateAll' [Examples.siblings; reports] (Init odd_types)
                 = Ok (tt, reports_end)) by (vm_compute; reflexivity).
  assert (Henums : ascii_enums odd_types).
  { intros k values Hk. unfold odd_types in Hk.
    apply lookup_singleton_Some in Hk as [_ [= <-]].
    by repeat constructor. }
  split; [exact Henums|]. split; [exact Hfiles|]. split; [exact Hrun|].
  exact (GenerateAll_texts_closed GoLib.CamelCase GetFieldName_plain
           GoLib.Quote GoLib.growslice plain_CamelCase
           (λ m f Hf, plain_CamelCase (fd_Name f) Hf) (λ s _, eq_refl)
           odd_types [Examples.siblings; reports] tt reports_end
           Henums Hfiles Hrun).
Defined.
